(** * VOLK kernels: index of minimum, scaled squared distance, popcount puppets

    A shallow embedding of three kernel families of the VOLK vector library

    - [volk_32f_index_min_16u] (generic, a_avx, a_sse4_1, a_sse, u_avx),
    - [volk_32fc_x2_s32f_square_dist_scalar_mult_32f]
      (generic, a_avx2, a_avx, a_sse3, u_avx2),
    - [volk_32u_popcntpuppet_32u] (e2k, a_sse4_2),

    together with the properties that relate the variants of one kernel to
    each other and to the caller's buffers.

    Modelling choices.

    - A [float] is its IEEE-754 binary32 bit pattern, a [Z] in [0, 2^32).
      Arithmetic and comparisons go through [SpecFloat] at precision 24 and
      maximal exponent 128.  NaN payloads and NaN signs are not tracked:
      every NaN produced by arithmetic is written as one quiet NaN pattern,
      so statements about computed floats are made up to [same_float],
      which identifies all NaN patterns.
    - The scalar loop of the square-distance kernels evaluates
      [scalar * (re * re + im * im)], which a C compiler may contract into a
      fused multiply-add.  The contraction the build applies is a parameter
      of that loop ([contraction]); intrinsics are never contracted, a
      horizontal add separates their multiplications from their additions.
    - The caller's buffers live in one store, indexed by a buffer name and a
      word offset from the pointer the caller passed.  The store is total:
      an access past the caller's element count reads or writes whatever
      follows the buffer, and is recorded like every other access.
    - Every load and store on a caller buffer is recorded in a trace, newest
      event first.  Stack-allocated scratch arrays are plain local values.
    - Alignment is not modelled: aligned and unaligned loads and stores have
      the same meaning. *)

From Stdlib Require Import ZArith Lia List Bool QArith Qabs.
From Stdlib Require Import SpecFloat.
Import ListNotations.
Local Open Scope Z_scope.

(* ================================================================== *)
(** * Part I: definitions *)
(* ================================================================== *)

(** ** binary32 bit patterns *)

Module F32.

Definition prec : Z := 24.
Definition emax : Z := 128.

Definition sign_of (b : Z) : bool := Z.testbit b 31.
Definition expo_of (b : Z) : Z := Z.land (Z.shiftr b 23) 255.
Definition frac_of (b : Z) : Z := Z.land b 8388607.

(** The value denoted by a bit pattern. *)
Definition decode (b : Z) : spec_float :=
  let s := sign_of b in
  let E := expo_of b in
  let M := frac_of b in
  if E =? 0 then
    match M with
    | Zpos m => S754_finite s m (-149)
    | _ => S754_zero s
    end
  else if E =? 255 then
    if M =? 0 then S754_infinity s else S754_nan
  else
    match M + 8388608 with
    | Zpos m => S754_finite s m (E - 150)
    | _ => S754_nan
    end.

Definition sign_bit (s : bool) : Z := if s then 2147483648 else 0.

(** The bit pattern of a (canonical) value; NaN is the default quiet NaN. *)
Definition encode (x : spec_float) : Z :=
  match x with
  | S754_zero s => sign_bit s
  | S754_infinity s => sign_bit s + 2139095040
  | S754_nan => 2143289344
  | S754_finite s m e =>
      if Zpos m <? 8388608 then sign_bit s + Zpos m
      else sign_bit s + (e + 150) * 8388608 + (Zpos m - 8388608)
  end.

Definition compare (a b : Z) : option comparison :=
  SFcompare (decode a) (decode b).

(** C's [a < b], [a == b], [a > b] and [a <= b] on floats. *)
Definition ltb (a b : Z) : bool := SFltb (decode a) (decode b).
Definition eqb (a b : Z) : bool := SFeqb (decode a) (decode b).
Definition gtb (a b : Z) : bool := ltb b a.
Definition leb (a b : Z) : bool := SFleb (decode a) (decode b).

Definition add (a b : Z) : Z := encode (SFadd prec emax (decode a) (decode b)).
Definition sub (a b : Z) : Z := encode (SFsub prec emax (decode a) (decode b)).
Definition mul (a b : Z) : Z := encode (SFmul prec emax (decode a) (decode b)).

(** [x * y + z] with a single rounding: the exact product enters the
    addition unrounded. *)
Definition SFfma (x y z : spec_float) : spec_float :=
  match x, y with
  | S754_nan, _ | _, S754_nan => S754_nan
  | S754_infinity _, S754_zero _ | S754_zero _, S754_infinity _ => S754_nan
  | S754_infinity sx, S754_infinity sy
  | S754_infinity sx, S754_finite sy _ _
  | S754_finite sx _ _, S754_infinity sy =>
      SFadd prec emax (S754_infinity (xorb sx sy)) z
  | S754_zero sx, S754_zero sy
  | S754_zero sx, S754_finite sy _ _
  | S754_finite sx _ _, S754_zero sy =>
      SFadd prec emax (S754_zero (xorb sx sy)) z
  | S754_finite sx mx ex, S754_finite sy my ey =>
      match z with
      | S754_zero _ => SFmul prec emax x y
      | _ => SFadd prec emax (S754_finite (xorb sx sy) (mx * my) (ex + ey)) z
      end
  end.

(** C's [fmaf (a, b, c)]. *)
Definition fma (a b c : Z) : Z := encode (SFfma (decode a) (decode b) (decode c)).

(** Conversion of an integer to float (round to nearest even). *)
Definition of_Z (z : Z) : Z := encode (binary_normalize prec emax z 0 false).

(** Conversion of a float to an integer, truncating towards zero. *)
Definition trunc (a : Z) : Z :=
  match decode a with
  | S754_finite s m e =>
      let v := if 0 <=? e then Zpos m * 2 ^ e else Zpos m / 2 ^ (- e) in
      if s then - v else v
  | _ => 0
  end.

(** [(uint16_t)x] for a float [x]. *)
Definition to_u16 (a : Z) : Z := trunc a mod 65536.

(** The rational denoted by a finite bit pattern (0 for the others). *)
Definition to_Q (a : Z) : Q :=
  match decode a with
  | S754_finite s m e =>
      let v := if 0 <=? e then inject_Z (Zpos m * 2 ^ e)
               else Qmake (Zpos m) (Z.to_pos (2 ^ (- e))) in
      if s then Qopp v else v
  | _ => 0%Q
  end.

Definition is_nan (a : Z) : bool :=
  (expo_of a =? 255) && negb (frac_of a =? 0).

(** Sign-magnitude reading of a bit pattern: an order embedding of the
    non-NaN floats into the integers. *)
Definition key (a : Z) : Z :=
  let mag := Z.land a 2147483647 in
  if sign_of a then - mag else mag.

End F32.

(** ** The store, the trace and the kernel monad *)

Inductive buffer := Target | Source | Src0 | Points | OutVector | InVector.

Definition buffer_eqb (a b : buffer) : bool :=
  match a, b with
  | Target, Target | Source, Source | Src0, Src0 | Points, Points
  | OutVector, OutVector | InVector, InVector => true
  | _, _ => false
  end.

Inductive event :=
| Rd (b : buffer) (i : nat)
| Wr (b : buffer) (i : nat).

Definition memory := buffer -> nat -> Z.

Record state := mkState { mem : memory; trace : list event }.

Definition M (A : Type) : Type := state -> A * state.

Definition ret {A} (a : A) : M A := fun st => (a, st).

Definition bind {A B} (c : M A) (k : A -> M B) : M B :=
  fun st => let (a, st') := c st in k a st'.

Notation "x <- c ;; k" := (bind c (fun x => k))
  (at level 61, c at next level, right associativity).
Notation "' pat <- c ;; k" := (bind c (fun x => match x with pat => k end))
  (at level 61, pat pattern, c at next level, right associativity).
Notation "c ;;; k" := (bind c (fun _ => k))
  (at level 61, right associativity).

Definition upd (m : memory) (b : buffer) (i : nat) (v : Z) : memory :=
  fun b' i' => if buffer_eqb b b' && Nat.eqb i i' then v else m b' i'.

Definition load (b : buffer) (i : nat) : M Z :=
  fun st => (mem st b i, mkState (mem st) (Rd b i :: trace st)).

Definition store (b : buffer) (i : nat) (v : Z) : M unit :=
  fun st => (tt, mkState (upd (mem st) b i v) (Wr b i :: trace st)).

Definition exec {A} (c : M A) (st : state) : state := snd (c st).

(** [for (i = start; i < start + count; i++) s = body i s] *)
Fixpoint for_range {S : Type} (start : nat) (count : nat)
  (body : nat -> S -> M S) (s : S) : M S :=
  match count with
  | O => ret s
  | Datatypes.S c => s' <- body start s ;; for_range (Datatypes.S start) c body s'
  end.

(** [for (i = lo; i < hi; i++) s = body i s] *)
Definition for_loop {S : Type} (lo hi : nat) (body : nat -> S -> M S) (s : S) : M S :=
  for_range lo (hi - lo) body s.

(** Consecutive words of a buffer, lowest address first. *)
Fixpoint load_words (b : buffer) (p : nat) (n : nat) : M (list Z) :=
  match n with
  | O => ret []
  | Datatypes.S n' => x <- load b p ;; xs <- load_words b (Datatypes.S p) n' ;; ret (x :: xs)
  end.

Fixpoint store_words (b : buffer) (p : nat) (v : list Z) : M unit :=
  match v with
  | [] => ret tt
  | x :: xs => store b p x ;;; store_words b (Datatypes.S p) xs
  end.

(** ** SIMD registers and intrinsics

    A register is the list of its 32-bit lanes, lane 0 first. *)

Definition vec := list Z.

Fixpoint vzip (f : Z -> Z -> Z) (a b : vec) : vec :=
  match a, b with
  | x :: a', y :: b' => f x y :: vzip f a' b'
  | _, _ => []
  end.

Fixpoint vzip3 (f : Z -> Z -> Z -> Z) (a b c : vec) : vec :=
  match a, b, c with
  | x :: a', y :: b', z :: c' => f x y z :: vzip3 f a' b' c'
  | _, _, _ => []
  end.

Definition lane (v : vec) (i : nat) : Z := nth i v 0.

Definition all_ones : Z := 4294967295.

(** Lane result of an ordered less-than comparison. *)
Definition cmplt_lane (x y : Z) : Z := if F32.ltb x y then all_ones else 0.

(** Lane result of a variable blend: the sign bit of the mask selects. *)
Definition blendv_lane (a b mask : Z) : Z := if Z.testbit mask 31 then b else a.

(** *** 128-bit *)

Definition _mm_set1_ps (x : Z) : vec := repeat x 4.
Definition _mm_set_ps (e3 e2 e1 e0 : Z) : vec := [e0; e1; e2; e3].
Definition _mm_setzero_ps : vec := repeat 0 4.
Definition _mm_load_ps (b : buffer) (p : nat) : M vec := load_words b p 4.
Definition _mm_loadu_ps (b : buffer) (p : nat) : M vec := _mm_load_ps b p.
Definition _mm_load1_ps (x : Z) : vec := repeat x 4.
Definition _mm_store_ps (b : buffer) (p : nat) (v : vec) : M unit := store_words b p v.
Definition _mm_storeu_ps (b : buffer) (p : nat) (v : vec) : M unit := _mm_store_ps b p v.
Definition _mm_add_ps (a b : vec) : vec := vzip F32.add a b.
Definition _mm_sub_ps (a b : vec) : vec := vzip F32.sub a b.
Definition _mm_mul_ps (a b : vec) : vec := vzip F32.mul a b.
Definition _mm_cmplt_ps (a b : vec) : vec := vzip cmplt_lane a b.
Definition _mm_blendv_ps (a b mask : vec) : vec := vzip3 blendv_lane a b mask.
Definition _mm_and_ps (a b : vec) : vec := vzip Z.land a b.
Definition _mm_or_ps (a b : vec) : vec := vzip Z.lor a b.
Definition _mm_andnot_ps (a b : vec) : vec :=
  vzip (fun x y => Z.land (Z.lxor x all_ones) y) a b.
Definition _mm_hadd_ps (a b : vec) : vec :=
  [F32.add (lane a 0) (lane a 1); F32.add (lane a 2) (lane a 3);
   F32.add (lane b 0) (lane b 1); F32.add (lane b 2) (lane b 3)].
Definition _mm_permute_ps (a : vec) (imm8 : Z) : vec :=
  map (fun i => lane a (Z.to_nat (Z.land (Z.shiftr imm8 (2 * i)) 3))) [0; 1; 2; 3].
(** Loads two floats into the low half; the high half comes from [a]. *)
Definition _mm_loadl_pi (a : vec) (b : buffer) (p : nat) : M vec :=
  lo <- load_words b p 2 ;; ret (lo ++ [lane a 2; lane a 3]).
Definition _mm_movelh_ps (a b : vec) : vec :=
  [lane a 0; lane a 1; lane b 0; lane b 1].
(** Stores the two high lanes. *)
Definition _mm_storeh_pi (b : buffer) (p : nat) (a : vec) : M unit :=
  store_words b p [lane a 2; lane a 3].

(** *** 256-bit *)

Definition _mm256_set1_ps (x : Z) : vec := repeat x 8.
Definition _mm256_set_ps (e7 e6 e5 e4 e3 e2 e1 e0 : Z) : vec :=
  [e0; e1; e2; e3; e4; e5; e6; e7].
Definition _mm256_setr_ps (e0 e1 e2 e3 e4 e5 e6 e7 : Z) : vec :=
  [e0; e1; e2; e3; e4; e5; e6; e7].
Definition _mm256_set_epi32 (e7 e6 e5 e4 e3 e2 e1 e0 : Z) : vec :=
  [e0; e1; e2; e3; e4; e5; e6; e7].
Definition _mm256_setzero_ps : vec := repeat 0 8.
Definition _mm256_load_ps (b : buffer) (p : nat) : M vec := load_words b p 8.
Definition _mm256_loadu_ps (b : buffer) (p : nat) : M vec := _mm256_load_ps b p.
Definition _mm256_store_ps (b : buffer) (p : nat) (v : vec) : M unit := store_words b p v.
Definition _mm256_storeu_ps (b : buffer) (p : nat) (v : vec) : M unit := _mm256_store_ps b p v.
Definition _mm256_add_ps (a b : vec) : vec := vzip F32.add a b.
Definition _mm256_sub_ps (a b : vec) : vec := vzip F32.sub a b.
Definition _mm256_mul_ps (a b : vec) : vec := vzip F32.mul a b.
(** [_mm256_cmp_ps (a, b, _CMP_LT_OS)]: ordered less-than. *)
Definition _mm256_cmp_ps_LT_OS (a b : vec) : vec := vzip cmplt_lane a b.
Definition _mm256_blendv_ps (a b mask : vec) : vec := vzip3 blendv_lane a b mask.
Definition _mm256_hadd_ps (a b : vec) : vec :=
  [F32.add (lane a 0) (lane a 1); F32.add (lane a 2) (lane a 3);
   F32.add (lane b 0) (lane b 1); F32.add (lane b 2) (lane b 3);
   F32.add (lane a 4) (lane a 5); F32.add (lane a 6) (lane a 7);
   F32.add (lane b 4) (lane b 5); F32.add (lane b 6) (lane b 7)].
Definition _mm256_permutevar8x32_ps (a : vec) (idx : vec) : vec :=
  map (fun i => lane a (Z.to_nat (Z.land i 7))) idx.
Definition _mm256_extractf128_ps (a : vec) (imm8 : Z) : vec :=
  if Z.testbit imm8 0 then skipn 4 a else firstn 4 a.
Definition _mm256_insertf128_ps (a : vec) (b : vec) (imm8 : Z) : vec :=
  if Z.testbit imm8 0 then firstn 4 a ++ b else b ++ skipn 4 a.
(** The upper half of the result is unspecified by the architecture; the
    callers overwrite it before use.  It is zero here. *)
Definition _mm256_castps128_ps256 (a : vec) : vec := a ++ repeat 0 4.
Definition _mm256_blend_ps (a b : vec) (imm8 : Z) : vec :=
  map (fun i => if Z.testbit imm8 (Z.of_nat i) then lane b i else lane a i)
      (seq 0 8).

(** ** volk_32f_index_min_16u

    [target] is the buffer [Target] (one [uint16_t]); [source] is the buffer
    [Source] (floats). *)

Definition USHRT_MAX : Z := 65535.

(** The scalar reduction over the lanes stored to the scratch arrays
    [minValuesBuffer] and [minIndexesBuffer]. *)
Definition reduce_lanes (lanes : nat) (minValuesBuffer minIndexesBuffer : vec)
  (min index : Z) : M (Z * Z) :=
  for_loop 0 lanes (fun number '(min, index) =>
    if F32.ltb (lane minValuesBuffer number) min then
      let index := lane minIndexesBuffer number in
      let min := lane minValuesBuffer number in
      ret (min, index)
    else if F32.eqb (lane minValuesBuffer number) min then
      if F32.gtb index (lane minIndexesBuffer number) then
        ret (min, lane minIndexesBuffer number)
      else ret (min, index)
    else ret (min, index)) (min, index).

(** The scalar loop over the points the vector loop left over. *)
Definition scalar_tail (lo hi : nat) (min index : Z) : M (Z * Z) :=
  for_loop lo hi (fun number '(min, index) =>
    x <- load Source number ;;
    if F32.ltb x min then
      let index := F32.of_Z (Z.of_nat number) in
      min <- load Source number ;;
      ret (min, index)
    else ret (min, index)) (min, index).

Definition volk_32f_index_min_16u_a_avx (num_points : Z) : M unit :=
  let num_points := if num_points >? USHRT_MAX then USHRT_MAX else num_points in
  let eighthPoints := num_points / 8 in
  let inputPtr := 0%nat in
  let indexIncrementValues := _mm256_set1_ps (F32.of_Z 8) in
  let currentIndexes :=
    _mm256_set_ps (F32.of_Z (-1)) (F32.of_Z (-2)) (F32.of_Z (-3)) (F32.of_Z (-4))
                  (F32.of_Z (-5)) (F32.of_Z (-6)) (F32.of_Z (-7)) (F32.of_Z (-8)) in
  min <- load Source 0 ;;
  let index := F32.of_Z 0 in
  let minValues := _mm256_set1_ps min in
  let minValuesIndex := _mm256_setzero_ps in
  '(inputPtr, currentIndexes, minValuesIndex, minValues) <-
    for_loop 0 (Z.to_nat eighthPoints)
      (fun number '(inputPtr, currentIndexes, minValuesIndex, minValues) =>
        currentValues <- _mm256_load_ps Source inputPtr ;;
        let inputPtr := (inputPtr + 8)%nat in
        let currentIndexes := _mm256_add_ps currentIndexes indexIncrementValues in
        let compareResults := _mm256_cmp_ps_LT_OS currentValues minValues in
        let minValuesIndex := _mm256_blendv_ps minValuesIndex currentIndexes compareResults in
        let minValues := _mm256_blendv_ps minValues currentValues compareResults in
        ret (inputPtr, currentIndexes, minValuesIndex, minValues))
      (inputPtr, currentIndexes, minValuesIndex, minValues) ;;
  let minValuesBuffer := minValues in
  let minIndexesBuffer := minValuesIndex in
  '(min, index) <- reduce_lanes 8 minValuesBuffer minIndexesBuffer min index ;;
  '(min, index) <- scalar_tail (Z.to_nat (eighthPoints * 8)) (Z.to_nat num_points) min index ;;
  store Target 0 (F32.to_u16 index).

Definition volk_32f_index_min_16u_a_sse4_1 (num_points : Z) : M unit :=
  let num_points := if num_points >? USHRT_MAX then USHRT_MAX else num_points in
  let quarterPoints := num_points / 4 in
  let inputPtr := 0%nat in
  let indexIncrementValues := _mm_set1_ps (F32.of_Z 4) in
  let currentIndexes :=
    _mm_set_ps (F32.of_Z (-1)) (F32.of_Z (-2)) (F32.of_Z (-3)) (F32.of_Z (-4)) in
  min <- load Source 0 ;;
  let index := F32.of_Z 0 in
  let minValues := _mm_set1_ps min in
  let minValuesIndex := _mm_setzero_ps in
  '(inputPtr, currentIndexes, minValuesIndex, minValues) <-
    for_loop 0 (Z.to_nat quarterPoints)
      (fun number '(inputPtr, currentIndexes, minValuesIndex, minValues) =>
        currentValues <- _mm_load_ps Source inputPtr ;;
        let inputPtr := (inputPtr + 4)%nat in
        let currentIndexes := _mm_add_ps currentIndexes indexIncrementValues in
        let compareResults := _mm_cmplt_ps currentValues minValues in
        let minValuesIndex := _mm_blendv_ps minValuesIndex currentIndexes compareResults in
        let minValues := _mm_blendv_ps minValues currentValues compareResults in
        ret (inputPtr, currentIndexes, minValuesIndex, minValues))
      (inputPtr, currentIndexes, minValuesIndex, minValues) ;;
  let minValuesBuffer := minValues in
  let minIndexesBuffer := minValuesIndex in
  '(min, index) <- reduce_lanes 4 minValuesBuffer minIndexesBuffer min index ;;
  '(min, index) <- scalar_tail (Z.to_nat (quarterPoints * 4)) (Z.to_nat num_points) min index ;;
  store Target 0 (F32.to_u16 index).

Definition volk_32f_index_min_16u_a_sse (num_points : Z) : M unit :=
  let num_points := if num_points >? USHRT_MAX then USHRT_MAX else num_points in
  let quarterPoints := num_points / 4 in
  let inputPtr := 0%nat in
  let indexIncrementValues := _mm_set1_ps (F32.of_Z 4) in
  let currentIndexes :=
    _mm_set_ps (F32.of_Z (-1)) (F32.of_Z (-2)) (F32.of_Z (-3)) (F32.of_Z (-4)) in
  min <- load Source 0 ;;
  let index := F32.of_Z 0 in
  let minValues := _mm_set1_ps min in
  let minValuesIndex := _mm_setzero_ps in
  '(inputPtr, currentIndexes, minValuesIndex, minValues) <-
    for_loop 0 (Z.to_nat quarterPoints)
      (fun number '(inputPtr, currentIndexes, minValuesIndex, minValues) =>
        currentValues <- _mm_load_ps Source inputPtr ;;
        let inputPtr := (inputPtr + 4)%nat in
        let currentIndexes := _mm_add_ps currentIndexes indexIncrementValues in
        let compareResults := _mm_cmplt_ps currentValues minValues in
        let minValuesIndex :=
          _mm_or_ps (_mm_and_ps compareResults currentIndexes)
                    (_mm_andnot_ps compareResults minValuesIndex) in
        let minValues :=
          _mm_or_ps (_mm_and_ps compareResults currentValues)
                    (_mm_andnot_ps compareResults minValues) in
        ret (inputPtr, currentIndexes, minValuesIndex, minValues))
      (inputPtr, currentIndexes, minValuesIndex, minValues) ;;
  let minValuesBuffer := minValues in
  let minIndexesBuffer := minValuesIndex in
  '(min, index) <- reduce_lanes 4 minValuesBuffer minIndexesBuffer min index ;;
  '(min, index) <- scalar_tail (Z.to_nat (quarterPoints * 4)) (Z.to_nat num_points) min index ;;
  store Target 0 (F32.to_u16 index).

Definition volk_32f_index_min_16u_generic (num_points : Z) : M unit :=
  let num_points := if num_points >? USHRT_MAX then USHRT_MAX else num_points in
  min <- load Source 0 ;;
  let index := 0 in
  '(min, index) <-
    for_loop 1 (Z.to_nat num_points) (fun i '(min, index) =>
      x <- load Source i ;;
      if F32.ltb x min then
        let index := Z.of_nat i mod 65536 in
        min <- load Source i ;;
        ret (min, index)
      else ret (min, index)) (min, index) ;;
  store Target 0 index.

Definition volk_32f_index_min_16u_u_avx (num_points : Z) : M unit :=
  let num_points := if num_points >? USHRT_MAX then USHRT_MAX else num_points in
  let eighthPoints := num_points / 8 in
  let inputPtr := 0%nat in
  let indexIncrementValues := _mm256_set1_ps (F32.of_Z 8) in
  let currentIndexes :=
    _mm256_set_ps (F32.of_Z (-1)) (F32.of_Z (-2)) (F32.of_Z (-3)) (F32.of_Z (-4))
                  (F32.of_Z (-5)) (F32.of_Z (-6)) (F32.of_Z (-7)) (F32.of_Z (-8)) in
  min <- load Source 0 ;;
  let index := F32.of_Z 0 in
  let minValues := _mm256_set1_ps min in
  let minValuesIndex := _mm256_setzero_ps in
  '(inputPtr, currentIndexes, minValuesIndex, minValues) <-
    for_loop 0 (Z.to_nat eighthPoints)
      (fun number '(inputPtr, currentIndexes, minValuesIndex, minValues) =>
        currentValues <- _mm256_loadu_ps Source inputPtr ;;
        let inputPtr := (inputPtr + 8)%nat in
        let currentIndexes := _mm256_add_ps currentIndexes indexIncrementValues in
        let compareResults := _mm256_cmp_ps_LT_OS currentValues minValues in
        let minValuesIndex := _mm256_blendv_ps minValuesIndex currentIndexes compareResults in
        let minValues := _mm256_blendv_ps minValues currentValues compareResults in
        ret (inputPtr, currentIndexes, minValuesIndex, minValues))
      (inputPtr, currentIndexes, minValuesIndex, minValues) ;;
  let minValuesBuffer := minValues in
  let minIndexesBuffer := minValuesIndex in
  '(min, index) <- reduce_lanes 8 minValuesBuffer minIndexesBuffer min index ;;
  '(min, index) <- scalar_tail (Z.to_nat (eighthPoints * 8)) (Z.to_nat num_points) min index ;;
  store Target 0 (F32.to_u16 index).

(** The variants of the kernel. *)
Inductive index_min_variant :=
| IM_generic | IM_a_avx | IM_a_sse4_1 | IM_a_sse | IM_u_avx.

Definition index_min (v : index_min_variant) : Z -> M unit :=
  match v with
  | IM_generic => volk_32f_index_min_16u_generic
  | IM_a_avx => volk_32f_index_min_16u_a_avx
  | IM_a_sse4_1 => volk_32f_index_min_16u_a_sse4_1
  | IM_a_sse => volk_32f_index_min_16u_a_sse
  | IM_u_avx => volk_32f_index_min_16u_u_avx
  end.

(** A store whose [Source] buffer starts with the floats of [l]
    (followed by [rest]) and whose other buffers hold [other]. *)
Definition buffer_of (l : list Z) (rest : nat -> Z) : nat -> Z :=
  fun i => nth i l (rest i).

Definition source_state (l : list Z) : state :=
  mkState (fun b i => match b with Source => buffer_of l (fun _ => 0) i | _ => 0 end) [].

(** The index a variant leaves in [target[0]]. *)
Definition index_min_result (v : index_min_variant) (num_points : Z) (st : state) : Z :=
  mem (exec (index_min v num_points) st) Target 0%nat.

Definition floats (l : list Z) : list Z := map F32.of_Z l.

(** ** volk_32fc_x2_s32f_square_dist_scalar_mult_32f

    [target] is the buffer [Target] (floats); [src0] and [points] are the
    buffers [Src0] and [Points] of complex floats: the complex element [k]
    occupies the words [2k] (real part) and [2k+1] (imaginary part).
    Pointers are element offsets from the caller's pointer. *)

Definition lv_32fc_t : Type := Z * Z.
Definition lv_creal (c : lv_32fc_t) : Z := fst c.
Definition lv_cimag (c : lv_32fc_t) : Z := snd c.
Definition complex_sub (a b : lv_32fc_t) : lv_32fc_t :=
  (F32.sub (lv_creal a) (lv_creal b), F32.sub (lv_cimag a) (lv_cimag b)).

Definition load_complex (b : buffer) (k : nat) : M lv_32fc_t :=
  re <- load b (2 * k) ;; im <- load b (2 * k + 1) ;; ret (re, im).

Definition uint32 (z : Z) : Z := z mod 4294967296.

(** The ways a compiler may evaluate the scalar expression
    [scalar * (re * re + im * im)]: every operation rounded on its own, or
    one of the two products fused with the addition. *)
Inductive contraction := Separate | FuseRe | FuseIm.

Definition scaled_norm (fp_contract : contraction) (scalar re im : Z) : Z :=
  match fp_contract with
  | Separate => F32.mul scalar (F32.add (F32.mul re re) (F32.mul im im))
  | FuseRe => F32.mul scalar (F32.fma re re (F32.mul im im))
  | FuseIm => F32.mul scalar (F32.fma im im (F32.mul re re))
  end.

Definition calculate_scaled_distances (fp_contract : contraction) (target : nat)
  (symbol : lv_32fc_t) (points : nat) (scalar : Z) (num_points : Z) : M unit :=
  for_loop 0 (Z.to_nat num_points) (fun i '(target, points) =>
    p <- load_complex Points points ;;
    let diff := complex_sub symbol p in
    store Target target (scaled_norm fp_contract scalar (lv_creal diff) (lv_cimag diff)) ;;;
    ret (Datatypes.S target, Datatypes.S points)) (target, points) ;;;
  ret tt.

Definition volk_32fc_x2_s32f_square_dist_scalar_mult_32f_a_avx2
  (fp_contract : contraction) (scalar : Z) (num_points : Z) : M unit :=
  let target := 0%nat in
  let points := 0%nat in
  let num_bytes := uint32 (num_points * 8) in
  let bound := Z.shiftr num_bytes 6 in
  let leftovers0 := Z.land (Z.shiftr num_bytes 5) 1 in
  let leftovers1 := Z.land (Z.shiftr num_bytes 4) 1 in
  let leftovers2 := Z.land (Z.shiftr num_bytes 3) 1 in
  let idx := _mm256_set_epi32 7 6 3 2 5 4 1 0 in
  let xmm1 := _mm256_setzero_ps in
  xmm2 <- _mm256_load_ps Points (2 * (points + 0)) ;;
  let xmm8 := _mm256_set1_ps scalar in
  let xmm11 := _mm256_extractf128_ps xmm8 1 in
  xmm0 <- _mm_load_ps Src0 0 ;;
  let xmm0 := _mm_permute_ps xmm0 68 in
  let xmm1 := _mm256_insertf128_ps xmm1 xmm0 0 in
  let xmm1 := _mm256_insertf128_ps xmm1 xmm0 1 in
  xmm3 <- _mm256_load_ps Points (2 * (points + 4)) ;;
  '(target, points, xmm2, xmm3) <-
    for_loop 0 (Z.to_nat bound) (fun i '(target, points, xmm2, xmm3) =>
      let xmm4 := _mm256_sub_ps xmm1 xmm2 in
      let xmm5 := _mm256_sub_ps xmm1 xmm3 in
      let points := (points + 8)%nat in
      let xmm6 := _mm256_mul_ps xmm4 xmm4 in
      let xmm7 := _mm256_mul_ps xmm5 xmm5 in
      xmm2 <- _mm256_load_ps Points (2 * (points + 0)) ;;
      let xmm4 := _mm256_hadd_ps xmm6 xmm7 in
      let xmm4 := _mm256_permutevar8x32_ps xmm4 idx in
      xmm3 <- _mm256_load_ps Points (2 * (points + 4)) ;;
      let xmm4 := _mm256_mul_ps xmm4 xmm8 in
      _mm256_store_ps Target target xmm4 ;;;
      let target := (target + 8)%nat in
      ret (target, points, xmm2, xmm3)) (target, points, xmm2, xmm3) ;;
  '(target, points) <-
    for_loop 0 (Z.to_nat leftovers0) (fun i '(target, points) =>
      xmm2 <- _mm256_load_ps Points (2 * (points + 0)) ;;
      let xmm4 := _mm256_sub_ps xmm1 xmm2 in
      let points := (points + 4)%nat in
      let xmm6 := _mm256_mul_ps xmm4 xmm4 in
      let xmm4 := _mm256_hadd_ps xmm6 xmm6 in
      let xmm4 := _mm256_permutevar8x32_ps xmm4 idx in
      let xmm4 := _mm256_mul_ps xmm4 xmm8 in
      let xmm9 := _mm256_extractf128_ps xmm4 1 in
      _mm_store_ps Target target xmm9 ;;;
      let target := (target + 4)%nat in
      ret (target, points)) (target, points) ;;
  '(target, points) <-
    for_loop 0 (Z.to_nat leftovers1) (fun i '(target, points) =>
      xmm9 <- _mm_load_ps Points (2 * (points + 0)) ;;
      let xmm10 := _mm_sub_ps xmm0 xmm9 in
      let points := (points + 2)%nat in
      let xmm9 := _mm_mul_ps xmm10 xmm10 in
      let xmm10 := _mm_hadd_ps xmm9 xmm9 in
      let xmm10 := _mm_mul_ps xmm10 xmm11 in
      _mm_storeh_pi Target target xmm10 ;;;
      let target := (target + 2)%nat in
      ret (target, points)) (target, points) ;;
  symbol <- load_complex Src0 0 ;;
  calculate_scaled_distances fp_contract target symbol points scalar leftovers2.

Definition volk_32fc_x2_s32f_square_dist_scalar_mult_32f_a_avx
  (fp_contract : contraction) (scalar : Z) (num_points : Z) : M unit :=
  let target := 0%nat in
  let points := 0%nat in
  let work_size := 8 in
  let avx_work_size := uint32 (num_points / work_size * work_size) in
  '(target, points) <-
    for_loop 0 (Z.to_nat (avx_work_size / work_size)) (fun k '(target, points) =>
      src <- load_complex Src0 0 ;;
      let src_real := lv_creal src in
      let src_imag := lv_cimag src in
      let source := _mm256_setr_ps src_real src_imag src_real src_imag
                                   src_real src_imag src_real src_imag in
      points_low <- _mm256_load_ps Points (2 * points) ;;
      points_high <- _mm256_load_ps Points (2 * (points + Z.to_nat (work_size / 2))) ;;
      let difference_low := _mm256_sub_ps source points_low in
      let difference_high := _mm256_sub_ps source points_high in
      let difference_low := _mm256_mul_ps difference_low difference_low in
      let difference_high := _mm256_mul_ps difference_high difference_high in
      let magnitudes_squared := _mm256_hadd_ps difference_low difference_high in
      let lower_magnitudes_squared_bottom := _mm256_extractf128_ps magnitudes_squared 0 in
      let upper_magnitudes_squared_top := _mm256_extractf128_ps magnitudes_squared 1 in
      let lower_magnitudes_squared := _mm256_castps128_ps256 lower_magnitudes_squared_bottom in
      let lower_magnitudes_squared :=
        _mm256_insertf128_ps lower_magnitudes_squared
          (_mm_permute_ps lower_magnitudes_squared_bottom 78) 1 in
      let upper_magnitudes_squared := _mm256_castps128_ps256 upper_magnitudes_squared_top in
      let upper_magnitudes_squared :=
        _mm256_insertf128_ps upper_magnitudes_squared upper_magnitudes_squared_top 1 in
      let upper_magnitudes_squared_top := _mm_permute_ps upper_magnitudes_squared_top 78 in
      let upper_magnitudes_squared :=
        _mm256_insertf128_ps upper_magnitudes_squared upper_magnitudes_squared_top 0 in
      let ordered_magnitudes_squared :=
        _mm256_blend_ps lower_magnitudes_squared upper_magnitudes_squared 204 in
      let scalars := _mm256_set1_ps scalar in
      let output := _mm256_mul_ps ordered_magnitudes_squared scalars in
      _mm256_store_ps Target target output ;;;
      let target := (target + Z.to_nat work_size)%nat in
      let points := (points + Z.to_nat work_size)%nat in
      ret (target, points)) (target, points) ;;
  symbol <- load_complex Src0 0 ;;
  calculate_scaled_distances fp_contract target symbol points scalar
    (uint32 (num_points - avx_work_size)).

Definition volk_32fc_x2_s32f_square_dist_scalar_mult_32f_a_sse3
  (fp_contract : contraction) (scalar : Z) (num_points : Z) : M unit :=
  let target := 0%nat in
  let points := 0%nat in
  let num_bytes := uint32 (num_points * 8) in
  let bound := Z.shiftr num_bytes 5 in
  let leftovers0 := Z.land (Z.shiftr num_bytes 4) 1 in
  let leftovers1 := Z.land (Z.shiftr num_bytes 3) 1 in
  let xmm1 := _mm_setzero_ps in
  xmm1 <- _mm_loadl_pi xmm1 Src0 0 ;;
  xmm2 <- _mm_load_ps Points (2 * (points + 0)) ;;
  let xmm8 := _mm_load1_ps scalar in
  let xmm1 := _mm_movelh_ps xmm1 xmm1 in
  xmm3 <- _mm_load_ps Points (2 * (points + 2)) ;;
  '(target, points, xmm2, xmm3) <-
    for_loop 0 (Z.to_nat (bound - 1)) (fun i '(target, points, xmm2, xmm3) =>
      let xmm4 := _mm_sub_ps xmm1 xmm2 in
      let xmm5 := _mm_sub_ps xmm1 xmm3 in
      let points := (points + 4)%nat in
      let xmm6 := _mm_mul_ps xmm4 xmm4 in
      let xmm7 := _mm_mul_ps xmm5 xmm5 in
      xmm2 <- _mm_load_ps Points (2 * (points + 0)) ;;
      let xmm4 := _mm_hadd_ps xmm6 xmm7 in
      xmm3 <- _mm_load_ps Points (2 * (points + 2)) ;;
      let xmm4 := _mm_mul_ps xmm4 xmm8 in
      _mm_store_ps Target target xmm4 ;;;
      let target := (target + 4)%nat in
      ret (target, points, xmm2, xmm3)) (target, points, xmm2, xmm3) ;;
  let xmm4 := _mm_sub_ps xmm1 xmm2 in
  let xmm5 := _mm_sub_ps xmm1 xmm3 in
  let points := (points + 4)%nat in
  let xmm6 := _mm_mul_ps xmm4 xmm4 in
  let xmm7 := _mm_mul_ps xmm5 xmm5 in
  let xmm4 := _mm_hadd_ps xmm6 xmm7 in
  let xmm4 := _mm_mul_ps xmm4 xmm8 in
  _mm_store_ps Target target xmm4 ;;;
  let target := (target + 4)%nat in
  '(target, points) <-
    for_loop 0 (Z.to_nat leftovers0) (fun i '(target, points) =>
      xmm2 <- _mm_load_ps Points (2 * (points + 0)) ;;
      let xmm4 := _mm_sub_ps xmm1 xmm2 in
      let points := (points + 2)%nat in
      let xmm6 := _mm_mul_ps xmm4 xmm4 in
      let xmm4 := _mm_hadd_ps xmm6 xmm6 in
      let xmm4 := _mm_mul_ps xmm4 xmm8 in
      _mm_storeh_pi Target target xmm4 ;;;
      let target := (target + 2)%nat in
      ret (target, points)) (target, points) ;;
  symbol <- load_complex Src0 0 ;;
  calculate_scaled_distances fp_contract target symbol points scalar leftovers1.

Definition volk_32fc_x2_s32f_square_dist_scalar_mult_32f_generic
  (fp_contract : contraction) (scalar : Z) (num_points : Z) : M unit :=
  symbol <- load_complex Src0 0 ;;
  calculate_scaled_distances fp_contract 0 symbol 0 scalar num_points.

Definition volk_32fc_x2_s32f_square_dist_scalar_mult_32f_u_avx2
  (fp_contract : contraction) (scalar : Z) (num_points : Z) : M unit :=
  let target := 0%nat in
  let points := 0%nat in
  let num_bytes := uint32 (num_points * 8) in
  let bound := Z.shiftr num_bytes 6 in
  let leftovers0 := Z.land (Z.shiftr num_bytes 5) 1 in
  let leftovers1 := Z.land (Z.shiftr num_bytes 3) 3 in
  let idx := _mm256_set_epi32 7 6 3 2 5 4 1 0 in
  let xmm1 := _mm256_setzero_ps in
  xmm2 <- _mm256_loadu_ps Points (2 * (points + 0)) ;;
  let xmm8 := _mm256_set1_ps scalar in
  xmm0 <- _mm_loadu_ps Src0 0 ;;
  let xmm0 := _mm_permute_ps xmm0 68 in
  let xmm1 := _mm256_insertf128_ps xmm1 xmm0 0 in
  let xmm1 := _mm256_insertf128_ps xmm1 xmm0 1 in
  xmm3 <- _mm256_loadu_ps Points (2 * (points + 4)) ;;
  '(target, points, xmm2, xmm3) <-
    for_loop 0 (Z.to_nat bound) (fun i '(target, points, xmm2, xmm3) =>
      let xmm4 := _mm256_sub_ps xmm1 xmm2 in
      let xmm5 := _mm256_sub_ps xmm1 xmm3 in
      let points := (points + 8)%nat in
      let xmm6 := _mm256_mul_ps xmm4 xmm4 in
      let xmm7 := _mm256_mul_ps xmm5 xmm5 in
      xmm2 <- _mm256_loadu_ps Points (2 * (points + 0)) ;;
      let xmm4 := _mm256_hadd_ps xmm6 xmm7 in
      let xmm4 := _mm256_permutevar8x32_ps xmm4 idx in
      xmm3 <- _mm256_loadu_ps Points (2 * (points + 4)) ;;
      let xmm4 := _mm256_mul_ps xmm4 xmm8 in
      _mm256_storeu_ps Target target xmm4 ;;;
      let target := (target + 8)%nat in
      ret (target, points, xmm2, xmm3)) (target, points, xmm2, xmm3) ;;
  '(target, points) <-
    for_loop 0 (Z.to_nat leftovers0) (fun i '(target, points) =>
      xmm2 <- _mm256_loadu_ps Points (2 * (points + 0)) ;;
      let xmm4 := _mm256_sub_ps xmm1 xmm2 in
      let points := (points + 4)%nat in
      let xmm6 := _mm256_mul_ps xmm4 xmm4 in
      let xmm4 := _mm256_hadd_ps xmm6 xmm6 in
      let xmm4 := _mm256_permutevar8x32_ps xmm4 idx in
      let xmm4 := _mm256_mul_ps xmm4 xmm8 in
      let xmm9 := _mm256_extractf128_ps xmm4 1 in
      _mm_storeu_ps Target target xmm9 ;;;
      let target := (target + 4)%nat in
      ret (target, points)) (target, points) ;;
  symbol <- load_complex Src0 0 ;;
  calculate_scaled_distances fp_contract target symbol points scalar leftovers1.

Inductive square_dist_variant :=
| SD_generic | SD_a_avx2 | SD_a_avx | SD_a_sse3 | SD_u_avx2.

Definition square_dist (v : square_dist_variant) : contraction -> Z -> Z -> M unit :=
  match v with
  | SD_generic => volk_32fc_x2_s32f_square_dist_scalar_mult_32f_generic
  | SD_a_avx2 => volk_32fc_x2_s32f_square_dist_scalar_mult_32f_a_avx2
  | SD_a_avx => volk_32fc_x2_s32f_square_dist_scalar_mult_32f_a_avx
  | SD_a_sse3 => volk_32fc_x2_s32f_square_dist_scalar_mult_32f_a_sse3
  | SD_u_avx2 => volk_32fc_x2_s32f_square_dist_scalar_mult_32f_u_avx2
  end.

(* ================================================================== *)
(** * Specifications, invariants and proof devices *)
(* ================================================================== *)

Inductive decode_shape (a : Z) : spec_float -> Prop :=
| ds_zero : F32.expo_of a = 0 -> F32.frac_of a = 0 ->
            decode_shape a (S754_zero (F32.sign_of a))
| ds_sub m : F32.expo_of a = 0 -> F32.frac_of a = Zpos m ->
            decode_shape a (S754_finite (F32.sign_of a) m (-149))
| ds_inf : F32.expo_of a = 255 -> F32.frac_of a = 0 ->
            decode_shape a (S754_infinity (F32.sign_of a))
| ds_nan : F32.expo_of a = 255 -> 0 < F32.frac_of a ->
            decode_shape a S754_nan
| ds_norm m : 0 < F32.expo_of a < 255 -> Zpos m = F32.frac_of a + 8388608 ->
            decode_shape a (S754_finite (F32.sign_of a) m (F32.expo_of a - 150)).

Fixpoint check_range (f : Z -> bool) (lo : Z) (n : nat) : bool :=
  match n with
  | O => true
  | S n' => if f lo then check_range f (lo + 1) n' else false
  end.

Definition index_float_ok (i : Z) : bool :=
  let x := F32.of_Z i in
  (0 <=? x) && (x <? 4294967296) && negb (F32.is_nan x)
  && (F32.key x <? F32.key (F32.of_Z (i + 1)))
  && (F32.trunc x =? i)
  && (F32.add (F32.of_Z (i - 8)) (F32.of_Z 8) =? x)
  && (F32.add (F32.of_Z (i - 4)) (F32.of_Z 4) =? x).

Definition first_min (src : nat -> Z) (D : nat -> Prop) (r : nat) : Prop :=
  (r = 0%nat \/ (D r /\ F32.ltb (src r) (src 0%nat) = true)) /\
  (forall j, D j -> F32.ltb (src j) (src r) = false) /\
  (forall j, D j -> (j < r)%nat -> F32.eqb (src j) (src r) = false).

(** Merging two candidates the way the lane reduction does. *)
Definition merge_index (src : nat -> Z) (r rl : nat) : nat :=
  if F32.ltb (src rl) (src r) then rl
  else if F32.eqb (src rl) (src r) then (if (rl <? r)%nat then rl else r)
  else r.

Definition simd_body (W : nat) (sel : vec -> vec -> vec -> vec)
  (number : nat) (s : nat * vec * vec * vec) : M (nat * vec * vec * vec) :=
  let '(inputPtr, currentIndexes, minValuesIndex, minValues) := s in
  currentValues <- load_words Source inputPtr W ;;
  let inputPtr := (inputPtr + W)%nat in
  let currentIndexes := vzip F32.add currentIndexes (repeat (F32.of_Z (Z.of_nat W)) W) in
  let compareResults := vzip cmplt_lane currentValues minValues in
  let minValuesIndex := sel minValuesIndex currentIndexes compareResults in
  let minValues := sel minValues currentValues compareResults in
  ret (inputPtr, currentIndexes, minValuesIndex, minValues).

Definition index_min_simd (W : nat) (sel : vec -> vec -> vec -> vec) (num_points : Z) : M unit :=
  let num_points := if num_points >? USHRT_MAX then USHRT_MAX else num_points in
  let lanePoints := num_points / Z.of_nat W in
  let currentIndexes := map (fun l => F32.of_Z (Z.of_nat l - Z.of_nat W)) (seq 0 W) in
  min <- load Source 0 ;;
  let index := F32.of_Z 0 in
  let minValues := repeat min W in
  let minValuesIndex := repeat 0 W in
  '(inputPtr, currentIndexes, minValuesIndex, minValues) <-
    for_loop 0 (Z.to_nat lanePoints) (simd_body W sel)
      (0%nat, currentIndexes, minValuesIndex, minValues) ;;
  '(min, index) <- reduce_lanes W minValues minValuesIndex min index ;;
  '(min, index) <- scalar_tail (Z.to_nat (lanePoints * Z.of_nat W)) (Z.to_nat num_points) min index ;;
  store Target 0 (F32.to_u16 index).

Definition sel_blendv (a b m : vec) : vec := vzip3 blendv_lane a b m.
Definition sel_bitwise (a b m : vec) : vec :=
  _mm_or_ps (_mm_and_ps m b) (_mm_andnot_ps m a).

Definition extends (P : event -> Prop) (st0 st : state) : Prop :=
  exists evs, trace st = evs ++ trace st0 /\ Forall P evs.

Definition sameval (a b : Z) : Prop :=
  F32.is_nan a = F32.is_nan b /\ F32.key a = F32.key b.

Definition word32 (x : Z) : Prop := 0 <= x < 4294967296.
Definition float_buffer (src : nat -> Z) : Prop := forall i, word32 (src i).

Definition sel_ok (W : nat) (sel : vec -> vec -> vec -> vec) : Prop :=
  forall a b m, length a = W -> length b = W -> length m = W ->
  (forall l, (l < W)%nat ->
     word32 (lane a l) /\ word32 (lane b l) /\ (lane m l = 0 \/ lane m l = all_ones)) ->
  length (sel a b m) = W /\
  forall l, (l < W)%nat ->
    lane (sel a b m) l = if Z.testbit (lane m l) 31 then lane b l else lane a l.

Definition src_read (n : nat) (e : event) : Prop :=
  exists i, e = Rd Source i /\ (i < n)%nat.

Definition lane_dom (W l k : nat) (j : nat) : Prop :=
  exists t, (t < k)%nat /\ j = (W * t + l)%nat.

Definition vec_inv (W : nat) (st0 : state) (n : nat) (k : nat)
  (s : nat * vec * vec * vec) (st : state) : Prop :=
  let '(p, ci, mvi, mv) := s in
  p = (W * k)%nat /\ length ci = W /\ length mvi = W /\ length mv = W /\
  (forall l, (l < W)%nat -> lane ci l = F32.of_Z (Z.of_nat (W * k + l) - Z.of_nat W)) /\
  (forall l, (l < W)%nat -> exists r,
     lane mv l = mem st0 Source r /\ lane mvi l = F32.of_Z (Z.of_nat r) /\
     (r = 0 \/ r < W * k)%nat /\ first_min (mem st0 Source) (lane_dom W l k) r) /\
  mem st = mem st0 /\ extends (src_read n) st0 st.

(** The lanes already reduced: lanes below [l], over [q] vector iterations. *)
Definition lanes_dom (W q l : nat) (j : nat) : Prop :=
  exists t l', (t < q)%nat /\ (l' < l)%nat /\ j = (W * t + l')%nat.

Definition lanes_ok (W : nat) (src : nat -> Z) (q : nat) (mv mvi : vec) : Prop :=
  forall l, (l < W)%nat -> exists r,
    lane mv l = src r /\ lane mvi l = F32.of_Z (Z.of_nat r) /\
    (r = 0 \/ r < W * q)%nat /\ first_min src (lane_dom W l q) r.

Definition red_inv (W : nat) (src : nat -> Z) (q : nat) (st1 : state) (l : nat)
  (s : Z * Z) (st : state) : Prop :=
  let '(min, index) := s in
  exists r, sameval min (src r) /\ index = F32.of_Z (Z.of_nat r) /\
    (r = 0 \/ r < W * q)%nat /\ first_min src (lanes_dom W q l) r /\ st = st1.

Definition tail_inv (st0 : state) (n : nat) (i : nat) (s : Z * Z) (st : state) : Prop :=
  let '(min, index) := s in
  exists r, sameval min (mem st0 Source r) /\ index = F32.of_Z (Z.of_nat r) /\
    (r = 0 \/ r < i)%nat /\ first_min (mem st0 Source) (fun j => (j < i)%nat) r /\
    mem st = mem st0 /\ extends (src_read n) st0 st.

Definition clamp (num_points : Z) : nat := Z.to_nat (Z.min num_points USHRT_MAX).

Definition index_min_post (st0 : state) (n : nat) (st : state) : Prop :=
  exists r evs, (r < n)%nat /\
    first_min (mem st0 Source) (fun j => (j < n)%nat) r /\
    mem st = upd (mem st0) Target 0%nat (Z.of_nat r) /\
    trace st = Wr Target 0%nat :: evs ++ trace st0 /\
    Forall (src_read n) evs.

Definition gen_inv (st0 : state) (n : nat) (i : nat) (s : Z * Z) (st : state) : Prop :=
  let '(min, index) := s in
  exists r, min = mem st0 Source r /\ index = Z.of_nat r /\ (r < i)%nat /\
    first_min (mem st0 Source) (fun j => (j < i)%nat) r /\
    mem st = mem st0 /\ extends (src_read n) st0 st.

(** ** Trace triples: every event a computation emits satisfies [P], and its
    result satisfies [Q]. *)
Definition tr {A} (P : event -> Prop) (c : M A) (Q : A -> Prop) : Prop :=
  forall st0 st, extends P st0 st ->
    Q (fst (c st)) /\ extends P st0 (snd (c st)).

(** Accesses of a square-distance kernel that stay inside the caller's
    [num_points] elements: [points] and [target] below [num_points], [src0]
    its single element. *)
Definition sd_in_bounds (num_points : Z) (e : event) : Prop :=
  match e with
  | Rd Points w => Z.of_nat w < 2 * num_points
  | Rd Src0 w => (w < 2)%nat
  | Wr Target i => Z.of_nat i < num_points
  | _ => False
  end.

Section PopcntPuppet.

(** Modelled from the spec: [volk_32u_popcnt.h], which defines the wrapped
    single-word kernels [volk_32u_popcnt_e2k] and [volk_32u_popcnt_a_sse4_2],
    is not among the sources.  Each wrapped kernel stores one word through
    [ret], computed from [value] alone; the word it computes is a parameter. *)
Variable popcnt_e2k : Z -> Z.
Variable popcnt_a_sse4_2 : Z -> Z.

Definition volk_32u_popcnt_e2k (ret_ : nat) (value : Z) : M unit :=
  store OutVector ret_ (popcnt_e2k value).

Definition volk_32u_popcnt_a_sse4_2 (ret_ : nat) (value : Z) : M unit :=
  store OutVector ret_ (popcnt_a_sse4_2 value).

Definition volk_32u_popcntpuppet_32u_e2k (num_points : Z) : M unit :=
  for_loop 0 (Z.to_nat num_points) (fun ii (_ : unit) =>
    value <- load InVector ii ;;
    volk_32u_popcnt_e2k ii value) tt.

Definition volk_32u_popcntpuppet_32u_a_sse4_2 (num_points : Z) : M unit :=
  for_loop 0 (Z.to_nat num_points) (fun ii (_ : unit) =>
    value <- load InVector ii ;;
    volk_32u_popcnt_a_sse4_2 ii value) tt.

End PopcntPuppet.


(** What a puppet leaves behind after [n] iterations over the store [st0]. *)
Definition puppet_post (f : Z -> Z) (st0 : state) (n : nat) (st : state) : Prop :=
  (forall i, (i < n)%nat -> mem st OutVector i = f (mem st0 InVector i)) /\
  (forall i, (n <= i)%nat -> mem st OutVector i = mem st0 OutVector i) /\
  (forall b i, b <> OutVector -> mem st b i = mem st0 b i) /\
  trace st = rev (flat_map (fun i => [Rd InVector i; Wr OutVector i]) (seq 0 n)) ++ trace st0.

(** ** Buffers a computation leaves alone *)
Definition preserves {A} (b : buffer) (c : M A) : Prop :=
  forall st i, mem (snd (c st)) b i = mem st b i.

(** The scaled squared distance of one point, as the scalar code computes it. *)
Definition sd_value (scalar : Z) (symbol point : lv_32fc_t) : Z :=
  let diff := complex_sub symbol point in
  F32.mul scalar (F32.add (F32.mul (lv_creal diff) (lv_creal diff))
                          (F32.mul (lv_cimag diff) (lv_cimag diff))).

Definition complex_at (m : memory) (b : buffer) (k : nat) : lv_32fc_t :=
  (m b (2 * k)%nat, m b (2 * k + 1)%nat).

(** The store once the points [p, p+n) have been processed into
    [target[t .. t+n)]. *)
Definition sd_done (scalar : Z) (m0 : memory) (t p n : nat) : memory :=
  fun b i =>
    if buffer_eqb Target b && (t <=? i)%nat && (i <? t + n)%nat
    then sd_value scalar (complex_at m0 Src0 0) (complex_at m0 Points (p + (i - t)))
    else m0 b i.

(** The value the scalar loop stores for one point. *)
Definition sd_value_fc (fp : contraction) (scalar : Z) (symbol point : lv_32fc_t) : Z :=
  let diff := complex_sub symbol point in
  scaled_norm fp scalar (lv_creal diff) (lv_cimag diff).

(** The store once the points [0, nv) have been processed by vector
    instructions and the points [nv, nv + ns) by the scalar loop. *)
Definition sd_tail (fp : contraction) (scalar : Z) (m0 : memory) (nv ns : nat) : memory :=
  fun b i =>
    if buffer_eqb Target b && (nv <=? i)%nat && (i <? nv + ns)%nat
    then sd_value_fc fp scalar (complex_at m0 Src0 0) (complex_at m0 Points i)
    else sd_done scalar m0 0 0 nv b i.

Definition words (m : memory) (b : buffer) (p n : nat) : vec :=
  map (fun l => m b (p + l)%nat) (seq 0 n).

Definition bcast8 (s : lv_32fc_t) : vec :=
  [fst s; snd s; fst s; snd s; fst s; snd s; fst s; snd s].
Definition bcast4 (s : lv_32fc_t) : vec := [fst s; snd s; fst s; snd s].

(** The loop bodies of the AVX2 kernels. *)
Definition avx2_main_body (xmm1 xmm8 idx : vec) (i : nat) (s : nat * nat * vec * vec)
  : M (nat * nat * vec * vec) :=
  let '(target, points, xmm2, xmm3) := s in
  let xmm4 := _mm256_sub_ps xmm1 xmm2 in
  let xmm5 := _mm256_sub_ps xmm1 xmm3 in
  let points := (points + 8)%nat in
  let xmm6 := _mm256_mul_ps xmm4 xmm4 in
  let xmm7 := _mm256_mul_ps xmm5 xmm5 in
  xmm2 <- _mm256_load_ps Points (2 * (points + 0)) ;;
  let xmm4 := _mm256_hadd_ps xmm6 xmm7 in
  let xmm4 := _mm256_permutevar8x32_ps xmm4 idx in
  xmm3 <- _mm256_load_ps Points (2 * (points + 4)) ;;
  let xmm4 := _mm256_mul_ps xmm4 xmm8 in
  _mm256_store_ps Target target xmm4 ;;;
  let target := (target + 8)%nat in
  ret (target, points, xmm2, xmm3).

Definition avx2_left0_body (xmm1 xmm8 idx : vec) (i : nat) (s : nat * nat) : M (nat * nat) :=
  let '(target, points) := s in
  xmm2 <- _mm256_load_ps Points (2 * (points + 0)) ;;
  let xmm4 := _mm256_sub_ps xmm1 xmm2 in
  let points := (points + 4)%nat in
  let xmm6 := _mm256_mul_ps xmm4 xmm4 in
  let xmm4 := _mm256_hadd_ps xmm6 xmm6 in
  let xmm4 := _mm256_permutevar8x32_ps xmm4 idx in
  let xmm4 := _mm256_mul_ps xmm4 xmm8 in
  let xmm9 := _mm256_extractf128_ps xmm4 1 in
  _mm_store_ps Target target xmm9 ;;;
  let target := (target + 4)%nat in
  ret (target, points).

Definition avx2_left1_body (xmm0 xmm11 : vec) (i : nat) (s : nat * nat) : M (nat * nat) :=
  let '(target, points) := s in
  xmm9 <- _mm_load_ps Points (2 * (points + 0)) ;;
  let xmm10 := _mm_sub_ps xmm0 xmm9 in
  let points := (points + 2)%nat in
  let xmm9 := _mm_mul_ps xmm10 xmm10 in
  let xmm10 := _mm_hadd_ps xmm9 xmm9 in
  let xmm10 := _mm_mul_ps xmm10 xmm11 in
  _mm_storeh_pi Target target xmm10 ;;;
  let target := (target + 2)%nat in
  ret (target, points).

Definition avx2_idx : vec := _mm256_set_epi32 7 6 3 2 5 4 1 0.

Definition main_inv (scalar : Z) (m0 : memory) (k : nat) (s : nat * nat * vec * vec)
  (st : state) : Prop :=
  let '(t, p, x2, x3) := s in
  t = (8 * k)%nat /\ p = (8 * k)%nat /\
  x2 = words m0 Points (2 * (8 * k)) 8 /\ x3 = words m0 Points (2 * (8 * k + 4)) 8 /\
  forall b i, mem st b i = sd_done scalar m0 0 0 (8 * k) b i.

(** Blocks of [w] points appended after [n0] processed points. *)
Definition block_inv (scalar : Z) (m0 : memory) (n0 w : nat) (k : nat) (s : nat * nat)
  (st : state) : Prop :=
  s = ((n0 + w * k)%nat, (n0 + w * k)%nat) /\
  forall b i, mem st b i = sd_done scalar m0 0 0 (n0 + w * k) b i.

(** The part the two AVX2 kernels share: the preloads, the 8-point loop and
    the 4-point step.  [suffix] is what follows. *)
Definition avx2_shape (suffix : Z -> vec -> nat -> nat -> M unit)
  (scalar : Z) (num_points : Z) : M unit :=
  let num_bytes := uint32 (num_points * 8) in
  let bound := Z.shiftr num_bytes 6 in
  let leftovers0 := Z.land (Z.shiftr num_bytes 5) 1 in
  let xmm1 := _mm256_setzero_ps in
  xmm2 <- _mm256_load_ps Points (2 * (0 + 0)) ;;
  let xmm8 := _mm256_set1_ps scalar in
  xmm0 <- _mm_load_ps Src0 0 ;;
  let xmm0 := _mm_permute_ps xmm0 68 in
  let xmm1 := _mm256_insertf128_ps xmm1 xmm0 0 in
  let xmm1 := _mm256_insertf128_ps xmm1 xmm0 1 in
  xmm3 <- _mm256_load_ps Points (2 * (0 + 4)) ;;
  '(target, points, xmm2, xmm3) <-
    for_loop 0 (Z.to_nat bound) (avx2_main_body xmm1 xmm8 avx2_idx)
      (0%nat, 0%nat, xmm2, xmm3) ;;
  '(target, points) <-
    for_loop 0 (Z.to_nat leftovers0) (avx2_left0_body xmm1 xmm8 avx2_idx) (target, points) ;;
  suffix num_bytes xmm0 target points.

Definition a_avx2_suffix (fp : contraction) (scalar : Z) (num_bytes : Z) (xmm0 : vec) (target points : nat)
  : M unit :=
  let leftovers1 := Z.land (Z.shiftr num_bytes 4) 1 in
  let leftovers2 := Z.land (Z.shiftr num_bytes 3) 1 in
  let xmm11 := _mm256_extractf128_ps (_mm256_set1_ps scalar) 1 in
  '(target, points) <-
    for_loop 0 (Z.to_nat leftovers1) (avx2_left1_body xmm0 xmm11) (target, points) ;;
  symbol <- load_complex Src0 0 ;;
  calculate_scaled_distances fp target symbol points scalar leftovers2.

Definition u_avx2_suffix (fp : contraction) (scalar : Z) (num_bytes : Z) (xmm0 : vec) (target points : nat)
  : M unit :=
  let leftovers1 := Z.land (Z.shiftr num_bytes 3) 3 in
  symbol <- load_complex Src0 0 ;;
  calculate_scaled_distances fp target symbol points scalar leftovers1.

(** The points a kernel processes by vector instructions, and the points it
    leaves to the scalar loop. *)
Definition a_avx2_vector_count (num_points : Z) : nat :=
  let nb := uint32 (num_points * 8) in
  (8 * Z.to_nat (Z.shiftr nb 6) + 4 * Z.to_nat (Z.land (Z.shiftr nb 5) 1)
   + 2 * Z.to_nat (Z.land (Z.shiftr nb 4) 1))%nat.

Definition a_avx2_scalar_count (num_points : Z) : nat :=
  Z.to_nat (Z.land (Z.shiftr (uint32 (num_points * 8)) 3) 1).

Definition u_avx2_vector_count (num_points : Z) : nat :=
  let nb := uint32 (num_points * 8) in
  (8 * Z.to_nat (Z.shiftr nb 6) + 4 * Z.to_nat (Z.land (Z.shiftr nb 5) 1))%nat.

Definition u_avx2_scalar_count (num_points : Z) : nat :=
  Z.to_nat (Z.land (Z.shiftr (uint32 (num_points * 8)) 3) 3).

Definition a_avx_body (scalar : Z) (k : nat) (s : nat * nat) : M (nat * nat) :=
  let '(target, points) := s in
  let work_size := 8 in
  src <- load_complex Src0 0 ;;
  let src_real := lv_creal src in
  let src_imag := lv_cimag src in
  let source := _mm256_setr_ps src_real src_imag src_real src_imag
                               src_real src_imag src_real src_imag in
  points_low <- _mm256_load_ps Points (2 * points) ;;
  points_high <- _mm256_load_ps Points (2 * (points + Z.to_nat (work_size / 2))) ;;
  let difference_low := _mm256_sub_ps source points_low in
  let difference_high := _mm256_sub_ps source points_high in
  let difference_low := _mm256_mul_ps difference_low difference_low in
  let difference_high := _mm256_mul_ps difference_high difference_high in
  let magnitudes_squared := _mm256_hadd_ps difference_low difference_high in
  let lower_magnitudes_squared_bottom := _mm256_extractf128_ps magnitudes_squared 0 in
  let upper_magnitudes_squared_top := _mm256_extractf128_ps magnitudes_squared 1 in
  let lower_magnitudes_squared := _mm256_castps128_ps256 lower_magnitudes_squared_bottom in
  let lower_magnitudes_squared :=
    _mm256_insertf128_ps lower_magnitudes_squared
      (_mm_permute_ps lower_magnitudes_squared_bottom 78) 1 in
  let upper_magnitudes_squared := _mm256_castps128_ps256 upper_magnitudes_squared_top in
  let upper_magnitudes_squared :=
    _mm256_insertf128_ps upper_magnitudes_squared upper_magnitudes_squared_top 1 in
  let upper_magnitudes_squared_top := _mm_permute_ps upper_magnitudes_squared_top 78 in
  let upper_magnitudes_squared :=
    _mm256_insertf128_ps upper_magnitudes_squared upper_magnitudes_squared_top 0 in
  let ordered_magnitudes_squared :=
    _mm256_blend_ps lower_magnitudes_squared upper_magnitudes_squared 204 in
  let scalars := _mm256_set1_ps scalar in
  let output := _mm256_mul_ps ordered_magnitudes_squared scalars in
  _mm256_store_ps Target target output ;;;
  let target := (target + Z.to_nat work_size)%nat in
  let points := (points + Z.to_nat work_size)%nat in
  ret (target, points).

Definition a_avx_shape (fp : contraction) (scalar : Z) (num_points : Z) : M unit :=
  let work_size := 8 in
  let avx_work_size := uint32 (num_points / work_size * work_size) in
  '(target, points) <-
    for_loop 0 (Z.to_nat (avx_work_size / work_size)) (a_avx_body scalar) (0%nat, 0%nat) ;;
  symbol <- load_complex Src0 0 ;;
  calculate_scaled_distances fp target symbol points scalar
    (uint32 (num_points - avx_work_size)).

Definition a_avx_vector_count (num_points : Z) : nat :=
  (0 + 8 * Z.to_nat (uint32 (num_points / 8 * 8) / 8))%nat.

Definition a_avx_scalar_count (num_points : Z) : nat :=
  Z.to_nat (uint32 (num_points - uint32 (num_points / 8 * 8))).

Definition sse3_main_body (xmm1 xmm8 : vec) (i : nat) (s : nat * nat * vec * vec)
  : M (nat * nat * vec * vec) :=
  let '(target, points, xmm2, xmm3) := s in
  let xmm4 := _mm_sub_ps xmm1 xmm2 in
  let xmm5 := _mm_sub_ps xmm1 xmm3 in
  let points := (points + 4)%nat in
  let xmm6 := _mm_mul_ps xmm4 xmm4 in
  let xmm7 := _mm_mul_ps xmm5 xmm5 in
  xmm2 <- _mm_load_ps Points (2 * (points + 0)) ;;
  let xmm4 := _mm_hadd_ps xmm6 xmm7 in
  xmm3 <- _mm_load_ps Points (2 * (points + 2)) ;;
  let xmm4 := _mm_mul_ps xmm4 xmm8 in
  _mm_store_ps Target target xmm4 ;;;
  let target := (target + 4)%nat in
  ret (target, points, xmm2, xmm3).

Definition sse3_left0_body (xmm1 xmm8 : vec) (i : nat) (s : nat * nat) : M (nat * nat) :=
  let '(target, points) := s in
  xmm2 <- _mm_load_ps Points (2 * (points + 0)) ;;
  let xmm4 := _mm_sub_ps xmm1 xmm2 in
  let points := (points + 2)%nat in
  let xmm6 := _mm_mul_ps xmm4 xmm4 in
  let xmm4 := _mm_hadd_ps xmm6 xmm6 in
  let xmm4 := _mm_mul_ps xmm4 xmm8 in
  _mm_storeh_pi Target target xmm4 ;;;
  let target := (target + 2)%nat in
  ret (target, points).

Definition sse3_shape (fp : contraction) (scalar : Z) (num_points : Z) : M unit :=
  let num_bytes := uint32 (num_points * 8) in
  let bound := Z.shiftr num_bytes 5 in
  let leftovers0 := Z.land (Z.shiftr num_bytes 4) 1 in
  let leftovers1 := Z.land (Z.shiftr num_bytes 3) 1 in
  let xmm1 := _mm_setzero_ps in
  xmm1 <- _mm_loadl_pi xmm1 Src0 0 ;;
  xmm2 <- _mm_load_ps Points (2 * (0 + 0)) ;;
  let xmm8 := _mm_load1_ps scalar in
  let xmm1 := _mm_movelh_ps xmm1 xmm1 in
  xmm3 <- _mm_load_ps Points (2 * (0 + 2)) ;;
  '(target, points, xmm2, xmm3) <-
    for_loop 0 (Z.to_nat (bound - 1)) (sse3_main_body xmm1 xmm8) (0%nat, 0%nat, xmm2, xmm3) ;;
  let xmm4 := _mm_sub_ps xmm1 xmm2 in
  let xmm5 := _mm_sub_ps xmm1 xmm3 in
  let points := (points + 4)%nat in
  let xmm6 := _mm_mul_ps xmm4 xmm4 in
  let xmm7 := _mm_mul_ps xmm5 xmm5 in
  let xmm4 := _mm_hadd_ps xmm6 xmm7 in
  let xmm4 := _mm_mul_ps xmm4 xmm8 in
  _mm_store_ps Target target xmm4 ;;;
  let target := (target + 4)%nat in
  '(target, points) <-
    for_loop 0 (Z.to_nat leftovers0) (sse3_left0_body xmm1 xmm8) (target, points) ;;
  symbol <- load_complex Src0 0 ;;
  calculate_scaled_distances fp target symbol points scalar leftovers1.

Definition sse3_inv (scalar : Z) (m0 : memory) (k : nat) (s : nat * nat * vec * vec)
  (st : state) : Prop :=
  let '(t, p, x2, x3) := s in
  t = (4 * k)%nat /\ p = (4 * k)%nat /\
  x2 = words m0 Points (2 * (4 * k)) 4 /\ x3 = words m0 Points (2 * (4 * k + 2)) 4 /\
  forall b i, mem st b i = sd_done scalar m0 0 0 (4 * k) b i.

Definition a_sse3_vector_count (num_points : Z) : nat :=
  let num_bytes := uint32 (num_points * 8) in
  (4 * Z.to_nat (Z.shiftr num_bytes 5 - 1) + 4
   + 2 * Z.to_nat (Z.land (Z.shiftr num_bytes 4) 1))%nat.

Definition a_sse3_scalar_count (num_points : Z) : nat :=
  Z.to_nat (Z.land (Z.shiftr (uint32 (num_points * 8)) 3) 1).

Definition word32b (x : Z) : bool := (0 <=? x) && (x <? 4294967296).

(** The tie-break example of the specification: [5, 2, 2, 7]. *)
Definition tie_example : state := source_state (floats [5; 2; 2; 7]).

(** A store for the square-distance kernels: [src0] and [points] start with
    the given words and continue with [rest]; [target] holds [target0]. *)
Definition sd_state (src0 points : list Z) (rest target0 : nat -> Z) : state :=
  mkState (fun b i => match b with
                      | Src0 => buffer_of src0 rest i
                      | Points => buffer_of points rest i
                      | Target => target0 i
                      | _ => 0
                      end) [].

(** The 16-QAM example of the kernel's documentation. *)
Definition const_vals : list Z := [-3; -1; 1; 3].
Definition constellation_re (ii : nat) : Z := nth (ii mod 4) const_vals 0.
Definition constellation_im (ii : nat) : Z := nth (ii / 4) const_vals 0.
Definition constellation : list Z :=
  flat_map (fun ii => [F32.of_Z (constellation_re ii); F32.of_Z (constellation_im ii)])
           (seq 0 16).
(** [0.5f], [2.f] and [1.f/64.f]. *)
Definition rx_re : Z := 1056964608.
Definition rx_im : Z := 1073741824.
Definition rx : list Z := [rx_re; rx_im].
Definition scale : Z := 1015021568.

Definition expected_distance (ii : nat) : Q :=
  (((1 # 2) - inject_Z (constellation_re ii)) * ((1 # 2) - inject_Z (constellation_re ii))
   + (2 - inject_Z (constellation_im ii)) * (2 - inject_Z (constellation_im ii))) / 64.

Definition within_tolerance (x e : Q) : bool := Qle_bool (Qabs (x - e)) (1 # 100000).

Definition constellation_output (fp : contraction) (v : square_dist_variant)
  (rest target0 : nat -> Z) (ii : nat) : Z :=
  mem (exec (square_dist v fp scale 16) (sd_state rx constellation rest target0)) Target ii.

(** Accesses of an index-of-minimum kernel that stay inside the caller's
    buffers: [source] below [n], [target] at its single element. *)
Definition im_in_bounds (n : Z) (e : event) : Prop :=
  match e with
  | Rd Source i => Z.of_nat i < n
  | Wr Target i => i = 0%nat
  | _ => False
  end.

Definition is_read (e : event) : Prop :=
  match e with Rd _ _ => True | Wr _ _ => False end.

(** A store whose buffers all hold zeros. *)
Definition zero_state : state := mkState (fun _ _ => 0) [].









(** Two float words that denote the same float: the same word, or two NaN
    patterns. *)
Definition same_float (a b : Z) : Prop :=
  a = b \/ (F32.is_nan a = true /\ F32.is_nan b = true).

(** The scaled squared distance of [src0[0]] to [points[i]], the scalar
    expression evaluated under the contraction [fp]. *)
Definition distance (fp : contraction) (scalar : Z) (m : memory) (i : nat) : Z :=
  scaled_norm fp scalar (F32.sub (m Src0 0%nat) (m Points (2 * i)%nat))
                        (F32.sub (m Src0 1%nat) (m Points (2 * i + 1)%nat)).

(** [1.0f]. *)
Definition one : Z := 1065353216.

(** A store on which contraction shows: [src0[0] = (1 + 2^-23, 2^-12)] and
    every point is the origin. *)
Definition fused_state : state :=
  sd_state [1065353217; 964689920] [] (fun _ => 0) (fun _ => 0).

(** The store of the 16-QAM example, with zeros after the buffers. *)
Definition qam_state : state := sd_state rx constellation (fun _ => 0) (fun _ => 0).

(** The store the generic square-distance variant leaves. *)
Definition generic_store (fp : contraction) (scalar num_points : Z) (st : state) : memory :=
  mem (exec (volk_32fc_x2_s32f_square_dist_scalar_mult_32f_generic fp scalar num_points) st).

(** [out] holds, up to NaN patterns, what the generic variant leaves for
    [count] points, except that the first [vector_count] elements of
    [target] are evaluated without contraction, as vector instructions
    evaluate them. *)
Definition matches_generic (fp : contraction) (scalar : Z) (st : state) (out : memory)
  (count vector_count : Z) : Prop :=
  forall b i,
    same_float (out b i)
      (generic_store
         (if buffer_eqb Target b && (Z.of_nat i <? vector_count) then Separate else fp)
         scalar count st b i).

(** A buffer that starts with a NaN: [NaN, 1, -4]. *)
Definition nan_first : state := source_state (2143289344 :: floats [1; -4]).

(** A buffer that agrees with the tie-break example on its first two
    elements only. *)
Definition tie_example_prefix : state := source_state (floats [5; 2; 0; 0]).

(** The tie-break example, every element multiplied by ten. *)
Definition tie_example_scaled : state := source_state (floats [50; 20; 20; 70]).

(** Accesses of an AVX2 square-distance kernel that stay inside buffers
    padded for it: [points] up to the next multiple of eight elements past
    [num_points], [src0] up to two elements, [target] its [num_points]
    elements. *)
Definition avx2_in_bounds (num_points : Z) (e : event) : Prop :=
  match e with
  | Rd Points w => Z.of_nat w < 2 * (8 * (num_points / 8) + 8)
  | Rd Src0 w => (w < 4)%nat
  | Wr Target i => Z.of_nat i < num_points
  | _ => False
  end.

(** What the 8-point loop of the AVX2 kernels has read after [i] rounds. *)
Definition overread_inv (i : nat) (s : nat * nat * vec * vec) (st : state) : Prop :=
  snd (fst (fst s)) = (8 * i)%nat /\
  In (Rd Points (16 * i + 15)%nat) (trace st) /\ In (Rd Src0 3%nat) (trace st).

(* ================================================================== *)
(** * Part II: lemmas and theorems *)
(* ================================================================== *)

Lemma land_255 x : Z.land x 255 = x mod 256.
Proof. change 255 with (Z.ones 8). now rewrite Z.land_ones by lia. Qed.
Lemma land_frac x : Z.land x 8388607 = x mod 8388608.
Proof. change 8388607 with (Z.ones 23). now rewrite Z.land_ones by lia. Qed.
Lemma land_mag x : Z.land x 2147483647 = x mod 2147483648.
Proof. change 2147483647 with (Z.ones 31). now rewrite Z.land_ones by lia. Qed.

Lemma expo_of_range a : 0 <= F32.expo_of a < 256.
Proof. unfold F32.expo_of. rewrite land_255. apply Z.mod_pos_bound. lia. Qed.
Lemma frac_of_range a : 0 <= F32.frac_of a < 8388608.
Proof. unfold F32.frac_of. rewrite land_frac. apply Z.mod_pos_bound. lia. Qed.
Lemma mag_split a :
  Z.land a 2147483647 = F32.expo_of a * 8388608 + F32.frac_of a.
Proof.
  unfold F32.expo_of, F32.frac_of.
  rewrite land_255, land_frac, land_mag, Z.shiftr_div_pow2 by lia.
  change (2 ^ 23) with 8388608.
  Z.div_mod_to_equations. lia.
Qed.

#[local] Arguments F32.expo_of : simpl never.
#[local] Arguments F32.frac_of : simpl never.
#[local] Arguments F32.sign_of : simpl never.

Lemma decode_shape_intro a : decode_shape a (F32.decode a).
Proof.
  unfold F32.decode.
  pose proof (expo_of_range a) as HE. pose proof (frac_of_range a) as HM.
  destruct (Z.eqb_spec (F32.expo_of a) 0) as [E0|E0].
  - destruct (F32.frac_of a) as [|m|m] eqn:HF.
    + now apply ds_zero.
    + now apply ds_sub.
    + lia.
  - destruct (Z.eqb_spec (F32.expo_of a) 255) as [E1|E1].
    + destruct (Z.eqb_spec (F32.frac_of a) 0) as [F0|F0].
      * now apply ds_inf.
      * apply ds_nan; lia.
    + destruct (F32.frac_of a + 8388608) as [|m|m] eqn:HF; try lia.
      apply ds_norm; lia.
Qed.

Lemma is_nan_shape a : F32.is_nan a = true <-> F32.decode a = S754_nan.
Proof.
  unfold F32.is_nan, F32.decode.
  pose proof (frac_of_range a) as HM. pose proof (expo_of_range a) as HE.
  destruct (Z.eqb_spec (F32.expo_of a) 0) as [E0|E0].
  - rewrite E0. cbn [Z.eqb andb]. destruct (F32.frac_of a); split; intro; discriminate.
  - destruct (Z.eqb_spec (F32.expo_of a) 255) as [E1|E1].
    + cbn [andb]. destruct (Z.eqb_spec (F32.frac_of a) 0); cbn [negb]; split; intro;
        try discriminate; reflexivity.
    + cbn [andb]. destruct (F32.frac_of a + 8388608) eqn:HF; split; intro;
        try discriminate; lia.
Qed.

Lemma SFcompare_nan_r x : SFcompare x S754_nan = None.
Proof. now destruct x. Qed.

Lemma compare_key a b :
  F32.compare a b =
  if F32.is_nan a || F32.is_nan b then None else Some (F32.key a ?= F32.key b).
Proof.
  unfold F32.compare.
  destruct (F32.is_nan a) eqn:Na.
  { apply is_nan_shape in Na. now rewrite Na. }
  destruct (F32.is_nan b) eqn:Nb.
  { apply is_nan_shape in Nb. rewrite Nb. cbn [orb]. apply SFcompare_nan_r. }
  cbn [orb]. unfold F32.key. rewrite !mag_split.
  pose proof (decode_shape_intro a) as Ha. pose proof (decode_shape_intro b) as Hb.
  pose proof (expo_of_range a). pose proof (frac_of_range a).
  pose proof (expo_of_range b). pose proof (frac_of_range b).
  assert (Hna : F32.decode a <> S754_nan) by (rewrite <- is_nan_shape; congruence).
  assert (Hnb : F32.decode b <> S754_nan) by (rewrite <- is_nan_shape; congruence).
  destruct Ha as [E1 F1|m1 E1 F1|E1 F1|E1 F1|m1 E1 F1]; try (elim Hna; reflexivity);
  destruct Hb as [E2 F2|m2 E2 F2|E2 F2|E2 F2|m2 E2 F2]; try (elim Hnb; reflexivity).
  all: cbn [SFcompare]; destruct (F32.sign_of a), (F32.sign_of b); f_equal.
  all: try change (Pos.compare_cont Eq m1 m2) with (Z.compare (Zpos m1) (Zpos m2));
  try rewrite E1; try rewrite E2; try rewrite F1; try rewrite F2.
  all: try (timeout 5 (repeat match goal with
    | |- context [Z.compare ?x ?y] => destruct (Z.compare_spec x y)
    end)).
  all: try reflexivity.
  all: cbn [CompOpp].
  all: lia.
Qed.

(** Order facts, all read off the key. *)
Lemma f32_ltb_iff a b :
  F32.ltb a b = true <->
  F32.is_nan a = false /\ F32.is_nan b = false /\ F32.key a < F32.key b.
Proof.
  unfold F32.ltb, SFltb. fold (F32.compare a b). rewrite compare_key.
  destruct (F32.is_nan a), (F32.is_nan b); cbn [orb];
    try (split; [discriminate | intros (?&?&?); discriminate]).
  destruct (Z.compare_spec (F32.key a) (F32.key b)); split; intros; try discriminate;
    repeat split; try reflexivity; try lia.
Qed.

Lemma f32_eqb_iff a b :
  F32.eqb a b = true <->
  F32.is_nan a = false /\ F32.is_nan b = false /\ F32.key a = F32.key b.
Proof.
  unfold F32.eqb, SFeqb. fold (F32.compare a b). rewrite compare_key.
  destruct (F32.is_nan a), (F32.is_nan b); cbn [orb];
    try (split; [discriminate | intros (?&?&?); discriminate]).
  destruct (Z.compare_spec (F32.key a) (F32.key b)); split; intros; try discriminate;
    repeat split; try reflexivity; try lia.
Qed.

Lemma f32_ltb_false_iff a b :
  F32.ltb a b = false <->
  F32.is_nan a = true \/ F32.is_nan b = true \/ F32.key b <= F32.key a.
Proof.
  destruct (F32.ltb a b) eqn:H.
  - apply f32_ltb_iff in H. destruct H as (Ha & Hb & Hk). split; [discriminate|].
    intros [X|[X|X]]; try congruence; lia.
  - split; [intros _|reflexivity].
    destruct (F32.is_nan a) eqn:Ha; [now left|].
    destruct (F32.is_nan b) eqn:Hb; [now right; left|].
    right; right. destruct (Z.le_gt_cases (F32.key b) (F32.key a)) as [L|L]; [exact L|].
    assert (F32.ltb a b = true) by (apply f32_ltb_iff; repeat split; assumption || lia).
    congruence.
Qed.

Lemma f32_eqb_false_iff a b :
  F32.eqb a b = false <->
  F32.is_nan a = true \/ F32.is_nan b = true \/ F32.key a <> F32.key b.
Proof.
  destruct (F32.eqb a b) eqn:H.
  - apply f32_eqb_iff in H. destruct H as (Ha & Hb & Hk). split; [discriminate|].
    intros [X|[X|X]]; try congruence.
  - split; [intros _|reflexivity].
    destruct (F32.is_nan a) eqn:Ha; [now left|].
    destruct (F32.is_nan b) eqn:Hb; [now right; left|].
    right; right. intro E.
    assert (F32.eqb a b = true) by (apply f32_eqb_iff; repeat split; assumption).
    congruence.
Qed.

Lemma check_range_sound f n : forall lo,
  check_range f lo n = true -> forall i, lo <= i < lo + Z.of_nat n -> f i = true.
Proof.
  induction n as [|n IH]; intros lo H i Hi.
  - cbn [Z.of_nat] in Hi. lia.
  - cbn [check_range] in H. destruct (f lo) eqn:Hlo; [|discriminate].
    destruct (Z.eq_dec i lo) as [->|Hne]; [exact Hlo|].
    apply (IH (lo + 1) H). lia.
Qed.

Lemma index_floats_checked : check_range index_float_ok 0 (Z.to_nat 65536) = true.
Proof. vm_compute. reflexivity. Qed.

(** Turns every float comparison of the context into facts about keys. *)
Ltac keys :=
  repeat match goal with
    | H : F32.ltb _ _ = true |- _ => apply f32_ltb_iff in H; destruct H as (? & ? & ?)
    | H : F32.eqb _ _ = true |- _ => apply f32_eqb_iff in H; destruct H as (? & ? & ?)
    | H : F32.ltb _ _ = false |- _ => apply f32_ltb_false_iff in H
    | H : F32.eqb _ _ = false |- _ => apply f32_eqb_false_iff in H
    end.

Ltac keys_goal :=
  match goal with
  | |- F32.ltb _ _ = true => apply f32_ltb_iff
  | |- F32.eqb _ _ = true => apply f32_eqb_iff
  | |- F32.ltb _ _ = false => apply f32_ltb_false_iff
  | |- F32.eqb _ _ = false => apply f32_eqb_false_iff
  end.

Ltac order :=
  keys; try keys_goal;
  repeat match goal with
    | |- context [F32.is_nan ?x] =>
        lazymatch goal with
        | H : F32.is_nan x = _ |- _ => fail
        | _ => destruct (F32.is_nan x) eqn:?
        end
    | H : context [F32.is_nan ?x] |- _ =>
        lazymatch goal with
        | H' : F32.is_nan x = _ |- _ => fail
        | _ => destruct (F32.is_nan x) eqn:?
        end
    end;
  try congruence;
  repeat match goal with
    | H : _ \/ _ |- _ => destruct H; try congruence
    end;
  try (repeat split; congruence || lia);
  try (left; congruence); try (right; left; congruence); try (right; right; lia).

Lemma ltb_irrefl a : F32.ltb a a = false.
Proof. order. Qed.

Lemma ltb_trans a b c : F32.ltb a b = true -> F32.ltb b c = true -> F32.ltb a c = true.
Proof. intros. order. Qed.

Lemma ltb_false_trans a b c :
  F32.ltb a b = false -> F32.ltb c b = true -> F32.ltb a c = false.
Proof. intros. order. Qed.

Lemma eqb_ltb_false a b c :
  F32.ltb a c = false -> F32.ltb b c = true -> F32.eqb a b = false.
Proof. intros. order. Qed.

Lemma first_min_start src : first_min src (fun j => (j < 1)%nat) 0%nat.
Proof.
  split; [now left|]. split.
  - intros j Hj. assert (j = 0%nat) as -> by lia. apply ltb_irrefl.
  - intros j _ Hj. lia.
Qed.

Lemma first_min_empty src : first_min src (fun _ => False) 0%nat.
Proof. split; [now left|]. split; intros j []. Qed.

Lemma first_min_ext src D D' r :
  (forall j, D j <-> D' j) -> first_min src D r -> first_min src D' r.
Proof.
  intros E (H1 & H2 & H3). split; [|split].
  - destruct H1 as [H1|[H1 H1']]; [now left|right; split; [now apply E|assumption]].
  - intros j Hj. apply H2. now apply E.
  - intros j Hj. apply H3. now apply E.
Qed.

(** One step of a scan with strict [<]: the candidate [r] meets index [i],
    which lies past every index met so far. *)
Lemma first_min_step src D r i :
  first_min src D r ->
  (forall j, D j -> (j < i)%nat) ->
  first_min src (fun j => D j \/ j = i)
    (if F32.ltb (src i) (src r) then i else r).
Proof.
  intros (H1 & H2 & H3) Hlt.
  destruct (F32.ltb (src i) (src r)) eqn:Hi.
  - split; [|split].
    + right. split; [now right|].
      destruct H1 as [->|[_ H1]]; [assumption|]. eapply ltb_trans; eassumption.
    + intros j [Hj| ->]; [|apply ltb_irrefl].
      eapply ltb_false_trans; [apply (H2 j Hj)|assumption].
    + intros j [Hj| ->] Hji; [|lia].
      eapply eqb_ltb_false; [apply (H2 j Hj)|assumption].
  - split; [|split].
    + destruct H1 as [->|[H1 H1']]; [now left|right; split; [now left|assumption]].
    + intros j [Hj| ->]; [now apply H2|assumption].
    + intros j [Hj| ->] Hjr; [now apply H3|].
      destruct H1 as [->|[H1 _]]; [lia|]. apply Hlt in H1. lia.
Qed.

Lemma first_min_merge src D Dl r rl :
  first_min src D r -> first_min src Dl rl ->
  first_min src (fun j => D j \/ Dl j) (merge_index src r rl).
Proof.
  intros (H1 & H2 & H3) (L1 & L2 & L3). unfold merge_index.
  destruct (F32.ltb (src rl) (src r)) eqn:Hlt; [|destruct (F32.eqb (src rl) (src r)) eqn:Heq;
    [destruct (Nat.ltb_spec rl r) as [Hrl|Hrl]|]].
  - (* the lane is strictly smaller *)
    split; [|split].
    + destruct L1 as [->|[L1 L1']]; [now left|right; split; [now right|assumption]].
    + intros j [Hj|Hj]; [|now apply L2].
      eapply ltb_false_trans; [apply (H2 j Hj)|assumption].
    + intros j [Hj|Hj] Hjr; [|now apply L3].
      eapply eqb_ltb_false; [apply (H2 j Hj)|assumption].
  - (* equal values, the lane has the lower index *)
    split; [|split].
    + destruct L1 as [->|[L1 L1']]; [now left|right; split; [now right|assumption]].
    + intros j [Hj|Hj]; [|now apply L2].
      specialize (H2 j Hj). clear - H2 Heq. order.
    + intros j [Hj|Hj] Hjr; [|now apply L3].
      assert (X : F32.eqb (src j) (src r) = false) by (apply H3; [assumption|lia]).
      clear - X Heq. order.
  - (* equal values, the running candidate has the lower index *)
    split; [|split].
    + destruct H1 as [->|[H1 H1']]; [now left|right; split; [now left|assumption]].
    + intros j [Hj|Hj]; [now apply H2|].
      specialize (L2 j Hj). clear - L2 Heq. order.
    + intros j [Hj|Hj] Hjr; [now apply H3|].
      assert (X : F32.eqb (src j) (src rl) = false) by (apply L3; [assumption|lia]).
      clear - X Heq. order.
  - (* the lane is larger, or a NaN is involved *)
    assert (Hnan : F32.is_nan (src rl) = true -> r = 0%nat /\ F32.is_nan (src r) = true).
    { intro N. destruct L1 as [->|[_ L1]]; [|clear - L1 N; order].
      destruct H1 as [->|[_ H1]]; [now split|]. clear - H1 N. order. }
    split; [|split].
    + destruct H1 as [->|[H1 H1']]; [now left|right; split; [now left|assumption]].
    + intros j [Hj|Hj]; [now apply H2|].
      specialize (L2 j Hj).
      destruct (F32.is_nan (src rl)) eqn:N.
      * destruct (Hnan eq_refl) as [_ N']. clear - N'. order.
      * clear - L2 Hlt Heq N. order.
    + intros j [Hj|Hj] Hjr; [now apply H3|].
      specialize (L2 j Hj).
      destruct (F32.is_nan (src rl)) eqn:N.
      * destruct (Hnan eq_refl) as [-> _]. lia.
      * clear - L2 Hlt Heq N. order.
Qed.

Lemma first_min_unique src D r1 r2 :
  first_min src D r1 -> first_min src D r2 -> D 0%nat -> r1 = r2.
Proof.
  assert (W : forall a b, first_min src D a -> first_min src D b -> D 0%nat ->
                          (a < b)%nat -> False).
  { intros a b (A1 & A2 & A3) (B1 & B2 & B3) D0 Hab.
    destruct B1 as [->|[Db B1]]; [lia|].
    assert (Da : D a) by (destruct A1 as [->|[Da _]]; assumption).
    pose proof (B2 a Da) as X1. pose proof (B3 a Da Hab) as X2.
    pose proof (A2 b Db) as X3.
    destruct A1 as [->|[_ A1]].
    - congruence.
    - clear - X1 X2 X3 A1 B1. order. }
  intros F1 F2 D0.
  destruct (Nat.lt_trichotomy r1 r2) as [H|[H|H]]; [exfalso; eauto|assumption|exfalso; eauto].
Qed.

Lemma a_avx_simd n : volk_32f_index_min_16u_a_avx n = index_min_simd 8 sel_blendv n.
Proof. reflexivity. Qed.
Lemma u_avx_simd n : volk_32f_index_min_16u_u_avx n = index_min_simd 8 sel_blendv n.
Proof. reflexivity. Qed.
Lemma a_sse4_1_simd n : volk_32f_index_min_16u_a_sse4_1 n = index_min_simd 4 sel_blendv n.
Proof. reflexivity. Qed.
Lemma a_sse_simd n : volk_32f_index_min_16u_a_sse n = index_min_simd 4 sel_bitwise n.
Proof. reflexivity. Qed.

(** ** The monad *)

Lemma bind_run {A B} (c : M A) (k : A -> M B) st :
  bind c k st = k (fst (c st)) (snd (c st)).
Proof. unfold bind. now destruct (c st). Qed.

Lemma for_range_ind {S} (I : nat -> S -> state -> Prop) (body : nat -> S -> M S) count :
  forall start s st,
  I start s st ->
  (forall i s st, (start <= i < start + count)%nat -> I i s st ->
     I (Datatypes.S i) (fst (body i s st)) (snd (body i s st))) ->
  I (start + count)%nat (fst (for_range start count body s st))
                        (snd (for_range start count body s st)).
Proof.
  induction count as [|c IH]; intros start s st H0 Hstep.
  - cbn [for_range]. unfold ret. cbn [fst snd]. now rewrite Nat.add_0_r.
  - cbn [for_range]. rewrite bind_run.
    replace (start + Datatypes.S c)%nat with (Datatypes.S start + c)%nat by lia.
    apply IH.
    + apply Hstep; [lia|assumption].
    + intros i s' st' Hi. apply Hstep. lia.
Qed.

Lemma for_loop_ind {S} (I : nat -> S -> state -> Prop) (body : nat -> S -> M S) lo hi s st :
  (lo <= hi)%nat ->
  I lo s st ->
  (forall i s st, (lo <= i < hi)%nat -> I i s st ->
     I (Datatypes.S i) (fst (body i s st)) (snd (body i s st))) ->
  I hi (fst (for_loop lo hi body s st)) (snd (for_loop lo hi body s st)).
Proof.
  intros Hle H0 Hstep. unfold for_loop.
  assert (G := for_range_ind I body (hi - lo) lo s st H0).
  replace (lo + (hi - lo))%nat with hi in G by lia.
  apply G. intros i s' st' Hi. apply Hstep. lia.
Qed.

Lemma for_loop_empty {S} (body : nat -> S -> M S) lo hi s st :
  (hi <= lo)%nat -> for_loop lo hi body s st = (s, st).
Proof. intro H. unfold for_loop. replace (hi - lo)%nat with 0%nat by lia. reflexivity. Qed.

(** ** Traces *)

Lemma extends_refl P st : extends P st st.
Proof. exists []. split; [reflexivity|constructor]. Qed.

Lemma extends_cons P st0 st m e :
  P e -> extends P st0 st -> extends P st0 (mkState m (e :: trace st)).
Proof.
  intros He (evs & E & F). exists (e :: evs). cbn [trace]. rewrite E. split; [reflexivity|].
  now constructor.
Qed.

Lemma extends_push P st0 m m' t e :
  P e -> extends P st0 (mkState m' t) -> extends P st0 (mkState m (e :: t)).
Proof. intros He H. apply (extends_cons P st0 (mkState m' t) m e He H). Qed.

Lemma extends_state P st0 st : extends P st0 st -> extends P st0 (mkState (mem st) (trace st)).
Proof. now destruct st. Qed.

Lemma extends_app P st0 st m evs :
  Forall P evs -> extends P st0 st -> extends P st0 (mkState m (evs ++ trace st)).
Proof.
  intros He (evs' & E & F). exists (evs ++ evs'). cbn [trace]. rewrite E, app_assoc.
  split; [reflexivity|]. apply Forall_app. now split.
Qed.

Lemma extends_trans P st0 st1 st2 :
  extends P st0 st1 -> extends P st1 st2 -> extends P st0 st2.
Proof.
  intros (e1 & E1 & F1) (e2 & E2 & F2). exists (e2 ++ e1). rewrite E2, E1, app_assoc.
  split; [reflexivity|]. apply Forall_app. now split.
Qed.

Lemma extends_weaken (P Q : event -> Prop) st0 st :
  (forall e, P e -> Q e) -> extends P st0 st -> extends Q st0 st.
Proof.
  intros PQ (evs & E & F). exists evs. split; [assumption|].
  eapply Forall_impl; eassumption.
Qed.

(** ** Lanes *)

Lemma length_vzip f a : forall b, length a = length b -> length (vzip f a b) = length a.
Proof.
  induction a as [|x a IH]; intros [|y b] H; try discriminate; [reflexivity|].
  cbn [vzip length]. f_equal. apply IH. now injection H.
Qed.

Lemma lane_vzip f a : forall b l,
  (l < length a)%nat -> (l < length b)%nat ->
  lane (vzip f a b) l = f (lane a l) (lane b l).
Proof.
  unfold lane. induction a as [|x a IH]; intros [|y b] l Ha Hb; cbn [length] in *; try lia.
  destruct l as [|l]; [reflexivity|]. cbn [vzip nth]. apply IH; lia.
Qed.

Lemma length_vzip3 f a : forall b c,
  length a = length b -> length a = length c -> length (vzip3 f a b c) = length a.
Proof.
  induction a as [|x a IH]; intros [|y b] [|z c] H1 H2; try discriminate; [reflexivity|].
  cbn [vzip3 length]. f_equal. apply IH; [now injection H1|now injection H2].
Qed.

Lemma lane_vzip3 f a : forall b c l,
  (l < length a)%nat -> (l < length b)%nat -> (l < length c)%nat ->
  lane (vzip3 f a b c) l = f (lane a l) (lane b l) (lane c l).
Proof.
  unfold lane. induction a as [|x a IH]; intros [|y b] [|z c] l Ha Hb Hc;
    cbn [length] in *; try lia.
  destruct l as [|l]; [reflexivity|]. cbn [vzip3 nth]. apply IH; lia.
Qed.

Lemma lane_repeat x n l : (l < n)%nat -> lane (repeat x n) l = x.
Proof.
  unfold lane. revert l. induction n as [|n IH]; intros l H; [lia|].
  destruct l as [|l]; [reflexivity|]. cbn [repeat nth]. apply IH. lia.
Qed.

Lemma lane_map_seq (f : nat -> Z) n : forall s l,
  (l < n)%nat -> lane (map f (seq s n)) l = f (s + l)%nat.
Proof.
  unfold lane. induction n as [|n IH]; intros s l H; [lia|].
  destruct l as [|l]; cbn [seq map nth].
  - now rewrite Nat.add_0_r.
  - rewrite IH by lia. f_equal. lia.
Qed.

(** ** Loads *)

Lemma load_words_run b n : forall p st,
  load_words b p n st =
  (map (fun l => mem st b (p + l)%nat) (seq 0 n),
   mkState (mem st) (rev (map (fun l => Rd b (p + l)%nat) (seq 0 n)) ++ trace st)).
Proof.
  induction n as [|n IH]; intros p st.
  - destruct st. reflexivity.
  - cbn [load_words]. rewrite bind_run. unfold load at 1. cbn [fst snd].
    rewrite bind_run, IH. cbn [fst snd mem trace]. unfold ret.
    cbn [seq map]. rewrite <- !seq_shift, !map_map. cbn [rev].
    rewrite Nat.add_0_r.
    assert (E1 : map (fun l => mem st b (Datatypes.S p + l)%nat) (seq 0 n)
                 = map (fun l => mem st b (p + Datatypes.S l)%nat) (seq 0 n)).
    { apply map_ext. intro l. f_equal. lia. }
    assert (E2 : map (fun l => Rd b (Datatypes.S p + l)%nat) (seq 0 n)
                 = map (fun l => Rd b (p + Datatypes.S l)%nat) (seq 0 n)).
    { apply map_ext. intro l. f_equal. lia. }
    unfold load. cbn [snd mem trace]. rewrite E1, E2, <- app_assoc. reflexivity.
Qed.

(** ** Floats that compare alike *)

Lemma sameval_refl a : sameval a a.
Proof. now split. Qed.

Lemma compare_sameval a a' b b' :
  sameval a a' -> sameval b b' -> F32.compare a b = F32.compare a' b'.
Proof. intros [N1 K1] [N2 K2]. rewrite !compare_key. now rewrite N1, N2, K1, K2. Qed.

Lemma ltb_sameval a a' b b' :
  sameval a a' -> sameval b b' -> F32.ltb a b = F32.ltb a' b'.
Proof.
  intros H1 H2. unfold F32.ltb, SFltb. fold (F32.compare a b). fold (F32.compare a' b').
  now rewrite (compare_sameval _ _ _ _ H1 H2).
Qed.

Lemma eqb_sameval a a' b b' :
  sameval a a' -> sameval b b' -> F32.eqb a b = F32.eqb a' b'.
Proof.
  intros H1 H2. unfold F32.eqb, SFeqb. fold (F32.compare a b). fold (F32.compare a' b').
  now rewrite (compare_sameval _ _ _ _ H1 H2).
Qed.

Lemma eqb_true_sameval a b : F32.eqb a b = true -> sameval a b.
Proof. intro H. apply f32_eqb_iff in H. destruct H as (Ha & Hb & K). split; congruence. Qed.

(** ** Index floats *)

Lemma index_float (i : Z) : 0 <= i < 65536 -> index_float_ok i = true.
Proof.
  intro H. apply (check_range_sound _ _ _ index_floats_checked).
  rewrite Z2Nat.id; lia.
Qed.

Lemma index_float_facts (i : Z) :
  0 <= i < 65536 ->
  0 <= F32.of_Z i < 4294967296 /\
  F32.is_nan (F32.of_Z i) = false /\
  F32.key (F32.of_Z i) < F32.key (F32.of_Z (i + 1)) /\
  F32.trunc (F32.of_Z i) = i /\
  F32.add (F32.of_Z (i - 8)) (F32.of_Z 8) = F32.of_Z i /\
  F32.add (F32.of_Z (i - 4)) (F32.of_Z 4) = F32.of_Z i.
Proof.
  intro H. pose proof (index_float i H) as C. unfold index_float_ok in C.
  rewrite !andb_true_iff in C.
  destruct C as ((((((C1 & C2) & C3) & C4) & C5) & C6) & C7).
  apply Z.leb_le in C1. apply Z.ltb_lt in C2. apply negb_true_iff in C3.
  apply Z.ltb_lt in C4. apply Z.eqb_eq in C5. apply Z.eqb_eq in C6. apply Z.eqb_eq in C7.
  repeat split; assumption.
Qed.

Lemma index_key_mono (i j : Z) :
  0 <= i -> i < j -> j <= 65536 -> F32.key (F32.of_Z i) < F32.key (F32.of_Z j).
Proof.
  intros Hi Hij Hj.
  assert (G : forall d : nat, i + 1 + Z.of_nat d <= 65536 ->
            F32.key (F32.of_Z i) < F32.key (F32.of_Z (i + 1 + Z.of_nat d))).
  { induction d as [|d IH]; intro Hd.
    - rewrite Z.add_0_r. apply index_float_facts. lia.
    - eapply Z.lt_trans; [apply IH; lia|].
      replace (i + 1 + Z.of_nat (Datatypes.S d)) with (i + 1 + Z.of_nat d + 1) by lia.
      apply index_float_facts. lia. }
  replace j with (i + 1 + Z.of_nat (Z.to_nat (j - i - 1))) by lia.
  apply G. lia.
Qed.

Lemma index_gtb (i j : nat) :
  Z.of_nat i < 65536 -> Z.of_nat j < 65536 ->
  F32.gtb (F32.of_Z (Z.of_nat i)) (F32.of_Z (Z.of_nat j)) = (j <? i)%nat.
Proof.
  intros Hi Hj. unfold F32.gtb.
  assert (Ni := proj1 (proj2 (index_float_facts (Z.of_nat i) ltac:(lia)))).
  assert (Nj := proj1 (proj2 (index_float_facts (Z.of_nat j) ltac:(lia)))).
  destruct (Nat.ltb_spec j i) as [L|L].
  - apply f32_ltb_iff. repeat split; try assumption. apply index_key_mono; lia.
  - apply f32_ltb_false_iff. right; right.
    destruct (Nat.eq_dec i j) as [->|Hne]; [lia|].
    apply Z.lt_le_incl. apply index_key_mono; lia.
Qed.

Lemma index_to_u16 (i : nat) :
  Z.of_nat i < 65536 -> F32.to_u16 (F32.of_Z (Z.of_nat i)) = Z.of_nat i.
Proof.
  intro H. unfold F32.to_u16.
  rewrite (proj1 (proj2 (proj2 (proj2 (index_float_facts (Z.of_nat i) ltac:(lia)))))).
  apply Z.mod_small. lia.
Qed.

Lemma cmplt_lane_cases x y : cmplt_lane x y = 0 \/ cmplt_lane x y = all_ones.
Proof. unfold cmplt_lane. destruct (F32.ltb x y); [now right|now left]. Qed.

Lemma cmplt_lane_bit x y : Z.testbit (cmplt_lane x y) 31 = F32.ltb x y.
Proof. unfold cmplt_lane. destruct (F32.ltb x y); reflexivity. Qed.

Lemma index_add (W : nat) (i : nat) :
  W = 4%nat \/ W = 8%nat -> Z.of_nat i < 65536 ->
  F32.add (F32.of_Z (Z.of_nat i - Z.of_nat W)) (F32.of_Z (Z.of_nat W)) = F32.of_Z (Z.of_nat i).
Proof.
  intros [-> | ->] H; apply (index_float_facts (Z.of_nat i)); lia.
Qed.

Lemma index_word32 (i : nat) : Z.of_nat i < 65536 -> word32 (F32.of_Z (Z.of_nat i)).
Proof. intro H. apply (index_float_facts (Z.of_nat i)). lia. Qed.

Lemma lane_dom_step W l k j :
  lane_dom W l k j \/ j = (W * k + l)%nat <-> lane_dom W l (Datatypes.S k) j.
Proof.
  unfold lane_dom. split.
  - intros [(t & Ht & E)| ->]; [exists t; split; [lia|assumption]|exists k; split; [lia|reflexivity]].
  - intros (t & Ht & E). destruct (Nat.eq_dec t k) as [->|Hne]; [now right|].
    left. exists t. split; [lia|assumption].
Qed.

Lemma vec_inv_step W sel st0 n k s st :
  W = 4%nat \/ W = 8%nat -> sel_ok W sel -> float_buffer (mem st0 Source) ->
  Z.of_nat n <= 65535 -> (W * Datatypes.S k <= n)%nat ->
  vec_inv W st0 n k s st ->
  vec_inv W st0 n (Datatypes.S k) (fst (simd_body W sel k s st)) (snd (simd_body W sel k s st)).
Proof.
  intros HW Hsel Hsrc Hn Hk.
  destruct s as [[[p ci] mvi] mv]. intros (Hp & Lci & Lmvi & Lmv & Hci & Hmv & Hmem & Hext).
  unfold simd_body. rewrite bind_run, load_words_run. cbn [fst snd]. unfold ret. cbn [fst snd].
  rewrite Hmem.
  set (cv := map (fun l => mem st0 Source (p + l)%nat) (seq 0 W)).
  set (ci' := vzip F32.add ci (repeat (F32.of_Z (Z.of_nat W)) W)).
  set (cmp := vzip cmplt_lane cv mv).
  assert (Lcv : length cv = W) by (unfold cv; now rewrite length_map, length_seq).
  assert (Lci' : length ci' = W).
  { unfold ci'. rewrite length_vzip; [assumption|now rewrite repeat_length]. }
  assert (Lcmp : length cmp = W) by (unfold cmp; rewrite length_vzip; congruence).
  assert (Hcv : forall l, (l < W)%nat -> lane cv l = mem st0 Source (W * k + l)%nat).
  { intros l Hl. unfold cv. rewrite lane_map_seq by assumption. now rewrite Hp. }
  assert (Hci' : forall l, (l < W)%nat -> lane ci' l = F32.of_Z (Z.of_nat (W * k + l))).
  { intros l Hl. unfold ci'. rewrite lane_vzip by (rewrite ?repeat_length; lia).
    rewrite lane_repeat by assumption. rewrite Hci by assumption.
    apply index_add; [assumption|]. destruct HW as [-> | ->]; lia. }
  assert (Hcmp : forall l, (l < W)%nat -> lane cmp l = cmplt_lane (lane cv l) (lane mv l)).
  { intros l Hl. unfold cmp. apply lane_vzip; lia. }
  assert (Hidx : forall l, (l < W)%nat -> Z.of_nat (W * k + l) < 65536).
  { intros l Hl. destruct HW as [-> | ->]; lia. }
  destruct (Hsel mvi ci' cmp Lmvi Lci' Lcmp) as [Ls1 Hs1].
  { intros l Hl. destruct (Hmv l Hl) as (r & _ & Er & Hr & _). split; [|split].
    - rewrite Er. apply index_word32. specialize (Hidx l Hl). destruct HW as [-> | ->]; lia.
    - rewrite Hci' by assumption. apply index_word32. auto.
    - rewrite Hcmp by assumption. apply cmplt_lane_cases. }
  destruct (Hsel mv cv cmp Lmv Lcv Lcmp) as [Ls2 Hs2].
  { intros l Hl. destruct (Hmv l Hl) as (r & Er & _). split; [|split].
    - rewrite Er. apply Hsrc.
    - rewrite Hcv by assumption. apply Hsrc.
    - rewrite Hcmp by assumption. apply cmplt_lane_cases. }
  repeat split; try assumption.
  - rewrite Hp. lia.
  - intros l Hl. rewrite Hci' by assumption. f_equal. lia.
  - intros l Hl. destruct (Hmv l Hl) as (r & Er & Ei & Hr & Hfm).
    exists (if F32.ltb (mem st0 Source (W * k + l)%nat) (mem st0 Source r)
            then (W * k + l)%nat else r).
    rewrite Hs1, Hs2, Hcmp, cmplt_lane_bit, Hcv, Er, Ei, Hci' by assumption.
    destruct (F32.ltb (mem st0 Source (W * k + l)%nat) (mem st0 Source r)) eqn:Hlt.
    + split; [reflexivity|split; [reflexivity|split; [right; lia|]]].
      eapply first_min_ext; [apply lane_dom_step|].
      pose proof (first_min_step (mem st0 Source) (lane_dom W l k) r (W * k + l)%nat Hfm) as S.
      rewrite Hlt in S. apply S. intros j (t & Ht & ->). nia.
    + split; [reflexivity|split; [reflexivity|split; [destruct Hr; [now left|right; lia]|]]].
      eapply first_min_ext; [apply lane_dom_step|].
      pose proof (first_min_step (mem st0 Source) (lane_dom W l k) r (W * k + l)%nat Hfm) as S.
      rewrite Hlt in S. apply S. intros j (t & Ht & ->). nia.
  - apply extends_app; [|assumption].
    apply Forall_rev, Forall_forall. intros e He. apply in_map_iff in He.
    destruct He as (l & <- & Hl). apply in_seq in Hl. exists (p + l)%nat. split; [reflexivity|].
    rewrite Hp. lia.
Qed.

Ltac conjs := repeat match goal with |- _ /\ _ => split end.

Lemma sameval_sym a b : sameval a b -> sameval b a.
Proof. intros [H1 H2]. now split. Qed.

Lemma lanes_dom_step W q l j :
  lanes_dom W q l j \/ lane_dom W l q j <-> lanes_dom W q (Datatypes.S l) j.
Proof.
  unfold lanes_dom, lane_dom. split.
  - intros [(t & l' & Ht & Hl & E)|(t & Ht & E)].
    + exists t, l'. repeat split; [assumption|lia|assumption].
    + exists t, l. repeat split; [assumption|lia|assumption].
  - intros (t & l' & Ht & Hl & E). destruct (Nat.eq_dec l' l) as [->|Hne].
    + right. exists t. now split.
    + left. exists t, l'. repeat split; [assumption|lia|assumption].
Qed.

Lemma reduce_lanes_spec W src q mv mvi min index st1 r0 :
  Z.of_nat (W * q) < 65536 ->
  lanes_ok W src q mv mvi ->
  sameval min (src r0) -> index = F32.of_Z (Z.of_nat r0) ->
  (r0 = 0 \/ r0 < W * q)%nat ->
  first_min src (fun _ => False) r0 ->
  red_inv W src q st1 W (fst (reduce_lanes W mv mvi min index st1))
                        (snd (reduce_lanes W mv mvi min index st1)).
Proof.
  intros Hq Hl Hs Hi Hr Hf. unfold reduce_lanes.
  apply (for_loop_ind (red_inv W src q st1)); [lia| |].
  - exists r0. conjs; try assumption; try reflexivity.
    eapply first_min_ext; [|exact Hf]. intro j. split; [intros []|].
    intros (t & l' & _ & Hl' & _). lia.
  - intros l [m ix] st [_ HlW] (r & Sv & Ei & Hrr & Hfm & ->).
    destruct (Hl l HlW) as (rl & Ev & Eix & Hrl & Hfl).
    pose proof (first_min_merge src _ _ r rl Hfm Hfl) as Mg.
    apply (first_min_ext _ _ _ _ (lanes_dom_step W q l)) in Mg.
    unfold merge_index in Mg.
    rewrite Ev, Eix, Ei.
    rewrite (ltb_sameval (src rl) (src rl) m (src r) (sameval_refl _) Sv).
    rewrite (eqb_sameval (src rl) (src rl) m (src r) (sameval_refl _) Sv).
    rewrite index_gtb by lia.
    destruct (F32.ltb (src rl) (src r)) eqn:Hlt.
    + unfold ret. cbn [fst snd]. exists rl. conjs; try assumption; try reflexivity; apply sameval_refl.
    + destruct (F32.eqb (src rl) (src r)) eqn:Heq.
      * destruct (Nat.ltb_spec rl r) as [L|L]; unfold ret; cbn [fst snd].
        -- exists rl. conjs; try assumption; try reflexivity.
           apply sameval_sym. pose proof (eqb_true_sameval _ _ Heq) as [E1 E2].
           destruct Sv as [S1 S2]. split; congruence.
        -- exists r. conjs; try assumption; try reflexivity.
      * unfold ret. cbn [fst snd]. exists r. conjs; try assumption; try reflexivity.
Qed.

Lemma lt_step_iff (i j : nat) : (j < i)%nat \/ j = i <-> (j < Datatypes.S i)%nat.
Proof. lia. Qed.

Lemma scalar_tail_spec st0 n lo hi min index st :
  (lo <= hi)%nat -> (hi <= n)%nat ->
  tail_inv st0 n lo (min, index) st ->
  tail_inv st0 n hi (fst (scalar_tail lo hi min index st))
                    (snd (scalar_tail lo hi min index st)).
Proof.
  intros Hlo Hhi H0. unfold scalar_tail.
  apply (for_loop_ind (tail_inv st0 n)); [assumption|assumption|].
  intros i [m ix] st' Hi (r & Sv & Ei & Hr & Hfm & Hmem & Hext).
  rewrite bind_run. unfold load. cbn [fst snd mem trace]. rewrite Hmem.
  pose proof (first_min_step (mem st0 Source) _ r i Hfm ltac:(intros; assumption)) as S.
  apply (first_min_ext _ _ _ _ (lt_step_iff i)) in S.
  rewrite (ltb_sameval (mem st0 Source i) (mem st0 Source i) m (mem st0 Source r)
             (sameval_refl _) Sv).
  assert (X : extends (src_read n) st0
                (mkState (mem st') (Rd Source i :: trace st'))).
  { apply extends_cons; [|assumption]. exists i. split; [reflexivity|lia]. }
  destruct (F32.ltb (mem st0 Source i) (mem st0 Source r)) eqn:Hlt.
  - rewrite bind_run. unfold ret. cbn [fst snd mem trace].
    exists i.
    split; [apply sameval_refl|]. split; [reflexivity|]. split; [right; lia|].
    split; [assumption|]. split; [reflexivity|].
    eapply extends_push; [|exact X]. exists i. split; [reflexivity|lia].
  - unfold ret. cbn [fst snd mem trace].
    exists r.
    split; [assumption|]. split; [assumption|]. split; [destruct Hr; [now left|right; lia]|].
    split; [assumption|]. split; [reflexivity|exact X].
Qed.

(** The two lane selections. *)
Lemma sel_blendv_ok W : sel_ok W sel_blendv.
Proof.
  intros a b m La Lb Lm _. unfold sel_blendv. split.
  - rewrite length_vzip3; congruence.
  - intros l Hl. rewrite lane_vzip3 by lia. reflexivity.
Qed.

Lemma bitwise_select x y m :
  word32 x -> word32 y -> m = 0 \/ m = all_ones ->
  Z.lor (Z.land m y) (Z.land (Z.lxor m all_ones) x) = if Z.testbit m 31 then y else x.
Proof.
  intros Hx Hy [-> | ->].
  - rewrite Z.land_0_l, Z.lor_0_l. change (Z.lxor 0 all_ones) with (Z.ones 32).
    rewrite Z.land_comm, Z.land_ones by lia. change (Z.testbit 0 31) with false.
    apply Z.mod_small. exact Hx.
  - change (Z.lxor all_ones all_ones) with 0. rewrite Z.land_0_l, Z.lor_0_r.
    change all_ones with (Z.ones 32). rewrite Z.land_comm, Z.land_ones by lia.
    change (Z.testbit (Z.ones 32) 31) with true. apply Z.mod_small. exact Hy.
Qed.

Lemma sel_bitwise_ok W : sel_ok W sel_bitwise.
Proof.
  intros a b m La Lb Lm H. unfold sel_bitwise, _mm_or_ps, _mm_and_ps, _mm_andnot_ps. split.
  - rewrite length_vzip; rewrite !length_vzip; congruence.
  - intros l Hl. rewrite lane_vzip by (rewrite !length_vzip; lia || congruence).
    rewrite !lane_vzip by lia. destruct (H l Hl) as (Ha & Hb & Hm).
    now apply bitwise_select.
Qed.

Lemma bind_load {B} b i (k : Z -> M B) st :
  bind (load b i) k st = k (mem st b i) (mkState (mem st) (Rd b i :: trace st)).
Proof. reflexivity. Qed.

Lemma bind_store {B} b i v (k : unit -> M B) st :
  bind (store b i v) k st = k tt (mkState (upd (mem st) b i v) (Wr b i :: trace st)).
Proof. reflexivity. Qed.

Lemma clamp_eq num_points :
  0 <= num_points ->
  (if num_points >? USHRT_MAX then USHRT_MAX else num_points) = Z.of_nat (clamp num_points).
Proof.
  intro H. unfold clamp, USHRT_MAX. destruct (Z.gtb_spec num_points 65535); lia.
Qed.

Lemma clamp_bound num_points : Z.of_nat (clamp num_points) <= 65535.
Proof. unfold clamp, USHRT_MAX. lia. Qed.

Lemma lanes_dom_full W q j :
  (0 < W)%nat -> lanes_dom W q W j <-> (j < W * q)%nat.
Proof.
  intro HW. unfold lanes_dom. split.
  - intros (t & l & Ht & Hl & ->). nia.
  - intro Hj. exists (j / W)%nat, (j mod W)%nat. split; [|split].
    + apply Nat.Div0.div_lt_upper_bound. lia.
    + apply Nat.mod_upper_bound. lia.
    + apply Nat.div_mod_eq.
Qed.

Lemma index_min_simd_spec W sel num_points st0 :
  W = 4%nat \/ W = 8%nat -> sel_ok W sel -> float_buffer (mem st0 Source) ->
  1 <= num_points ->
  index_min_post st0 (clamp num_points) (exec (index_min_simd W sel num_points) st0).
Proof.
  intros HW Hsel Hsrc Hnp.
  unfold exec, index_min_simd. rewrite clamp_eq by lia.
  pose proof (clamp_bound num_points) as Hn.
  assert (Hn1 : (1 <= clamp num_points)%nat) by (unfold clamp, USHRT_MAX; lia).
  set (n := clamp num_points) in *.
  assert (HW0 : (0 < W)%nat) by (destruct HW; lia).
  assert (Eq : Z.to_nat (Z.of_nat n / Z.of_nat W) = (n / W)%nat).
  { rewrite <- Nat2Z.inj_div. apply Nat2Z.id. }
  assert (Elo : Z.to_nat (Z.of_nat n / Z.of_nat W * Z.of_nat W) = (W * (n / W))%nat).
  { rewrite <- Nat2Z.inj_div, <- Nat2Z.inj_mul, Nat2Z.id. lia. }
  rewrite Eq, Elo, Nat2Z.id. set (q := (n / W)%nat).
  assert (Hq : (W * q <= n)%nat) by (apply Nat.Div0.mul_div_le).
  rewrite bind_load.
  set (st1 := mkState (mem st0) (Rd Source 0%nat :: trace st0)).
  assert (X1 : extends (src_read n) st0 st1).
  { apply extends_cons; [|apply extends_refl]. exists 0%nat. split; [reflexivity|lia]. }
  rewrite bind_run.
  match goal with |- context [for_loop 0 q (simd_body W sel) ?i st1] => set (init := i) end.
  assert (V : vec_inv W st0 n q (fst (for_loop 0 q (simd_body W sel) init st1))
                                (snd (for_loop 0 q (simd_body W sel) init st1))).
  { apply (for_loop_ind (vec_inv W st0 n)); [lia| |].
    - unfold init. cbn [vec_inv]. split; [lia|]. split; [now rewrite length_map, length_seq|].
      split; [apply repeat_length|]. split; [apply repeat_length|]. split; [|split; [|split]].
      + intros l Hl. rewrite lane_map_seq by assumption. f_equal. lia.
      + intros l Hl. exists 0%nat. rewrite !lane_repeat by assumption.
        split; [reflexivity|]. split; [reflexivity|]. split; [now left|].
        eapply first_min_ext; [|apply first_min_empty].
        intro j. split; [intros []|]. intros (t & Ht & _). lia.
      + reflexivity.
      + exact X1.
    - intros k s st [_ Hk] I. apply vec_inv_step; try assumption. nia. }
  destruct (for_loop 0 q (simd_body W sel) init st1) as [[[[p ci] mvi] mv] st2].
  cbn [fst snd] in *. destruct V as (_ & _ & _ & _ & _ & Hlanes & Hmem2 & Hext2).
  rewrite bind_run.
  assert (R := reduce_lanes_spec W (mem st0 Source) q mv mvi (mem st0 Source 0%nat)
                 (F32.of_Z 0) st2 0%nat ltac:(lia) Hlanes (sameval_refl _) eq_refl
                 ltac:(now left) (first_min_empty _)).
  destruct (reduce_lanes W mv mvi (mem st0 Source 0%nat) (F32.of_Z 0) st2) as [[m ix] st3].
  cbn [fst snd] in *. destruct R as (r & Sv & Ei & Hr & Hfm & ->).
  rewrite bind_run.
  assert (T := scalar_tail_spec st0 n (W * q) n m ix st2 Hq (Nat.le_refl n)).
  destruct (scalar_tail (W * q) n m ix st2) as [[m' ix'] st4].
  cbn [fst snd] in *.
  destruct T as (r' & Sv' & Ei' & Hr' & Hfm' & Hmem4 & (evs & Etr & Fevs)).
  { exists r. split; [assumption|]. split; [assumption|]. split; [assumption|].
    split; [|split; assumption].
    eapply first_min_ext; [|exact Hfm]. intro j. now apply lanes_dom_full. }
  unfold store. cbn [snd mem trace].
  exists r', evs. split; [lia|]. split; [assumption|]. split; [|split; [|assumption]].
  - rewrite Hmem4, Ei', index_to_u16 by lia. reflexivity.
  - now rewrite Etr.
Qed.

Lemma index_min_generic_spec num_points st0 :
  1 <= num_points ->
  index_min_post st0 (clamp num_points) (exec (volk_32f_index_min_16u_generic num_points) st0).
Proof.
  intros Hnp.
  unfold exec, volk_32f_index_min_16u_generic. rewrite clamp_eq by lia.
  pose proof (clamp_bound num_points) as Hn.
  assert (Hn1 : (1 <= clamp num_points)%nat) by (unfold clamp, USHRT_MAX; lia).
  set (n := clamp num_points) in *. rewrite Nat2Z.id.
  rewrite bind_load.
  set (st1 := mkState (mem st0) (Rd Source 0%nat :: trace st0)).
  assert (X1 : extends (src_read n) st0 st1).
  { apply extends_cons; [|apply extends_refl]. exists 0%nat. split; [reflexivity|lia]. }
  rewrite bind_run.
  match goal with |- context [for_loop 1 n ?b ?i st1] => set (body := b); set (init := i) end.
  assert (G : gen_inv st0 n n (fst (for_loop 1 n body init st1))
                              (snd (for_loop 1 n body init st1))).
  { apply (for_loop_ind (gen_inv st0 n)); [lia| |].
    - exists 0%nat. split; [reflexivity|]. split; [reflexivity|]. split; [lia|].
      split; [apply first_min_start|]. split; [reflexivity|exact X1].
    - intros i [m ix] st Hi (r & Em & Ei & Hr & Hfm & Hmem & Hext).
      unfold body. rewrite bind_load. rewrite Hmem, Em.
      pose proof (first_min_step (mem st0 Source) _ r i Hfm ltac:(intros; assumption)) as S.
      apply (first_min_ext _ _ _ _ (lt_step_iff i)) in S.
      assert (X : extends (src_read n) st0 (mkState (mem st0) (Rd Source i :: trace st))).
      { apply extends_cons; [|assumption]. exists i. split; [reflexivity|lia]. }
      destruct (F32.ltb (mem st0 Source i) (mem st0 Source r)) eqn:Hlt.
      + rewrite bind_load. unfold ret. cbn [fst snd mem trace].
        exists i. split; [reflexivity|]. split; [apply Z.mod_small; lia|]. split; [lia|].
        split; [assumption|]. split; [reflexivity|].
        eapply extends_push; [|exact X]. exists i. split; [reflexivity|lia].
      + unfold ret. cbn [fst snd mem trace].
        exists r. split; [reflexivity|]. split; [assumption|]. split; [lia|].
        split; [assumption|]. split; [reflexivity|exact X]. }
  destruct (for_loop 1 n body init st1) as [[m ix] st2].
  cbn [fst snd] in *. destruct G as (r & Em & Ei & Hr & Hfm & Hmem & (evs & Etr & Fevs)).
  unfold store. cbn [snd mem trace].
  exists r, evs. split; [assumption|]. split; [assumption|]. split; [|split; [|assumption]].
  - now rewrite Hmem, Ei.
  - now rewrite Etr.
Qed.

(** Every variant meets the same specification. *)
Lemma index_min_spec v num_points st0 :
  float_buffer (mem st0 Source) -> 1 <= num_points ->
  index_min_post st0 (clamp num_points) (exec (index_min v num_points) st0).
Proof.
  intros Hsrc Hnp. destruct v; cbn [index_min].
  - now apply index_min_generic_spec.
  - rewrite a_avx_simd. apply index_min_simd_spec; auto using sel_blendv_ok.
  - rewrite a_sse4_1_simd. apply index_min_simd_spec; auto using sel_blendv_ok.
  - rewrite a_sse_simd. apply index_min_simd_spec; auto using sel_bitwise_ok.
  - rewrite u_avx_simd. apply index_min_simd_spec; auto using sel_blendv_ok.
Qed.

Lemma index_min_post_result st0 n st :
  index_min_post st0 n st -> exists r, (r < n)%nat /\
    first_min (mem st0 Source) (fun j => (j < n)%nat) r /\ mem st Target 0%nat = Z.of_nat r.
Proof.
  intros (r & evs & Hr & Hfm & Hmem & _). exists r. split; [assumption|]. split; [assumption|].
  rewrite Hmem. reflexivity.
Qed.

Lemma index_min_agree v1 v2 num_points st0 :
  float_buffer (mem st0 Source) -> 1 <= num_points ->
  index_min_result v1 num_points st0 = index_min_result v2 num_points st0.
Proof.
  intros Hsrc Hnp. unfold index_min_result.
  destruct (index_min_post_result _ _ _ (index_min_spec v1 num_points st0 Hsrc Hnp))
    as (r1 & Hr1 & F1 & ->).
  destruct (index_min_post_result _ _ _ (index_min_spec v2 num_points st0 Hsrc Hnp))
    as (r2 & Hr2 & F2 & ->).
  f_equal. apply (first_min_unique _ _ _ _ F1 F2). lia.
Qed.

(** With no points, a variant reads [source[0]] and reports index 0. *)
Lemma index_min_simd_zero W sel st :
  W = 4%nat \/ W = 8%nat ->
  exec (index_min_simd W sel 0) st =
  mkState (upd (mem st) Target 0%nat 0) (Wr Target 0%nat :: Rd Source 0%nat :: trace st).
Proof.
  intro HW. unfold exec, index_min_simd. cbv zeta.
  change (if 0 >? USHRT_MAX then USHRT_MAX else 0) with 0.
  assert (E0 : Z.to_nat (0 / Z.of_nat W) = 0%nat) by (destruct HW as [-> | ->]; reflexivity).
  assert (E1 : Z.to_nat (0 / Z.of_nat W * Z.of_nat W) = 0%nat)
    by (destruct HW as [-> | ->]; reflexivity).
  rewrite E0, E1. change (Z.to_nat 0) with 0%nat.
  rewrite bind_load, bind_run, for_loop_empty by lia. cbn [fst snd].
  set (st1 := mkState (mem st) (Rd Source 0%nat :: trace st)).
  rewrite bind_run.
  assert (R := reduce_lanes_spec W (mem st Source) 0 (repeat (mem st Source 0%nat) W)
                 (repeat 0 W) (mem st Source 0%nat) (F32.of_Z 0) st1 0%nat
                 ltac:(destruct HW as [-> | ->]; lia)).
  destruct (reduce_lanes W (repeat (mem st Source 0%nat) W) (repeat 0 W)
              (mem st Source 0%nat) (F32.of_Z 0) st1) as [[m ix] st2].
  cbn [fst snd] in *.
  destruct R as (r & _ & -> & Hr & _ & ->).
  - intros l Hl. exists 0%nat. rewrite !lane_repeat by assumption.
    split; [reflexivity|]. split; [reflexivity|]. split; [now left|].
    eapply first_min_ext; [|apply first_min_empty].
    intro j. split; [intros []|]. intros (t & Ht & _). lia.
  - apply sameval_refl.
  - reflexivity.
  - now left.
  - apply first_min_empty.
  - assert (r = 0%nat) as -> by lia.
    rewrite bind_run. unfold scalar_tail. rewrite for_loop_empty by lia. cbn [fst snd].
    reflexivity.
Qed.

Lemma index_min_zero v st :
  exec (index_min v 0) st =
  mkState (upd (mem st) Target 0%nat 0) (Wr Target 0%nat :: Rd Source 0%nat :: trace st).
Proof.
  destruct v; cbn [index_min].
  - reflexivity.
  - rewrite a_avx_simd. apply index_min_simd_zero. now right.
  - rewrite a_sse4_1_simd. apply index_min_simd_zero. now left.
  - rewrite a_sse_simd. apply index_min_simd_zero. now left.
  - rewrite u_avx_simd. apply index_min_simd_zero. now right.
Qed.

Lemma tr_ret {A} P (a : A) (Q : A -> Prop) : Q a -> tr P (ret a) Q.
Proof. intros H st0 st E. now split. Qed.

Lemma tr_bind {A B} P (c : M A) (k : A -> M B) Q1 Q2 :
  tr P c Q1 -> (forall a, Q1 a -> tr P (k a) Q2) -> tr P (bind c k) Q2.
Proof.
  intros Hc Hk st0 st E. rewrite bind_run.
  destruct (Hc st0 st E) as [Ha E']. now apply Hk.
Qed.

Lemma tr_weaken {A} P (c : M A) (Q Q' : A -> Prop) :
  tr P c Q -> (forall a, Q a -> Q' a) -> tr P c Q'.
Proof. intros H HQ st0 st E. destruct (H st0 st E). split; auto. Qed.

Lemma tr_load P b i : P (Rd b i) -> tr P (load b i) (fun _ => True).
Proof.
  intros H st0 st E. split; [exact I|]. unfold load. cbn [snd].
  now apply extends_cons.
Qed.

Lemma tr_store P b i v : P (Wr b i) -> tr P (store b i v) (fun _ => True).
Proof.
  intros H st0 st E. split; [exact I|]. unfold store. cbn [snd].
  now apply extends_cons.
Qed.

Lemma tr_load_words P b n : forall p,
  (forall l, (l < n)%nat -> P (Rd b (p + l)%nat)) ->
  tr P (load_words b p n) (fun v => length v = n).
Proof.
  induction n as [|n IH]; intros p H.
  - apply tr_ret. reflexivity.
  - cbn [load_words]. eapply tr_bind.
    + apply tr_load. specialize (H 0%nat). rewrite Nat.add_0_r in H. apply H. lia.
    + intros x _. eapply tr_bind.
      * apply IH. intros l Hl. specialize (H (Datatypes.S l)).
        replace (Datatypes.S p + l)%nat with (p + Datatypes.S l)%nat by lia. apply H. lia.
      * intros xs Hxs. apply tr_ret. cbn [length]. now rewrite Hxs.
Qed.

Lemma tr_store_words P b v : forall p,
  (forall l, (l < length v)%nat -> P (Wr b (p + l)%nat)) ->
  tr P (store_words b p v) (fun _ => True).
Proof.
  induction v as [|x v IH]; intros p H.
  - now apply tr_ret.
  - cbn [store_words]. eapply tr_bind.
    + apply tr_store. specialize (H 0%nat). rewrite Nat.add_0_r in H. apply H. cbn [length]. lia.
    + intros _ _. apply IH. intros l Hl. specialize (H (Datatypes.S l)).
      replace (Datatypes.S p + l)%nat with (p + Datatypes.S l)%nat by lia. apply H.
      cbn [length]. lia.
Qed.

Lemma tr_for_range {S} P (J : nat -> S -> Prop) (body : nat -> S -> M S) count :
  forall start s,
  J start s ->
  (forall i s, (start <= i < start + count)%nat -> J i s -> tr P (body i s) (J (Datatypes.S i))) ->
  tr P (for_range start count body s) (J (start + count)%nat).
Proof.
  induction count as [|c IH]; intros start s H0 Hstep.
  - cbn [for_range]. apply tr_ret. now rewrite Nat.add_0_r.
  - cbn [for_range]. eapply tr_bind.
    + apply Hstep; [lia|exact H0].
    + intros s' Hs'. replace (start + Datatypes.S c)%nat with (Datatypes.S start + c)%nat by lia.
      apply IH; [assumption|]. intros i s'' Hi. apply Hstep. lia.
Qed.

(** A loop from 0 whose invariant counts the iterations. *)
Lemma tr_for_loop0 {S} P (J : nat -> S -> Prop) (body : nat -> S -> M S) hi s :
  J 0%nat s ->
  (forall i s, (i < hi)%nat -> J i s -> tr P (body i s) (J (Datatypes.S i))) ->
  tr P (for_loop 0 hi body s) (J hi).
Proof.
  intros H0 Hstep. unfold for_loop. rewrite Nat.sub_0_r.
  change hi with (0 + hi)%nat at 2. apply tr_for_range; [assumption|].
  intros i s' Hi. apply Hstep. lia.
Qed.

Lemma tr_exec {A} P (c : M A) Q st :
  tr P c Q -> exists evs, trace (exec c st) = evs ++ trace st /\ Forall P evs.
Proof. intro H. exact (proj2 (H st st (extends_refl P st))). Qed.

Lemma land_1 x : Z.land x 1 = x mod 2.
Proof. change 1 with (Z.ones 1). now rewrite Z.land_ones by lia. Qed.
Lemma land_3 x : Z.land x 3 = x mod 4.
Proof. change 3 with (Z.ones 2). now rewrite Z.land_ones by lia. Qed.

Lemma tr_load_complex P b k :
  P (Rd b (2 * k)%nat) -> P (Rd b (2 * k + 1)%nat) -> tr P (load_complex b k) (fun _ => True).
Proof.
  intros H1 H2. unfold load_complex. eapply tr_bind; [now apply tr_load|].
  intros re _. eapply tr_bind; [now apply tr_load|]. intros im _. now apply tr_ret.
Qed.

Lemma tr_calculate_scaled_distances P fp target symbol points scalar num_points :
  (forall k, (k < Z.to_nat num_points)%nat ->
     P (Rd Points (2 * (points + k))%nat) /\ P (Rd Points (2 * (points + k) + 1)%nat) /\
     P (Wr Target (target + k)%nat)) ->
  tr P (calculate_scaled_distances fp target symbol points scalar num_points) (fun _ => True).
Proof.
  intro H. unfold calculate_scaled_distances. eapply tr_bind.
  - apply (tr_for_loop0 P (fun i s => s = ((target + i)%nat, (points + i)%nat))).
    + now rewrite !Nat.add_0_r.
    + intros i s Hi ->. destruct (H i Hi) as (H1 & H2 & H3).
      eapply tr_bind; [now apply tr_load_complex|]. intros p _.
      eapply tr_bind; [now apply tr_store|]. intros _ _.
      apply tr_ret. f_equal; lia.
  - intros _ _. now apply tr_ret.
Qed.

Lemma sse3_counts N :
  4 <= N < 4294967296 ->
  let num_bytes := uint32 (N * 8) in
  let bound := Z.shiftr num_bytes 5 in
  let leftovers0 := Z.land (Z.shiftr num_bytes 4) 1 in
  let leftovers1 := Z.land (Z.shiftr num_bytes 3) 1 in
  0 <= bound /\ 0 <= leftovers0 <= 1 /\ 0 <= leftovers1 <= 1 /\
  4 * Z.max bound 1 + 2 * leftovers0 + leftovers1 <= N.
Proof.
  intro H. cbv zeta. unfold uint32. rewrite !land_1, !Z.shiftr_div_pow2 by lia.
  change (2 ^ 5) with 32. change (2 ^ 4) with 16. change (2 ^ 3) with 8.
  Z.div_mod_to_equations. lia.
Qed.

Lemma sse3_in_bounds fp scalar N :
  4 <= N < 4294967296 ->
  tr (sd_in_bounds N)
     (volk_32fc_x2_s32f_square_dist_scalar_mult_32f_a_sse3 fp scalar N) (fun _ => True).
Proof.
  intro HN. pose proof (sse3_counts N HN) as C. cbv zeta in C.
  unfold volk_32fc_x2_s32f_square_dist_scalar_mult_32f_a_sse3. cbv zeta.
  set (bound := Z.shiftr (uint32 (N * 8)) 5) in *.
  set (l0 := Z.land (Z.shiftr (uint32 (N * 8)) 4) 1) in *.
  set (l1 := Z.land (Z.shiftr (uint32 (N * 8)) 3) 1) in *.
  destruct C as (Hb & Hl0 & Hl1 & Hsum).
  set (P := sd_in_bounds N).
  eapply tr_bind.
  { unfold _mm_loadl_pi. eapply tr_bind.
    - apply tr_load_words. intros l Hl. cbn. lia.
    - intros lo _. apply (tr_ret _ _ (fun _ => True)). exact I. }
  intros xmm1 _. eapply tr_bind.
  { apply tr_load_words. intros l Hl. cbn [P sd_in_bounds]. lia. }
  intros xmm2 _. eapply tr_bind.
  { apply tr_load_words. intros l Hl. cbn [P sd_in_bounds]. lia. }
  intros xmm3 _. eapply tr_bind.
  { apply (tr_for_loop0 P (fun i s => fst (fst (fst s)) = (4 * i)%nat /\
                                       snd (fst (fst s)) = (4 * i)%nat)).
    - split; reflexivity.
    - intros i [[[t p] x2] x3] Hi [Ht Hp]. cbn [fst snd] in Ht, Hp. subst t p.
      eapply tr_bind.
      { apply tr_load_words. intros l Hl. cbn [P sd_in_bounds]. lia. }
      intros x2' _. eapply tr_bind.
      { apply tr_load_words. intros l Hl. cbn [P sd_in_bounds]. lia. }
      intros x3' _. eapply tr_bind.
      { apply tr_store_words. intros l Hl. cbn in Hl. cbn [P sd_in_bounds]. lia. }
      intros _ _. apply tr_ret. cbn [fst snd]. split; lia. }
  intros [[[t p] x2] x3] [Ht Hp]. cbn [fst snd] in Ht, Hp. subst t p.
  set (c := Z.to_nat (bound - 1)).
  assert (Hc : Z.of_nat (4 * c + 4) = 4 * Z.max bound 1) by (unfold c; lia).
  eapply tr_bind.
  { apply tr_store_words. intros l Hl. cbn in Hl. cbn [P sd_in_bounds]. lia. }
  intros _ _. eapply tr_bind.
  { apply (tr_for_loop0 P (fun i s => s = ((4 * c + 4 + 2 * i)%nat, (4 * c + 4 + 2 * i)%nat))).
    - f_equal; lia.
    - intros i s Hi ->. eapply tr_bind.
      { apply tr_load_words. intros l Hl. cbn [P sd_in_bounds]. lia. }
      intros x _. eapply tr_bind.
      { apply tr_store_words. intros l Hl. cbn in Hl. cbn [P sd_in_bounds]. lia. }
      intros _ _. apply tr_ret. f_equal; lia. }
  intros s ->. eapply tr_bind.
  { apply tr_load_complex; cbn; lia. }
  intros symbol _.
  apply tr_calculate_scaled_distances. intros k Hk. cbn [P sd_in_bounds]. lia.
Qed.

Lemma upd_same m b i v : upd m b i v b i = v.
Proof. unfold upd. rewrite Nat.eqb_refl. now destruct b. Qed.

Lemma upd_other_index m b i v j : i <> j -> upd m b i v b j = m b j.
Proof.
  intro H. unfold upd. destruct (Nat.eqb_spec i j); [contradiction|].
  now rewrite andb_false_r.
Qed.

Lemma upd_other_buffer m b i v b' j : b' <> b -> upd m b i v b' j = m b' j.
Proof. intro H. unfold upd. destruct b, b'; try reflexivity; contradiction. Qed.

Lemma puppet_loop (f : Z -> Z) (n : nat) st0 :
  puppet_post f st0 n
    (snd (for_loop 0 n (fun ii (_ : unit) =>
            value <- load InVector ii ;; store OutVector ii (f value)) tt st0)).
Proof.
  apply (for_loop_ind (fun i (_ : unit) st => puppet_post f st0 i st)); [lia| |].
  - repeat split; intros; try reflexivity; lia.
  - intros i [] st Hi (H1 & H2 & H3 & H4). rewrite bind_load. unfold store, puppet_post. cbn [snd mem trace].
    split; [|split; [|split]].
    + intros j Hj. destruct (Nat.eq_dec i j) as [<-|Hne].
      * rewrite upd_same. f_equal. apply H3. discriminate.
      * rewrite upd_other_index by assumption. apply H1. lia.
    + intros j Hj. rewrite upd_other_index by lia. apply H2. lia.
    + intros b j Hb. rewrite upd_other_buffer by assumption. now apply H3.
    + rewrite H4, seq_S, flat_map_app, rev_app_distr. reflexivity.
Qed.

Lemma preserves_ret {A} b (a : A) : preserves b (ret a).
Proof. intros st i. reflexivity. Qed.

Lemma preserves_bind {A B} b (c : M A) (k : A -> M B) :
  preserves b c -> (forall a, preserves b (k a)) -> preserves b (bind c k).
Proof. intros Hc Hk st i. rewrite bind_run, Hk. apply Hc. Qed.

Lemma preserves_load b b' i : preserves b (load b' i).
Proof. intros st j. reflexivity. Qed.

Lemma preserves_store b b' i v : b <> b' -> preserves b (store b' i v).
Proof. intros H st j. unfold store. cbn [snd mem]. now apply upd_other_buffer. Qed.

Lemma preserves_load_words b b' n : forall p, preserves b (load_words b' p n).
Proof.
  induction n as [|n IH]; intro p; [apply preserves_ret|].
  cbn [load_words]. apply preserves_bind; [apply preserves_load|]. intro x.
  apply preserves_bind; [apply IH|]. intro xs. apply preserves_ret.
Qed.

Lemma preserves_store_words b b' v : b <> b' -> forall p, preserves b (store_words b' p v).
Proof.
  intro H. induction v as [|x v IH]; intro p; [apply preserves_ret|].
  cbn [store_words]. apply preserves_bind; [now apply preserves_store|]. intros _. apply IH.
Qed.

Lemma preserves_for_range {S} b (body : nat -> S -> M S) count :
  (forall i s, preserves b (body i s)) ->
  forall start s, preserves b (for_range start count body s).
Proof.
  intro H. induction count as [|c IH]; intros start s; [apply preserves_ret|].
  cbn [for_range]. apply preserves_bind; [apply H|]. intro s'. apply IH.
Qed.

Lemma preserves_for_loop {S} b (body : nat -> S -> M S) lo hi s :
  (forall i s, preserves b (body i s)) -> preserves b (for_loop lo hi body s).
Proof. intro H. unfold for_loop. now apply preserves_for_range. Qed.

Lemma preserves_load_complex b b' k : preserves b (load_complex b' k).
Proof.
  unfold load_complex. apply preserves_bind; [apply preserves_load|]. intro re.
  apply preserves_bind; [apply preserves_load|]. intro im. apply preserves_ret.
Qed.

Lemma preserves_calculate_scaled_distances b fp target symbol points scalar num_points :
  b <> Target ->
  preserves b (calculate_scaled_distances fp target symbol points scalar num_points).
Proof.
  intro H. unfold calculate_scaled_distances.
  apply preserves_bind; [|intro; apply preserves_ret].
  apply preserves_for_loop. intros i [t p].
  apply preserves_bind; [apply preserves_load_complex|]. intro c.
  apply preserves_bind; [now apply preserves_store|]. intros _. apply preserves_ret.
Qed.

(** Discharges [preserves] goals of straight-line kernel code. *)
Ltac preserves_tac :=
  repeat first
    [ apply preserves_ret
    | apply preserves_load
    | apply preserves_load_words
    | apply preserves_load_complex
    | apply preserves_store; discriminate
    | apply preserves_store_words; discriminate
    | apply preserves_calculate_scaled_distances; discriminate
    | apply preserves_bind; [|intro]
    | apply preserves_for_loop; intros ? ?
    | match goal with
      | |- preserves _ (match ?x with _ => _ end) => destruct x
      | |- preserves _ (if ?x then _ else _) => destruct x
      end
    | progress cbv zeta ].

Lemma SFmul_comm p e x y : SFmul p e x y = SFmul p e y x.
Proof.
  destruct x as [sx|sx| |sx mx ex], y as [sy|sy| |sy my ey]; cbn [SFmul];
    try reflexivity; try (now rewrite xorb_comm).
  now rewrite xorb_comm, Pos.mul_comm, Z.add_comm.
Qed.

Lemma f32_mul_comm a b : F32.mul a b = F32.mul b a.
Proof. unfold F32.mul. now rewrite SFmul_comm. Qed.

Lemma buffer_eqb_spec a b : reflect (a = b) (buffer_eqb a b).
Proof. destruct a, b; constructor; congruence. Qed.

Lemma sd_done_inputs scalar m0 t p n b i : b <> Target -> sd_done scalar m0 t p n b i = m0 b i.
Proof.
  intro H. unfold sd_done. destruct (buffer_eqb_spec Target b); [congruence|reflexivity].
Qed.

Lemma sd_done_0 scalar m0 t p b i : sd_done scalar m0 t p 0 b i = m0 b i.
Proof.
  unfold sd_done. destruct (Nat.leb_spec t i), (Nat.ltb_spec i (t + 0)); try lia;
    now rewrite ?andb_false_r.
Qed.

Lemma store_words_mem b v : forall p st b' i,
  mem (snd (store_words b p v st)) b' i =
  if buffer_eqb b b' && (p <=? i)%nat && (i <? p + length v)%nat
  then nth (i - p) v 0 else mem st b' i.
Proof.
  induction v as [|x v IH]; intros p st b' i.
  - cbn [store_words ret snd length].
    destruct (Nat.leb_spec p i), (Nat.ltb_spec i (p + 0)); try lia; now rewrite ?andb_false_r.
  - cbn [store_words]. rewrite bind_store, IH. cbn [mem length].
    destruct (buffer_eqb_spec b b') as [<-|Hb]; cbn [andb].
    + destruct (Nat.eq_dec i p) as [->|Hne].
      * rewrite upd_same, Nat.sub_diag.
        destruct (Nat.leb_spec (Datatypes.S p) p), (Nat.leb_spec p p),
          (Nat.ltb_spec p (p + Datatypes.S (length v))); try lia.
        cbn [andb]. reflexivity.
      * rewrite upd_other_index by lia.
        destruct (Nat.leb_spec (Datatypes.S p) i), (Nat.ltb_spec i (Datatypes.S p + length v)),
          (Nat.leb_spec p i), (Nat.ltb_spec i (p + Datatypes.S (length v))); try lia;
          cbn [andb]; try reflexivity.
        replace (i - p)%nat with (Datatypes.S (i - Datatypes.S p)) by lia. reflexivity.
    + now apply upd_other_buffer.
Qed.

(** Storing the next [length v] results extends what has been processed. *)
Lemma sd_done_store_words scalar m0 t p n v st :
  (forall b i, mem st b i = sd_done scalar m0 t p n b i) ->
  (forall j, (j < length v)%nat ->
     nth j v 0 = sd_value scalar (complex_at m0 Src0 0) (complex_at m0 Points (p + n + j))) ->
  forall b i, mem (snd (store_words Target (t + n) v st)) b i =
              sd_done scalar m0 t p (n + length v) b i.
Proof.
  intros Hm Hv b i. rewrite store_words_mem, Hm. unfold sd_done.
  destruct (buffer_eqb_spec Target b) as [<-|Hb]; cbn [andb]; [|reflexivity].
  destruct (Nat.leb_spec (t + n) i), (Nat.ltb_spec i (t + n + length v)),
    (Nat.leb_spec t i), (Nat.ltb_spec i (t + n)), (Nat.ltb_spec i (t + (n + length v)));
    try lia; cbn [andb]; try reflexivity.
  rewrite Hv by lia. do 2 f_equal. lia.
Qed.

Lemma sd_done_store scalar m0 t p n x st :
  (forall b i, mem st b i = sd_done scalar m0 t p n b i) ->
  x = sd_value scalar (complex_at m0 Src0 0) (complex_at m0 Points (p + n)) ->
  forall b i, mem (snd (store Target (t + n) x st)) b i =
              sd_done scalar m0 t p (n + 1) b i.
Proof.
  intros Hm Hx b i.
  assert (E := sd_done_store_words scalar m0 t p n [x] st Hm).
  cbn [store_words length] in E. rewrite bind_store in E. unfold ret in E. cbn [snd] in E.
  unfold store. cbn [snd]. apply E. intros j Hj. assert (j = 0)%nat as -> by lia.
  cbn [nth]. rewrite Hx. do 2 f_equal. lia.
Qed.

Lemma load_complex_run b k st :
  load_complex b k st =
  (complex_at (mem st) b k,
   mkState (mem st) (Rd b (2 * k + 1)%nat :: Rd b (2 * k)%nat :: trace st)).
Proof. reflexivity. Qed.

Lemma sd_tail_inputs fp scalar m0 nv ns b i : b <> Target -> sd_tail fp scalar m0 nv ns b i = m0 b i.
Proof.
  intro H. unfold sd_tail. destruct (buffer_eqb_spec Target b); [congruence|].
  now apply sd_done_inputs.
Qed.

Lemma sd_tail_0 fp scalar m0 nv b i : sd_tail fp scalar m0 nv 0 b i = sd_done scalar m0 0 0 nv b i.
Proof.
  unfold sd_tail. destruct (Nat.leb_spec nv i), (Nat.ltb_spec i (nv + 0)); try lia;
    now rewrite ?andb_false_r.
Qed.

Lemma sd_tail_separate scalar m0 nv ns b i :
  sd_tail Separate scalar m0 nv ns b i = sd_done scalar m0 0 0 (nv + ns) b i.
Proof.
  unfold sd_tail, sd_done. destruct (buffer_eqb_spec Target b) as [<-|Hb]; cbn [andb];
    [|reflexivity].
  destruct (Nat.leb_spec nv i), (Nat.ltb_spec i (nv + ns)), (Nat.ltb_spec i (0 + nv)),
    (Nat.ltb_spec i (0 + (nv + ns))); try lia; cbn [andb Nat.leb]; try reflexivity.
  now rewrite Nat.add_0_l, Nat.sub_0_r.
Qed.

(** [calculate_scaled_distances] processes [num_points] points. *)
Lemma calculate_scaled_distances_mem fp scalar m0 n0 num_points st :
  (forall b i, mem st b i = sd_done scalar m0 0 0 n0 b i) ->
  forall b i,
  mem (snd (calculate_scaled_distances fp n0 (complex_at m0 Src0 0) n0
              scalar num_points st)) b i =
  sd_tail fp scalar m0 n0 (Z.to_nat num_points) b i.
Proof.
  intros Hm. unfold calculate_scaled_distances. rewrite bind_run. unfold ret. cbn [snd].
  set (body := fun (i : nat) '(target, points) => _).
  apply (for_loop_ind
    (fun k (s : nat * nat) st' =>
       s = ((n0 + k)%nat, (n0 + k)%nat) /\
       forall b i, mem st' b i = sd_tail fp scalar m0 n0 k b i) body); [lia| |].
  - split; [f_equal; lia|]. intros b i. rewrite sd_tail_0. apply Hm.
  - intros k s st' Hk [-> Hst]. unfold body. rewrite bind_run, load_complex_run.
    cbn [fst snd]. rewrite bind_run. unfold ret. cbn [fst snd]. split; [f_equal; lia|].
    intros b i. unfold store. cbn [snd mem]. unfold upd.
    assert (Ep : complex_at (mem st') Points (n0 + k) = complex_at m0 Points (n0 + k))
      by (unfold complex_at; now rewrite !Hst, !sd_tail_inputs by discriminate).
    rewrite Ep, Hst. unfold sd_tail, sd_value_fc.
    destruct (buffer_eqb_spec Target b) as [<-|Hb]; cbn [andb]; [|reflexivity].
    destruct (Nat.eqb_spec (n0 + k) i) as [<-|Hne].
    + destruct (Nat.leb_spec n0 (n0 + k)), (Nat.ltb_spec (n0 + k) (n0 + Datatypes.S k));
        try lia. reflexivity.
    + destruct (Nat.leb_spec n0 i), (Nat.ltb_spec i (n0 + Datatypes.S k)),
        (Nat.ltb_spec i (n0 + k)); try lia; reflexivity.
Qed.

(** Loads in a store where only [Target] has been written. *)
Lemma load_words_sd scalar m0 t p n b q w st :
  (forall b i, mem st b i = sd_done scalar m0 t p n b i) -> b <> Target ->
  fst (load_words b q w st) = words m0 b q w /\
  forall b' i, mem (snd (load_words b q w st)) b' i = sd_done scalar m0 t p n b' i.
Proof.
  intros Hm Hb. rewrite load_words_run. cbn [fst snd mem]. split; [|exact Hm].
  unfold words. apply map_ext. intro l. rewrite Hm. now apply sd_done_inputs.
Qed.

#[local] Opaque F32.mul F32.add F32.sub.

(** The distance as the vector code computes it: the scalar factor last. *)
Lemma sd_value_vector scalar s re im :
  F32.mul (F32.add (F32.mul (F32.sub (fst s) re) (F32.sub (fst s) re))
                   (F32.mul (F32.sub (snd s) im) (F32.sub (snd s) im))) scalar =
  sd_value scalar s (re, im).
Proof. unfold sd_value. rewrite f32_mul_comm. reflexivity. Qed.

Lemma avx2_block8 scalar s a0 a1 a2 a3 a4 a5 a6 a7 b0 b1 b2 b3 b4 b5 b6 b7 :
  let xmm1 := bcast8 s in
  let xmm2 := [a0; a1; a2; a3; a4; a5; a6; a7] in
  let xmm3 := [b0; b1; b2; b3; b4; b5; b6; b7] in
  _mm256_mul_ps
    (_mm256_permutevar8x32_ps
       (_mm256_hadd_ps (_mm256_mul_ps (_mm256_sub_ps xmm1 xmm2) (_mm256_sub_ps xmm1 xmm2))
                       (_mm256_mul_ps (_mm256_sub_ps xmm1 xmm3) (_mm256_sub_ps xmm1 xmm3)))
       avx2_idx)
    (_mm256_set1_ps scalar) =
  [sd_value scalar s (a0, a1); sd_value scalar s (a2, a3);
   sd_value scalar s (a4, a5); sd_value scalar s (a6, a7);
   sd_value scalar s (b0, b1); sd_value scalar s (b2, b3);
   sd_value scalar s (b4, b5); sd_value scalar s (b6, b7)].
Proof. cbv zeta. rewrite <- !sd_value_vector. reflexivity. Qed.

Lemma avx2_block4 scalar s a0 a1 a2 a3 a4 a5 a6 a7 :
  let xmm1 := bcast8 s in
  let xmm2 := [a0; a1; a2; a3; a4; a5; a6; a7] in
  _mm256_extractf128_ps
    (_mm256_mul_ps
       (_mm256_permutevar8x32_ps
          (_mm256_hadd_ps (_mm256_mul_ps (_mm256_sub_ps xmm1 xmm2) (_mm256_sub_ps xmm1 xmm2))
                          (_mm256_mul_ps (_mm256_sub_ps xmm1 xmm2) (_mm256_sub_ps xmm1 xmm2)))
          avx2_idx)
       (_mm256_set1_ps scalar)) 1 =
  [sd_value scalar s (a0, a1); sd_value scalar s (a2, a3);
   sd_value scalar s (a4, a5); sd_value scalar s (a6, a7)].
Proof. cbv zeta. rewrite <- !sd_value_vector. reflexivity. Qed.

Lemma sse_block2 scalar s a0 a1 a2 a3 :
  let xmm0 := bcast4 s in
  let xmm9 := [a0; a1; a2; a3] in
  let xmm10 :=
    _mm_mul_ps (_mm_hadd_ps (_mm_mul_ps (_mm_sub_ps xmm0 xmm9) (_mm_sub_ps xmm0 xmm9))
                            (_mm_mul_ps (_mm_sub_ps xmm0 xmm9) (_mm_sub_ps xmm0 xmm9)))
               (repeat scalar 4) in
  [lane xmm10 2; lane xmm10 3] = [sd_value scalar s (a0, a1); sd_value scalar s (a2, a3)].
Proof. cbv zeta. rewrite <- !sd_value_vector. reflexivity. Qed.

#[local] Opaque F32.mul F32.add F32.sub.

(** Solves [nth j v 0 = sd_value ...] for each lane [j] of an explicit block. *)
Ltac lane_case j :=
  destruct j as [|j]; [cbn [nth]; unfold complex_at; do 2 f_equal; f_equal; lia|].

Tactic Notation "lanes_tac" integer(n) :=
  let j := fresh "j" in let Hj := fresh "Hj" in
  intros j Hj; cbn [length] in Hj; do n (lane_case j); exfalso; lia.

Lemma avx2_main_step scalar m0 k s st :
  main_inv scalar m0 k s st ->
  main_inv scalar m0 (Datatypes.S k)
    (fst (avx2_main_body (bcast8 (complex_at m0 Src0 0)) (_mm256_set1_ps scalar) avx2_idx k s st))
    (snd (avx2_main_body (bcast8 (complex_at m0 Src0 0)) (_mm256_set1_ps scalar) avx2_idx k s st)).
Proof.
  destruct s as [[[t p] x2] x3]. intros (-> & -> & -> & -> & Hm).
  unfold avx2_main_body. cbv zeta. unfold _mm256_load_ps, _mm256_store_ps.
  destruct (load_words_sd scalar m0 0 0 (8 * k) Points (2 * (8 * k + 8 + 0)) 8 st Hm
              ltac:(discriminate)) as [E1 M1].
  destruct (load_words_sd scalar m0 0 0 (8 * k) Points (2 * (8 * k + 8 + 4)) 8 _ M1
              ltac:(discriminate)) as [E2 M2].
  rewrite !bind_run. unfold ret. cbn [fst snd]. unfold vec in *. rewrite E1, E2.
  split; [lia|]. split; [lia|]. split; [f_equal; lia|]. split; [f_equal; lia|].
  unfold words at 1 2 3 4. cbn [map seq]. rewrite avx2_block8.
  replace (8 * Datatypes.S k)%nat with (8 * k + 8)%nat by lia.
  change (8 * k)%nat with (0 + 8 * k)%nat at 1.
  apply sd_done_store_words; [exact M2|].
  lanes_tac 8.
Qed.

Lemma avx2_main_loop scalar m0 bound x2 x3 st :
  (forall b i, mem st b i = m0 b i) ->
  x2 = words m0 Points 0 8 -> x3 = words m0 Points 8 8 ->
  main_inv scalar m0 bound
    (fst (for_loop 0 bound
            (avx2_main_body (bcast8 (complex_at m0 Src0 0)) (_mm256_set1_ps scalar) avx2_idx)
            (0%nat, 0%nat, x2, x3) st))
    (snd (for_loop 0 bound
            (avx2_main_body (bcast8 (complex_at m0 Src0 0)) (_mm256_set1_ps scalar) avx2_idx)
            (0%nat, 0%nat, x2, x3) st)).
Proof.
  intros Hm -> ->. apply (for_loop_ind (main_inv scalar m0)); [lia| |].
  - split; [reflexivity|]. split; [reflexivity|]. split; [reflexivity|]. split; [reflexivity|].
    intros b i. rewrite sd_done_0. apply Hm.
  - intros k s st' _ H. now apply avx2_main_step.
Qed.

Lemma avx2_left0_step scalar m0 n0 k s st :
  block_inv scalar m0 n0 4 k s st ->
  block_inv scalar m0 n0 4 (Datatypes.S k)
    (fst (avx2_left0_body (bcast8 (complex_at m0 Src0 0)) (_mm256_set1_ps scalar) avx2_idx k s st))
    (snd (avx2_left0_body (bcast8 (complex_at m0 Src0 0)) (_mm256_set1_ps scalar) avx2_idx k s st)).
Proof.
  intros [-> Hm]. unfold avx2_left0_body. cbv zeta. unfold _mm256_load_ps, _mm_store_ps.
  destruct (load_words_sd scalar m0 0 0 (n0 + 4 * k) Points (2 * (n0 + 4 * k + 0)) 8 st Hm
              ltac:(discriminate)) as [E1 M1].
  rewrite !bind_run. unfold ret. cbn [fst snd]. unfold vec in *. rewrite E1.
  split; [f_equal; lia|].
  unfold words. cbn [map seq]. rewrite avx2_block4.
  replace (n0 + 4 * Datatypes.S k)%nat with (n0 + 4 * k + 4)%nat by lia.
  change (n0 + 4 * k)%nat with (0 + (n0 + 4 * k))%nat at 1.
  apply sd_done_store_words; [exact M1|].
  lanes_tac 4.
Qed.

Lemma avx2_left1_step scalar m0 n0 k s st :
  block_inv scalar m0 n0 2 k s st ->
  block_inv scalar m0 n0 2 (Datatypes.S k)
    (fst (avx2_left1_body (bcast4 (complex_at m0 Src0 0)) (repeat scalar 4) k s st))
    (snd (avx2_left1_body (bcast4 (complex_at m0 Src0 0)) (repeat scalar 4) k s st)).
Proof.
  intros [-> Hm]. unfold avx2_left1_body. cbv zeta. unfold _mm_load_ps, _mm_storeh_pi.
  destruct (load_words_sd scalar m0 0 0 (n0 + 2 * k) Points (2 * (n0 + 2 * k + 0)) 4 st Hm
              ltac:(discriminate)) as [E1 M1].
  rewrite !bind_run. unfold ret. cbn [fst snd]. unfold vec in *. rewrite E1.
  split; [f_equal; lia|].
  unfold words. cbn [map seq]. rewrite sse_block2.
  replace (n0 + 2 * Datatypes.S k)%nat with (n0 + 2 * k + 2)%nat by lia.
  change (n0 + 2 * k)%nat with (0 + (n0 + 2 * k))%nat at 1.
  apply sd_done_store_words; [exact M1|].
  lanes_tac 2.
Qed.

Lemma block_loop scalar m0 n0 w (body : nat -> nat * nat -> M (nat * nat)) count st :
  (forall k s st, block_inv scalar m0 n0 w k s st ->
     block_inv scalar m0 n0 w (Datatypes.S k) (fst (body k s st)) (snd (body k s st))) ->
  (forall b i, mem st b i = sd_done scalar m0 0 0 n0 b i) ->
  block_inv scalar m0 n0 w count
    (fst (for_loop 0 count body (n0, n0) st)) (snd (for_loop 0 count body (n0, n0) st)).
Proof.
  intros Hstep Hm. apply (for_loop_ind (block_inv scalar m0 n0 w)); [lia| |].
  - split; [f_equal; lia|]. intros b i. rewrite Nat.mul_0_r, Nat.add_0_r. apply Hm.
  - intros k s st' _ H. now apply Hstep.
Qed.

#[local] Opaque F32.mul F32.add F32.sub.

Lemma permute_68 a b c d : _mm_permute_ps [a; b; c; d] 68 = bcast4 (a, b).
Proof. reflexivity. Qed.

Lemma insert_bcast s :
  _mm256_insertf128_ps (_mm256_insertf128_ps _mm256_setzero_ps (bcast4 s) 0) (bcast4 s) 1
  = bcast8 s.
Proof. reflexivity. Qed.

Lemma avx2_shape_mem suffix (Res : memory -> nat -> memory) scalar num_points st :
  (forall m0 n0 st',
     (forall b i, mem st' b i = sd_done scalar m0 0 0 n0 b i) ->
     forall b i,
       mem (snd (suffix (uint32 (num_points * 8)) (bcast4 (complex_at m0 Src0 0)) n0 n0 st')) b i
       = Res m0 n0 b i) ->
  forall b i,
  mem (exec (avx2_shape suffix scalar num_points) st) b i =
  Res (mem st)
    (8 * Z.to_nat (Z.shiftr (uint32 (num_points * 8)) 6)
     + 4 * Z.to_nat (Z.land (Z.shiftr (uint32 (num_points * 8)) 5) 1))%nat b i.
Proof.
  intros Hsuf. unfold exec, avx2_shape. cbv zeta.
  set (bound := Z.to_nat (Z.shiftr (uint32 (num_points * 8)) 6)).
  set (l0 := Z.to_nat (Z.land (Z.shiftr (uint32 (num_points * 8)) 5) 1)).
  set (m0 := mem st).
  unfold _mm256_load_ps, _mm_load_ps.
  rewrite bind_run, load_words_run. cbn [fst snd].
  rewrite bind_run, load_words_run. cbn [fst snd mem].
  rewrite bind_run, load_words_run. cbn [fst snd mem].
  cbn [map seq]. rewrite permute_68, insert_bcast.
  fold m0. change (m0 Src0 (0 + 0)%nat, m0 Src0 (0 + 1)%nat) with (complex_at m0 Src0 0).
  rewrite bind_run.
  match goal with
  | |- context [for_loop 0 bound ?body ?init ?s] =>
      assert (L : main_inv scalar m0 bound (fst (for_loop 0 bound body init s))
                                           (snd (for_loop 0 bound body init s)))
        by (apply avx2_main_loop; reflexivity);
      set (R := for_loop 0 bound body init s) in *; clearbody R;
      destruct R as [[[[t p] x2] x3] st1]
  end.
  cbn [fst snd] in *. unfold main_inv in L. destruct L as (-> & -> & _ & _ & M1).
  rewrite bind_run.
  match goal with
  | |- context [for_loop 0 l0 ?body ?init ?s] =>
      assert (L : block_inv scalar m0 (8 * bound) 4 l0 (fst (for_loop 0 l0 body init s))
                                                      (snd (for_loop 0 l0 body init s)))
        by (apply block_loop; [apply avx2_left0_step|exact M1]);
      set (R := for_loop 0 l0 body init s) in *; clearbody R;
      destruct R as [[t p] st2]
  end.
  cbn [fst snd] in *. destruct L as [E M2]. injection E as -> ->.
  intros b i. rewrite (Hsuf m0 _ st2 M2). reflexivity.
Qed.

#[local] Opaque F32.mul F32.add F32.sub.

Lemma a_avx2_shape fp scalar num_points :
  volk_32fc_x2_s32f_square_dist_scalar_mult_32f_a_avx2 fp scalar num_points =
  avx2_shape (a_avx2_suffix fp scalar) scalar num_points.
Proof. reflexivity. Qed.

Lemma u_avx2_shape fp scalar num_points :
  volk_32fc_x2_s32f_square_dist_scalar_mult_32f_u_avx2 fp scalar num_points =
  avx2_shape (u_avx2_suffix fp scalar) scalar num_points.
Proof. reflexivity. Qed.

Lemma load_complex_sd scalar m0 t p n st :
  (forall b i, mem st b i = sd_done scalar m0 t p n b i) ->
  fst (load_complex Src0 0 st) = complex_at m0 Src0 0 /\
  forall b i, mem (snd (load_complex Src0 0 st)) b i = sd_done scalar m0 t p n b i.
Proof.
  intro Hm. rewrite load_complex_run. cbn [fst snd mem]. split; [|exact Hm].
  unfold complex_at. now rewrite !Hm, !sd_done_inputs by discriminate.
Qed.

(** [symbol <- src0[0]; calculate_scaled_distances (..., symbol, ...)] after
    [n0] processed points. *)
Lemma scalar_suffix_mem fp scalar m0 n0 count st :
  (forall b i, mem st b i = sd_done scalar m0 0 0 n0 b i) ->
  forall b i,
  mem (snd ((symbol <- load_complex Src0 0 ;;
             calculate_scaled_distances fp n0 symbol n0 scalar count) st)) b i =
  sd_tail fp scalar m0 n0 (Z.to_nat count) b i.
Proof.
  intros Hm b i. rewrite bind_run.
  destruct (load_complex_sd scalar m0 0 0 n0 st Hm) as [E M]. rewrite E.
  now apply calculate_scaled_distances_mem.
Qed.

Lemma a_avx2_suffix_mem fp scalar nb m0 n0 st :
  (forall b i, mem st b i = sd_done scalar m0 0 0 n0 b i) ->
  forall b i,
  mem (snd (a_avx2_suffix fp scalar nb (bcast4 (complex_at m0 Src0 0)) n0 n0 st)) b i =
  sd_tail fp scalar m0 (n0 + 2 * Z.to_nat (Z.land (Z.shiftr nb 4) 1))
    (Z.to_nat (Z.land (Z.shiftr nb 3) 1)) b i.
Proof.
  intros Hm b i. unfold a_avx2_suffix. cbv zeta.
  set (l1 := Z.to_nat (Z.land (Z.shiftr nb 4) 1)).
  rewrite bind_run.
  match goal with
  | |- context [for_loop 0 l1 ?body ?init ?s] =>
      assert (L : block_inv scalar m0 n0 2 l1 (fst (for_loop 0 l1 body init s))
                                              (snd (for_loop 0 l1 body init s)))
        by (apply block_loop; [apply avx2_left1_step|exact Hm]);
      set (R := for_loop 0 l1 body init s) in *; clearbody R;
      destruct R as [[t p] st1]
  end.
  cbn [fst snd] in *. destruct L as [E M1]. injection E as -> ->.
  apply (scalar_suffix_mem fp scalar m0 _ _ st1 M1).
Qed.

Lemma u_avx2_suffix_mem fp scalar nb m0 n0 st :
  (forall b i, mem st b i = sd_done scalar m0 0 0 n0 b i) ->
  forall b i,
  mem (snd (u_avx2_suffix fp scalar nb (bcast4 (complex_at m0 Src0 0)) n0 n0 st)) b i =
  sd_tail fp scalar m0 n0 (Z.to_nat (Z.land (Z.shiftr nb 3) 3)) b i.
Proof. intros Hm b i. unfold u_avx2_suffix. cbv zeta. now apply scalar_suffix_mem. Qed.

Lemma a_avx2_mem fp scalar num_points st b i :
  mem (exec (volk_32fc_x2_s32f_square_dist_scalar_mult_32f_a_avx2 fp scalar num_points) st) b i =
  sd_tail fp scalar (mem st) (a_avx2_vector_count num_points)
    (a_avx2_scalar_count num_points) b i.
Proof.
  rewrite a_avx2_shape. unfold a_avx2_vector_count, a_avx2_scalar_count. cbv zeta.
  apply (avx2_shape_mem (a_avx2_suffix fp scalar)
           (fun m0 n0 =>
              sd_tail fp scalar m0
                (n0 + 2 * Z.to_nat (Z.land (Z.shiftr (uint32 (num_points * 8)) 4) 1))
                (Z.to_nat (Z.land (Z.shiftr (uint32 (num_points * 8)) 3) 1)))).
  intros m0 n0 st'. apply a_avx2_suffix_mem.
Qed.

Lemma u_avx2_mem fp scalar num_points st b i :
  mem (exec (volk_32fc_x2_s32f_square_dist_scalar_mult_32f_u_avx2 fp scalar num_points) st) b i =
  sd_tail fp scalar (mem st) (u_avx2_vector_count num_points)
    (u_avx2_scalar_count num_points) b i.
Proof.
  rewrite u_avx2_shape. unfold u_avx2_vector_count, u_avx2_scalar_count. cbv zeta.
  apply (avx2_shape_mem (u_avx2_suffix fp scalar)
           (fun m0 n0 =>
              sd_tail fp scalar m0 n0
                (Z.to_nat (Z.land (Z.shiftr (uint32 (num_points * 8)) 3) 3)))).
  intros m0 n0 st'. apply u_avx2_suffix_mem.
Qed.

Lemma generic_mem fp scalar num_points st b i :
  mem (exec (volk_32fc_x2_s32f_square_dist_scalar_mult_32f_generic fp scalar num_points) st) b i =
  sd_tail fp scalar (mem st) 0 (Z.to_nat num_points) b i.
Proof.
  unfold exec, volk_32fc_x2_s32f_square_dist_scalar_mult_32f_generic.
  apply (scalar_suffix_mem fp scalar (mem st) 0 num_points st).
  intros b' i'. now rewrite sd_done_0.
Qed.

#[local] Opaque F32.mul F32.add F32.sub.

(** *** a_avx *)

Lemma a_avx_is_shape fp scalar num_points :
  volk_32fc_x2_s32f_square_dist_scalar_mult_32f_a_avx fp scalar num_points =
  a_avx_shape fp scalar num_points.
Proof. reflexivity. Qed.

Lemma a_avx_block8 scalar s a0 a1 a2 a3 a4 a5 a6 a7 b0 b1 b2 b3 b4 b5 b6 b7 :
  let source := _mm256_setr_ps (fst s) (snd s) (fst s) (snd s) (fst s) (snd s) (fst s) (snd s) in
  let points_low := [a0; a1; a2; a3; a4; a5; a6; a7] in
  let points_high := [b0; b1; b2; b3; b4; b5; b6; b7] in
  let difference_low := _mm256_sub_ps source points_low in
  let difference_high := _mm256_sub_ps source points_high in
  let difference_low := _mm256_mul_ps difference_low difference_low in
  let difference_high := _mm256_mul_ps difference_high difference_high in
  let magnitudes_squared := _mm256_hadd_ps difference_low difference_high in
  let lower_magnitudes_squared_bottom := _mm256_extractf128_ps magnitudes_squared 0 in
  let upper_magnitudes_squared_top := _mm256_extractf128_ps magnitudes_squared 1 in
  let lower_magnitudes_squared := _mm256_castps128_ps256 lower_magnitudes_squared_bottom in
  let lower_magnitudes_squared :=
    _mm256_insertf128_ps lower_magnitudes_squared
      (_mm_permute_ps lower_magnitudes_squared_bottom 78) 1 in
  let upper_magnitudes_squared := _mm256_castps128_ps256 upper_magnitudes_squared_top in
  let upper_magnitudes_squared :=
    _mm256_insertf128_ps upper_magnitudes_squared upper_magnitudes_squared_top 1 in
  let upper_magnitudes_squared_top := _mm_permute_ps upper_magnitudes_squared_top 78 in
  let upper_magnitudes_squared :=
    _mm256_insertf128_ps upper_magnitudes_squared upper_magnitudes_squared_top 0 in
  let ordered_magnitudes_squared :=
    _mm256_blend_ps lower_magnitudes_squared upper_magnitudes_squared 204 in
  _mm256_mul_ps ordered_magnitudes_squared (_mm256_set1_ps scalar) =
  [sd_value scalar s (a0, a1); sd_value scalar s (a2, a3);
   sd_value scalar s (a4, a5); sd_value scalar s (a6, a7);
   sd_value scalar s (b0, b1); sd_value scalar s (b2, b3);
   sd_value scalar s (b4, b5); sd_value scalar s (b6, b7)].
Proof. cbv zeta. rewrite <- !sd_value_vector. reflexivity. Qed.

Lemma a_avx_step scalar m0 k s st :
  block_inv scalar m0 0 8 k s st ->
  block_inv scalar m0 0 8 (Datatypes.S k)
    (fst (a_avx_body scalar k s st)) (snd (a_avx_body scalar k s st)).
Proof.
  intros [-> Hm]. unfold a_avx_body. cbv zeta. unfold _mm256_load_ps, _mm256_store_ps.
  destruct (load_complex_sd scalar m0 0 0 (0 + 8 * k) st Hm) as [E0 M0].
  destruct (load_words_sd scalar m0 0 0 (0 + 8 * k) Points (2 * (0 + 8 * k)) 8 _ M0
              ltac:(discriminate)) as [E1 M1].
  destruct (load_words_sd scalar m0 0 0 (0 + 8 * k) Points
              (2 * (0 + 8 * k + Z.to_nat (8 / 2))) 8 _ M1 ltac:(discriminate)) as [E2 M2].
  rewrite !bind_run. unfold ret. cbn [fst snd]. unfold vec in *. rewrite E2, E1, E0.
  split; [f_equal; lia|].
  unfold words. cbn [map seq].
  change (lv_creal (complex_at m0 Src0 0)) with (fst (complex_at m0 Src0 0)).
  change (lv_cimag (complex_at m0 Src0 0)) with (snd (complex_at m0 Src0 0)).
  rewrite (a_avx_block8 scalar (complex_at m0 Src0 0)).
  replace (0 + 8 * Datatypes.S k)%nat with (0 + 8 * k + 8)%nat by lia.
  change (0 + 8 * k)%nat with (0 + (0 + 8 * k))%nat at 1.
  apply sd_done_store_words; [exact M2|].
  change (Z.to_nat (8 / 2)) with 4%nat.
  lanes_tac 8.
Qed.

Lemma a_avx_mem fp scalar num_points st b i :
  mem (exec (volk_32fc_x2_s32f_square_dist_scalar_mult_32f_a_avx fp scalar num_points) st) b i =
  sd_tail fp scalar (mem st) (a_avx_vector_count num_points)
    (a_avx_scalar_count num_points) b i.
Proof.
  rewrite a_avx_is_shape.
  unfold exec, a_avx_shape, a_avx_vector_count, a_avx_scalar_count. cbv zeta.
  set (c := Z.to_nat (uint32 (num_points / 8 * 8) / 8)).
  rewrite bind_run.
  match goal with
  | |- context [for_loop 0 c ?body ?init ?s] =>
      assert (L : block_inv scalar (mem st) 0 8 c (fst (for_loop 0 c body init s))
                                                  (snd (for_loop 0 c body init s)))
        by (apply block_loop; [apply a_avx_step|intros; now rewrite sd_done_0]);
      set (R := for_loop 0 c body init s) in *; clearbody R;
      destruct R as [[t p] st1]
  end.
  cbn [fst snd] in *. destruct L as [E M1]. injection E as -> ->.
  apply (scalar_suffix_mem fp scalar (mem st) _ _ st1 M1).
Qed.

#[local] Opaque F32.mul F32.add F32.sub.

(** *** a_sse3 *)

Lemma a_sse3_is_shape fp scalar num_points :
  volk_32fc_x2_s32f_square_dist_scalar_mult_32f_a_sse3 fp scalar num_points =
  sse3_shape fp scalar num_points.
Proof. reflexivity. Qed.

Lemma sse3_block4 scalar s a0 a1 a2 a3 b0 b1 b2 b3 :
  let xmm1 := bcast4 s in
  let xmm2 := [a0; a1; a2; a3] in
  let xmm3 := [b0; b1; b2; b3] in
  _mm_mul_ps (_mm_hadd_ps (_mm_mul_ps (_mm_sub_ps xmm1 xmm2) (_mm_sub_ps xmm1 xmm2))
                          (_mm_mul_ps (_mm_sub_ps xmm1 xmm3) (_mm_sub_ps xmm1 xmm3)))
             (_mm_load1_ps scalar) =
  [sd_value scalar s (a0, a1); sd_value scalar s (a2, a3);
   sd_value scalar s (b0, b1); sd_value scalar s (b2, b3)].
Proof. cbv zeta. rewrite <- !sd_value_vector. reflexivity. Qed.

Lemma sse3_main_step scalar m0 k s st :
  sse3_inv scalar m0 k s st ->
  sse3_inv scalar m0 (Datatypes.S k)
    (fst (sse3_main_body (bcast4 (complex_at m0 Src0 0)) (_mm_load1_ps scalar) k s st))
    (snd (sse3_main_body (bcast4 (complex_at m0 Src0 0)) (_mm_load1_ps scalar) k s st)).
Proof.
  destruct s as [[[t p] x2] x3]. intros (-> & -> & -> & -> & Hm).
  unfold sse3_main_body. cbv zeta. unfold _mm_load_ps, _mm_store_ps.
  destruct (load_words_sd scalar m0 0 0 (4 * k) Points (2 * (4 * k + 4 + 0)) 4 st Hm
              ltac:(discriminate)) as [E1 M1].
  destruct (load_words_sd scalar m0 0 0 (4 * k) Points (2 * (4 * k + 4 + 2)) 4 _ M1
              ltac:(discriminate)) as [E2 M2].
  rewrite !bind_run. unfold ret. cbn [fst snd]. unfold vec in *. rewrite E1, E2.
  split; [lia|]. split; [lia|]. split; [f_equal; lia|]. split; [f_equal; lia|].
  unfold words at 1 2 3 4. cbn [map seq]. rewrite sse3_block4.
  replace (4 * Datatypes.S k)%nat with (4 * k + 4)%nat by lia.
  change (4 * k)%nat with (0 + 4 * k)%nat at 1.
  apply sd_done_store_words; [exact M2|].
  lanes_tac 4.
Qed.

Lemma sse3_left0_step scalar m0 n0 k s st :
  block_inv scalar m0 n0 2 k s st ->
  block_inv scalar m0 n0 2 (Datatypes.S k)
    (fst (sse3_left0_body (bcast4 (complex_at m0 Src0 0)) (_mm_load1_ps scalar) k s st))
    (snd (sse3_left0_body (bcast4 (complex_at m0 Src0 0)) (_mm_load1_ps scalar) k s st)).
Proof. apply avx2_left1_step. Qed.

Lemma a_sse3_mem fp scalar num_points st b i :
  mem (exec (volk_32fc_x2_s32f_square_dist_scalar_mult_32f_a_sse3 fp scalar num_points) st) b i =
  sd_tail fp scalar (mem st) (a_sse3_vector_count num_points)
    (a_sse3_scalar_count num_points) b i.
Proof.
  rewrite a_sse3_is_shape.
  unfold exec, sse3_shape, a_sse3_vector_count, a_sse3_scalar_count. cbv zeta.
  set (c := Z.to_nat (Z.shiftr (uint32 (num_points * 8)) 5 - 1)).
  set (l0 := Z.to_nat (Z.land (Z.shiftr (uint32 (num_points * 8)) 4) 1)).
  set (l1 := Z.land (Z.shiftr (uint32 (num_points * 8)) 3) 1).
  set (m0 := mem st).
  unfold _mm_loadl_pi, _mm_load_ps.
  repeat (progress (rewrite ?bind_run, ?load_words_run; unfold ret; cbn [fst snd mem])).
  cbn [map seq app]. fold m0.
  change (_mm_movelh_ps _ _) with (bcast4 (complex_at m0 Src0 0)).
  rewrite ?bind_run.
  match goal with
  | |- context [for_loop 0 c ?body ?init ?s] =>
      assert (L : sse3_inv scalar m0 c (fst (for_loop 0 c body init s))
                                       (snd (for_loop 0 c body init s)))
        by (apply (for_loop_ind (sse3_inv scalar m0)); [lia| |];
            [ repeat (split; [reflexivity|]); intros; now rewrite sd_done_0
            | intros k s' st' _ H; now apply sse3_main_step ]);
      set (R := for_loop 0 c body init s) in *; clearbody R;
      destruct R as [[[[t p] x2] x3] st1]
  end.
  cbn [fst snd] in *. unfold sse3_inv in L. destruct L as (-> & -> & -> & -> & M1).
  unfold _mm_store_ps. rewrite ?bind_run.
  assert (M2 : forall b i,
    mem (snd (store_words Target (4 * c)
      (_mm_mul_ps
         (_mm_hadd_ps
            (_mm_mul_ps (_mm_sub_ps (bcast4 (complex_at m0 Src0 0)) (words m0 Points (2 * (4 * c)) 4))
                        (_mm_sub_ps (bcast4 (complex_at m0 Src0 0)) (words m0 Points (2 * (4 * c)) 4)))
            (_mm_mul_ps (_mm_sub_ps (bcast4 (complex_at m0 Src0 0)) (words m0 Points (2 * (4 * c + 2)) 4))
                        (_mm_sub_ps (bcast4 (complex_at m0 Src0 0)) (words m0 Points (2 * (4 * c + 2)) 4))))
         (_mm_load1_ps scalar)) st1)) b i = sd_done scalar m0 0 0 (4 * c + 4) b i).
  { unfold words. cbn [map seq]. rewrite sse3_block4.
    change (4 * c)%nat with (0 + 4 * c)%nat at 1.
    change (4 * c + 4)%nat with (4 * c + length [0; 0; 0; 0])%nat.
    apply sd_done_store_words; [exact M1|]. lanes_tac 4. }
  rewrite ?bind_run.
  match goal with
  | |- context [for_loop 0 l0 ?body ?init ?s] =>
      assert (L : block_inv scalar m0 (4 * c + 4) 2 l0 (fst (for_loop 0 l0 body init s))
                                                       (snd (for_loop 0 l0 body init s)))
        by (apply block_loop; [apply sse3_left0_step|exact M2]);
      set (R := for_loop 0 l0 body init s) in *; clearbody R;
      destruct R as [[t p] st2]
  end.
  cbn [fst snd] in *. destruct L as [E M3]. injection E as -> ->.
  rewrite (scalar_suffix_mem fp scalar m0 _ l1 st2 M3). reflexivity.
Qed.

Lemma word32b_spec x : word32b x = true -> word32 x.
Proof. unfold word32b, word32. rewrite andb_true_iff, Z.leb_le, Z.ltb_lt. tauto. Qed.

(** A [Source] buffer made of 32-bit words is a float buffer. *)
Lemma source_state_float_buffer l :
  forallb word32b l = true -> float_buffer (mem (source_state l) Source).
Proof.
  intros H i. cbn [source_state mem]. unfold buffer_of.
  destruct (Nat.lt_ge_cases i (length l)) as [Hi|Hi].
  - apply word32b_spec. rewrite forallb_forall in H. apply H. now apply nth_In.
  - rewrite nth_overflow by assumption. unfold word32. lia.
Qed.

Lemma f32_leb_iff a b :
  F32.leb a b = true <->
  F32.is_nan a = false /\ F32.is_nan b = false /\ F32.key a <= F32.key b.
Proof.
  unfold F32.leb, SFleb. fold (F32.compare a b). rewrite compare_key.
  destruct (F32.is_nan a), (F32.is_nan b); cbn [orb];
    try (split; [discriminate | intros (?&?&?); discriminate]).
  destruct (Z.compare_spec (F32.key a) (F32.key b)); split; intros; try discriminate;
    repeat split; try reflexivity; try lia.
Qed.

Lemma first_min_result_facts src n r :
  first_min src (fun j => (j < n)%nat) r ->
  (forall j, (j < n)%nat -> F32.ltb (src j) (src r) = false) /\
  (forall j, (j < n)%nat -> F32.eqb (src j) (src r) = true -> (r <= j)%nat) /\
  ((forall j, (j < n)%nat -> F32.is_nan (src j) = false) ->
   (r < n)%nat -> forall j, (j < n)%nat -> F32.leb (src r) (src j) = true).
Proof.
  intros (H1 & H2 & H3). split; [exact H2|]. split.
  - intros j Hj He. destruct (Nat.le_gt_cases r j) as [L|L]; [exact L|].
    rewrite (H3 j Hj L) in He. discriminate.
  - intros Hn Hr j Hj. pose proof (H2 j Hj) as X.
    pose proof (Hn j Hj) as Nj. pose proof (Hn r Hr) as Nr.
    apply f32_ltb_false_iff in X. apply f32_leb_iff.
    destruct X as [X|[X|X]]; try congruence. repeat split; assumption.
Qed.

Lemma first_min_agree src src' n r :
  (forall j, (j < n)%nat -> src j = src' j) -> (0 < n)%nat -> (r < n)%nat ->
  first_min src (fun j => (j < n)%nat) r -> first_min src' (fun j => (j < n)%nat) r.
Proof.
  intros E Hn Hr (H1 & H2 & H3). split; [|split].
  - destruct H1 as [->|[H1 H1']]; [now left|right]. split; [assumption|].
    now rewrite <- !E by lia.
  - intros j Hj. rewrite <- !E by lia. now apply H2.
  - intros j Hj Hjr. rewrite <- !E by lia. now apply H3.
Qed.

Lemma index_min_clamped v num_points st :
  USHRT_MAX < num_points ->
  exec (index_min v num_points) st = exec (index_min v USHRT_MAX) st.
Proof.
  intro H. unfold USHRT_MAX in H.
  destruct v; cbn [index_min];
    unfold volk_32f_index_min_16u_generic, volk_32f_index_min_16u_a_avx,
      volk_32f_index_min_16u_a_sse4_1, volk_32f_index_min_16u_a_sse,
      volk_32f_index_min_16u_u_avx;
    destruct (Z.gtb_spec num_points USHRT_MAX) as [_|G]; try (unfold USHRT_MAX in G; lia);
    reflexivity.
Qed.

Lemma index_min_reads v num_points st i :
  float_buffer (mem st Source) -> 1 <= num_points ->
  In (Rd Source i) (trace (exec (index_min v num_points) st)) ->
  In (Rd Source i) (trace st) \/ (i < clamp num_points)%nat.
Proof.
  intros Hs Hn Hin.
  destruct (index_min_spec v num_points st Hs Hn) as (r & evs & _ & _ & _ & Etr & F).
  rewrite Etr in Hin. destruct Hin as [Hin|Hin]; [discriminate|].
  apply in_app_or in Hin. destruct Hin as [Hin|Hin]; [right|now left].
  rewrite Forall_forall in F. destruct (F _ Hin) as (i' & E & Hi). now injection E as ->.
Qed.

Lemma tie_example_float_buffer : float_buffer (mem tie_example Source).
Proof. apply source_state_float_buffer. vm_compute. reflexivity. Qed.

(** C1. On every float buffer and for every [num_points >= 1], each vector
    variant of the index-of-minimum kernel (a_avx, a_sse4_1, a_sse, u_avx)
    leaves in [target[0]] exactly the index the generic variant leaves. *)
Theorem C1_simd_agrees_with_generic (st : state) (num_points : Z) :
  float_buffer (mem st Source) -> 1 <= num_points ->
  index_min_result IM_a_avx num_points st = index_min_result IM_generic num_points st /\
  index_min_result IM_a_sse4_1 num_points st = index_min_result IM_generic num_points st /\
  index_min_result IM_a_sse num_points st = index_min_result IM_generic num_points st /\
  index_min_result IM_u_avx num_points st = index_min_result IM_generic num_points st.
Proof.
  intros Hs Hn. repeat split; now apply index_min_agree.
Qed.

Lemma C1_simd_agrees_with_generic_witness :
  float_buffer (mem tie_example Source) /\ 1 <= 4 /\
  index_min_result IM_a_avx 4 tie_example = index_min_result IM_generic 4 tie_example /\
  index_min_result IM_a_sse4_1 4 tie_example = index_min_result IM_generic 4 tie_example /\
  index_min_result IM_a_sse 4 tie_example = index_min_result IM_generic 4 tie_example /\
  index_min_result IM_u_avx 4 tie_example = index_min_result IM_generic 4 tie_example.
Proof.
  split; [exact tie_example_float_buffer|]. split; [lia|].
  apply (C1_simd_agrees_with_generic tie_example 4); [exact tie_example_float_buffer|lia].
Defined.

(** C2. For every variant, the index written to [target[0]] lies within the
    clamped length, no element within the clamped length is less than the
    element at that index, and every element that compares equal to it
    sits at the same or a higher index: among equal minima the lowest index
    wins.  When the buffer holds no NaN the element at the index is less
    than or equal to every element.  On [5, 2, 2, 7] every variant
    writes 1. *)
Theorem C2_lowest_index_wins (v : index_min_variant) (st : state) (num_points : Z) :
  float_buffer (mem st Source) -> 1 <= num_points ->
  let src := mem st Source in
  let n := clamp num_points in
  let r := Z.to_nat (index_min_result v num_points st) in
  ((r < n)%nat /\
   (forall j, (j < n)%nat -> F32.ltb (src j) (src r) = false) /\
   (forall j, (j < n)%nat -> F32.eqb (src j) (src r) = true -> (r <= j)%nat) /\
   ((forall j, (j < n)%nat -> F32.is_nan (src j) = false) ->
    forall j, (j < n)%nat -> F32.leb (src r) (src j) = true)) /\
  index_min_result v 4 tie_example = 1.
Proof.
  intros Hs Hn. cbv zeta. split; [|destruct v; vm_compute; reflexivity].
  unfold index_min_result.
  destruct (index_min_post_result _ _ _ (index_min_spec v num_points st Hs Hn))
    as (r & Hr & Hfm & ->).
  rewrite Nat2Z.id. destruct (first_min_result_facts _ _ _ Hfm) as (F1 & F2 & F3).
  split; [assumption|]. split; [assumption|]. split; [assumption|]. auto.
Qed.

Lemma C2_lowest_index_wins_witness :
  float_buffer (mem tie_example Source) /\ 1 <= 4 /\
  (Z.to_nat (index_min_result IM_a_sse 4 tie_example) < clamp 4)%nat /\
  index_min_result IM_a_sse 4 tie_example = 1.
Proof.
  split; [exact tie_example_float_buffer|]. split; [lia|].
  pose proof (C2_lowest_index_wins IM_a_sse tie_example 4 tie_example_float_buffer
                ltac:(lia)) as H.
  cbv zeta in H. split; [exact (proj1 (proj1 H))|exact (proj2 H)].
Defined.

(** C5. When [num_points] exceeds [USHRT_MAX], every variant runs exactly as
    it runs with [num_points = USHRT_MAX]; the index it writes is the same on
    any two buffers that agree below the clamp; and it reads no [source]
    element at or beyond the clamp. *)
Theorem C5_clamped_to_ushrt_max (v : index_min_variant) (st st' : state) (num_points : Z) :
  USHRT_MAX < num_points ->
  float_buffer (mem st Source) -> float_buffer (mem st' Source) ->
  (forall i, Z.of_nat i < USHRT_MAX -> mem st Source i = mem st' Source i) ->
  exec (index_min v num_points) st = exec (index_min v USHRT_MAX) st /\
  index_min_result v num_points st = index_min_result v num_points st' /\
  (forall i, In (Rd Source i) (trace (exec (index_min v num_points) st)) ->
             In (Rd Source i) (trace st) \/ Z.of_nat i < USHRT_MAX).
Proof.
  intros Hn Hs Hs' Hag. unfold USHRT_MAX in *.
  assert (Hc : clamp num_points = Z.to_nat 65535) by (unfold clamp, USHRT_MAX; f_equal; lia).
  split; [apply index_min_clamped; unfold USHRT_MAX; lia|]. split.
  - unfold index_min_result.
    destruct (index_min_post_result _ _ _ (index_min_spec v num_points st Hs ltac:(lia)))
      as (r & Hr & Hfm & ->).
    destruct (index_min_post_result _ _ _ (index_min_spec v num_points st' Hs' ltac:(lia)))
      as (r' & Hr' & Hfm' & ->).
    f_equal.
    assert (X : first_min (mem st' Source) (fun j => (j < clamp num_points)%nat) r).
    { apply (first_min_agree (mem st Source)); try assumption; [|lia].
      intros j Hj. apply Hag. lia. }
    apply (first_min_unique _ _ _ _ X Hfm'). lia.
  - intros i Hin. destruct (index_min_reads v num_points st i Hs ltac:(lia) Hin) as [H|H];
      [now left|right; lia].
Qed.

Lemma C5_clamped_to_ushrt_max_witness :
  USHRT_MAX < 70000 /\
  float_buffer (mem tie_example Source) /\
  (forall i, Z.of_nat i < USHRT_MAX -> mem tie_example Source i = mem tie_example Source i) /\
  exec (index_min IM_a_sse 70000) tie_example = exec (index_min IM_a_sse USHRT_MAX) tie_example /\
  index_min_result IM_a_sse 70000 tie_example = index_min_result IM_a_sse 70000 tie_example /\
  (forall i, In (Rd Source i) (trace (exec (index_min IM_a_sse 70000) tie_example)) ->
             In (Rd Source i) (trace tie_example) \/ Z.of_nat i < USHRT_MAX).
Proof.
  split; [unfold USHRT_MAX; lia|]. split; [exact tie_example_float_buffer|].
  split; [reflexivity|].
  apply (C5_clamped_to_ushrt_max IM_a_sse tie_example tie_example 70000).
  - unfold USHRT_MAX; lia.
  - exact tie_example_float_buffer.
  - exact tie_example_float_buffer.
  - reflexivity.
Defined.

(** C10. For every variant and every [num_points >= 1], the index written to
    [target[0]] is below [min (num_points, USHRT_MAX)], whatever the floats in
    the buffer (NaN included). *)
Theorem C10_index_in_range (v : index_min_variant) (st : state) (num_points : Z) :
  float_buffer (mem st Source) -> 1 <= num_points ->
  0 <= index_min_result v num_points st < Z.min num_points USHRT_MAX.
Proof.
  intros Hs Hn. unfold index_min_result.
  destruct (index_min_post_result _ _ _ (index_min_spec v num_points st Hs Hn))
    as (r & Hr & _ & ->).
  unfold clamp, USHRT_MAX in *. lia.
Qed.

Lemma C10_index_in_range_witness :
  float_buffer (mem tie_example Source) /\ 1 <= 4 /\
  0 <= index_min_result IM_a_avx 4 tie_example < Z.min 4 USHRT_MAX.
Proof.
  split; [exact tie_example_float_buffer|]. split; [lia|].
  apply (C10_index_in_range IM_a_avx tie_example 4); [exact tie_example_float_buffer|lia].
Defined.

(** C6.  The scaled squared distance of the point (0.5, 2.0) to the 16
    constellation points with coordinates in {-3, -1, 1, 3} x {-3, -1, 1, 3},
    scaled by 1/64: for the generic variant and for every vector variant,
    whichever way the compiler contracts the scalar expression,
    [output[i]] is within 1e-5 of ((0.5 - re_i)^2 + (2.0 - im_i)^2) / 64,
    whatever follows the buffers in memory and whatever [target] held. *)
Theorem C6_constellation_distances (fp : contraction) (v : square_dist_variant)
  (rest target0 : nat -> Z) :
  (F32.to_Q rx_re == 1 # 2)%Q /\ (F32.to_Q rx_im == 2)%Q /\
  (F32.to_Q scale == 1 # 64)%Q /\
  Forall (fun ii =>
            (Qabs (F32.to_Q (constellation_output fp v rest target0 ii) - expected_distance ii)
             <= 1 # 100000)%Q)
         (seq 0 16).
Proof.
  split; [reflexivity|]. split; [reflexivity|]. split; [reflexivity|].
  apply Forall_forall. intros ii Hii. apply Qle_bool_iff.
  change (within_tolerance (F32.to_Q (constellation_output fp v rest target0 ii))
            (expected_distance ii) = true).
  revert ii Hii. apply Forall_forall.
  destruct fp, v; cbn [seq]; repeat constructor; vm_compute; reflexivity.
Qed.

(** C3, as stated, fails with no points: a_sse3 still writes [target[0..4)]
    and reads [points[0..4)], and the generic index-of-minimum variant still
    reads [source[0]]. *)
Lemma C3_counterexample :
  ~ Forall (sd_in_bounds 0)
      (trace (exec (volk_32fc_x2_s32f_square_dist_scalar_mult_32f_a_sse3 Separate scale 0) zero_state)) /\
  ~ Forall (im_in_bounds 0)
      (trace (exec (volk_32f_index_min_16u_generic 0) zero_state)).
Proof.
  split; intro H; rewrite Forall_forall in H.
  - specialize (H (Wr Target 0%nat)). cbn [sd_in_bounds] in H.
    assert (X : Z.of_nat 0 < 0); [|lia]. apply H. vm_compute. tauto.
  - specialize (H (Rd Source 0%nat)). cbn [im_in_bounds] in H.
    assert (X : Z.of_nat 0 < 0); [|lia]. apply H. vm_compute. tauto.
Qed.

(** C3, amended.  For [4 <= num_points], a_sse3 reads only
    [points[0..num_points)] and [src0[0]] and writes only
    [target[0..num_points)]; for [1 <= num_points], every index-of-minimum
    variant reads only [source[0..min (num_points, USHRT_MAX))] and writes only
    [target[0]]. *)
Theorem C3_in_bounds (fp : contraction) (scalar : Z) (v : index_min_variant) (st : state)
  (n m : Z) :
  4 <= n < 4294967296 -> 1 <= m -> float_buffer (mem st Source) ->
  (exists evs,
     trace (exec (volk_32fc_x2_s32f_square_dist_scalar_mult_32f_a_sse3 fp scalar n) st)
       = evs ++ trace st /\ Forall (sd_in_bounds n) evs) /\
  (exists evs,
     trace (exec (index_min v m) st) = evs ++ trace st /\
     Forall (im_in_bounds (Z.min m USHRT_MAX)) evs).
Proof.
  intros Hn Hm Hs. split.
  - eapply tr_exec. now apply sse3_in_bounds.
  - destruct (index_min_spec v m st Hs Hm) as (r & evs & _ & _ & _ & Etr & F).
    exists (Wr Target 0%nat :: evs). split; [exact Etr|].
    constructor; [reflexivity|]. eapply Forall_impl; [|exact F].
    intros e (i & -> & Hi). cbn [im_in_bounds]. unfold clamp in Hi. lia.
Qed.

Lemma C3_in_bounds_witness :
  4 <= 4 < 4294967296 /\ 1 <= 4 /\ float_buffer (mem tie_example Source) /\
  (exists evs,
     trace (exec (volk_32fc_x2_s32f_square_dist_scalar_mult_32f_a_sse3 FuseRe scale 4) tie_example)
       = evs ++ trace tie_example /\ Forall (sd_in_bounds 4) evs) /\
  (exists evs,
     trace (exec (index_min IM_a_sse 4) tie_example) = evs ++ trace tie_example /\
     Forall (im_in_bounds (Z.min 4 USHRT_MAX)) evs).
Proof.
  split; [lia|]. split; [lia|]. split; [exact tie_example_float_buffer|].
  apply (C3_in_bounds FuseRe scale IM_a_sse tie_example 4 4);
    [lia|lia|exact tie_example_float_buffer].
Defined.

(** C4, as stated, fails: with no points a_sse3 writes [target[0]], and the
    generic index-of-minimum variant reads [source[0]]. *)
Lemma C4_counterexample :
  In (Wr Target 0%nat)
     (trace (exec (volk_32fc_x2_s32f_square_dist_scalar_mult_32f_a_sse3 Separate scale 0) zero_state)) /\
  In (Rd Source 0%nat) (trace (exec (volk_32f_index_min_16u_generic 0) zero_state)).
Proof. split; vm_compute; tauto. Qed.

(** C4, amended.  With no points: the generic, a_avx2, a_avx and u_avx2
    square-distance variants only read and leave every buffer as it was;
    every index-of-minimum variant reads [source[0]] and nothing else, and
    writes index 0 to [target[0]]; the popcount puppets read and write
    nothing. *)
Theorem C4_no_points (popcnt_e2k popcnt_a_sse4_2 : Z -> Z) (fp : contraction) (scalar : Z)
  (st : state) :
  (forall v, v <> SD_a_sse3 ->
     exists evs, exec (square_dist v fp scalar 0) st = mkState (mem st) (evs ++ trace st) /\
                 Forall is_read evs) /\
  (forall v, exec (index_min v 0) st =
             mkState (upd (mem st) Target 0%nat 0)
                     (Wr Target 0%nat :: Rd Source 0%nat :: trace st)) /\
  exec (volk_32u_popcntpuppet_32u_e2k popcnt_e2k 0) st = st /\
  exec (volk_32u_popcntpuppet_32u_a_sse4_2 popcnt_a_sse4_2 0) st = st.
Proof.
  split; [|split; [exact (fun v => index_min_zero v st)|split; reflexivity]].
  intros v Hv.
  exists (trace (exec (square_dist v fp 0 0) zero_state)).
  destruct v; try contradiction; (split; [vm_compute; reflexivity|]);
    vm_compute; repeat constructor.
Qed.

(** C8.  Each puppet adapter, given (output buffer, input buffer, element
    count), hands every input word to its wrapped single-word kernel: for
    [i < num_points], [outVector[i]] receives what the wrapped kernel
    computes from [inVector[i]]; no other word of any buffer changes; and the
    accesses are exactly one read of [inVector[i]] followed by one write of
    [outVector[i]], for [i] from 0 up. *)
Theorem C8_puppets_delegate (popcnt_e2k popcnt_a_sse4_2 : Z -> Z) (num_points : Z)
  (st : state) :
  puppet_post popcnt_e2k st (Z.to_nat num_points)
    (exec (volk_32u_popcntpuppet_32u_e2k popcnt_e2k num_points) st) /\
  puppet_post popcnt_a_sse4_2 st (Z.to_nat num_points)
    (exec (volk_32u_popcntpuppet_32u_a_sse4_2 popcnt_a_sse4_2 num_points) st).
Proof. split; apply puppet_loop. Qed.












Lemma same_float_refl a : same_float a a.
Proof. now left. Qed.

Lemma sd_tail_target fp scalar m0 nv ns i :
  sd_tail fp scalar m0 nv ns Target i =
  if (i <? nv)%nat then distance Separate scalar m0 i
  else if (i <? nv + ns)%nat then distance fp scalar m0 i
  else m0 Target i.
Proof.
  unfold sd_tail, sd_done. cbn [buffer_eqb andb Nat.leb].
  destruct (Nat.leb_spec nv i), (Nat.ltb_spec i (nv + ns)), (Nat.ltb_spec i nv),
    (Nat.ltb_spec i (0 + nv)); try lia; cbn [andb]; try reflexivity.
  now rewrite Nat.add_0_l, Nat.sub_0_r.
Qed.





Lemma sd_tail_matches fp scalar st nv ns count vector_count :
  Z.of_nat nv = vector_count -> Z.of_nat (nv + ns) = count ->
  matches_generic fp scalar st (sd_tail fp scalar (mem st) nv ns) count vector_count.
Proof.
  intros Hv Hc b i. left. unfold generic_store. rewrite generic_mem.
  destruct (buffer_eqb_spec Target b) as [<-|Hb]; cbn [andb];
    [|now rewrite !sd_tail_inputs by congruence].
  rewrite !sd_tail_target, Nat.add_0_l.
  destruct (Z.ltb_spec (Z.of_nat i) vector_count), (Nat.ltb_spec i 0), (Nat.ltb_spec i nv),
    (Nat.ltb_spec i (nv + ns)), (Nat.ltb_spec i (Z.to_nat count)); try lia; reflexivity.
Qed.

Lemma a_avx_counts_Z N :
  0 <= N < 4294967296 ->
  Z.of_nat (a_avx_vector_count N) = 8 * (N / 8) /\
  Z.of_nat (a_avx_vector_count N + a_avx_scalar_count N) = N.
Proof.
  intro H. unfold a_avx_vector_count, a_avx_scalar_count, uint32.
  rewrite !Nat2Z.inj_add, !Nat2Z.inj_mul, !Z2Nat.id.
  all: Z.div_mod_to_equations; lia.
Qed.

Lemma avx2_counts_mod N :
  0 <= N < 4294967296 ->
  Z.of_nat (a_avx2_vector_count N) = 2 * (N mod 536870912 / 2) /\
  Z.of_nat (a_avx2_vector_count N + a_avx2_scalar_count N) = N mod 536870912 /\
  Z.of_nat (u_avx2_vector_count N) = 4 * (N mod 536870912 / 4) /\
  Z.of_nat (u_avx2_vector_count N + u_avx2_scalar_count N) = N mod 536870912.
Proof.
  intro H.
  unfold a_avx2_vector_count, a_avx2_scalar_count, u_avx2_vector_count, u_avx2_scalar_count.
  cbv zeta. unfold uint32. rewrite !land_1, land_3, !Z.shiftr_div_pow2 by lia.
  change (2 ^ 6) with 64. change (2 ^ 5) with 32. change (2 ^ 4) with 16.
  change (2 ^ 3) with 8.
  rewrite !Nat2Z.inj_add, !Nat2Z.inj_mul, !Z2Nat.id.
  all: Z.div_mod_to_equations; lia.
Qed.

Lemma a_sse3_counts_long N :
  4 <= N < 536870912 ->
  Z.of_nat (a_sse3_vector_count N) = 2 * (N / 2) /\
  Z.of_nat (a_sse3_vector_count N + a_sse3_scalar_count N) = N.
Proof.
  intro H. unfold a_sse3_vector_count, a_sse3_scalar_count. cbv zeta. unfold uint32.
  rewrite !land_1, !Z.shiftr_div_pow2 by lia.
  change (2 ^ 5) with 32. change (2 ^ 4) with 16. change (2 ^ 3) with 8.
  rewrite !Nat2Z.inj_add, !Nat2Z.inj_mul, !Z2Nat.id.
  all: Z.div_mod_to_equations; lia.
Qed.

Lemma a_sse3_counts_short N :
  0 <= N < 4 ->
  Z.of_nat (a_sse3_vector_count N) = 4 + 2 * (N / 2) /\
  Z.of_nat (a_sse3_vector_count N + a_sse3_scalar_count N) = N + 4.
Proof.
  intro H. unfold a_sse3_vector_count, a_sse3_scalar_count. cbv zeta. unfold uint32.
  rewrite !land_1, !Z.shiftr_div_pow2 by lia.
  change (2 ^ 5) with 32. change (2 ^ 4) with 16. change (2 ^ 3) with 8.
  replace ((N * 8) mod 4294967296) with (N * 8) by (Z.div_mod_to_equations; lia).
  replace (N * 8 / 32) with 0 by (Z.div_mod_to_equations; lia).
  change (Z.to_nat (0 - 1)) with 0%nat.
  rewrite !Nat2Z.inj_add, !Nat2Z.inj_mul, !Z2Nat.id.
  all: Z.div_mod_to_equations; lia.
Qed.

(** X1. The generic square-distance variant computes, for every
    [i < num_points], [target[i] = scalar * (re * re + im * im)], where [re]
    and [im] are the parts of [src0[0] - points[i]]: in binary32 arithmetic,
    with the contraction the build applies to that expression, and up to the
    NaN pattern.  It leaves [target] from [num_points] on, and every other
    buffer, as they were. *)
Theorem generic_computes_distances (fp : contraction) (scalar num_points : Z) (st : state) :
  0 <= num_points < 4294967296 ->
  (forall i, Z.of_nat i < num_points ->
     same_float
       (generic_store fp scalar num_points st Target i)
       (scaled_norm fp scalar
          (F32.sub (mem st Src0 0%nat) (mem st Points (2 * i)%nat))
          (F32.sub (mem st Src0 1%nat) (mem st Points (2 * i + 1)%nat)))) /\
  (forall i, num_points <= Z.of_nat i ->
     generic_store fp scalar num_points st Target i = mem st Target i) /\
  (forall b i, b <> Target -> generic_store fp scalar num_points st b i = mem st b i).
Proof.
  intro H. unfold generic_store. split; [|split].
  - intros i Hi. left. rewrite generic_mem, sd_tail_target, Nat.add_0_l.
    destruct (Nat.ltb_spec i 0), (Nat.ltb_spec i (Z.to_nat num_points)); try lia; reflexivity.
  - intros i Hi. rewrite generic_mem, sd_tail_target, Nat.add_0_l.
    destruct (Nat.ltb_spec i 0), (Nat.ltb_spec i (Z.to_nat num_points)); try lia; reflexivity.
  - intros b i Hb. rewrite generic_mem. now apply sd_tail_inputs.
Qed.

Lemma generic_computes_distances_witness :
  0 <= 2 < 4294967296 /\
  (forall i, Z.of_nat i < 2 ->
     same_float
       (generic_store FuseRe one 2 fused_state Target i)
       (scaled_norm FuseRe one
          (F32.sub (mem fused_state Src0 0%nat) (mem fused_state Points (2 * i)%nat))
          (F32.sub (mem fused_state Src0 1%nat) (mem fused_state Points (2 * i + 1)%nat)))).
Proof.
  split; [lia|]. exact (proj1 (generic_computes_distances FuseRe one 2 fused_state ltac:(lia))).
Defined.

(** X2. For every [num_points] the loop counter of a_avx can hold, the
    a_avx variant leaves in every buffer what the generic variant leaves, up
    to NaN patterns, the elements [target[0 .. 8 * (num_points / 8))] being
    evaluated without contraction, whatever the build does to the scalar
    loop. *)
Theorem a_avx_matches_generic (fp : contraction) (scalar num_points : Z) (st : state) :
  0 <= num_points < 2147483648 ->
  matches_generic fp scalar st
    (mem (exec (volk_32fc_x2_s32f_square_dist_scalar_mult_32f_a_avx fp scalar num_points) st))
    num_points (8 * (num_points / 8)).
Proof.
  intros H b i. rewrite a_avx_mem.
  destruct (a_avx_counts_Z num_points ltac:(lia)) as [C1 C2].
  now apply sd_tail_matches.
Qed.

Lemma a_avx_matches_generic_witness :
  0 <= 16 < 2147483648 /\
  matches_generic FuseRe scale qam_state
    (mem (exec (volk_32fc_x2_s32f_square_dist_scalar_mult_32f_a_avx FuseRe scale 16)
            qam_state))
    16 (8 * (16 / 8)).
Proof.
  split; [lia|]. apply (a_avx_matches_generic FuseRe scale 16 qam_state). lia.
Defined.

(** X3. The AVX2 variants compute their byte count [num_points * 8] in 32
    bits, so they process [n = num_points mod 2^29] points: they leave in
    every buffer what the generic variant leaves for [n] points, up to NaN
    patterns, a_avx2 evaluating [target[0 .. 2 * (n / 2))] and u_avx2
    [target[0 .. 4 * (n / 4))] without contraction.  From [2^29] points on
    they process fewer points than asked. *)
Theorem avx2_matches_generic_modulo (fp : contraction) (scalar num_points : Z) (st : state) :
  0 <= num_points < 4294967296 ->
  matches_generic fp scalar st
    (mem (exec (volk_32fc_x2_s32f_square_dist_scalar_mult_32f_a_avx2 fp scalar num_points) st))
    (num_points mod 536870912) (2 * (num_points mod 536870912 / 2)) /\
  matches_generic fp scalar st
    (mem (exec (volk_32fc_x2_s32f_square_dist_scalar_mult_32f_u_avx2 fp scalar num_points) st))
    (num_points mod 536870912) (4 * (num_points mod 536870912 / 4)).
Proof.
  intro H. destruct (avx2_counts_mod num_points H) as (A1 & A2 & U1 & U2).
  split; intros b i.
  - rewrite a_avx2_mem. now apply sd_tail_matches.
  - rewrite u_avx2_mem. now apply sd_tail_matches.
Qed.

Lemma avx2_matches_generic_modulo_witness :
  0 <= 536870915 < 4294967296 /\
  matches_generic FuseRe one fused_state
    (mem (exec (volk_32fc_x2_s32f_square_dist_scalar_mult_32f_a_avx2 FuseRe one 536870915)
            fused_state))
    (536870915 mod 536870912) (2 * (536870915 mod 536870912 / 2)).
Proof.
  split; [lia|].
  exact (proj1 (avx2_matches_generic_modulo FuseRe one 536870915 fused_state ltac:(lia))).
Defined.

(** X4. From four points on (and while [num_points * 8] fits 32 bits), the
    a_sse3 variant leaves in every buffer what the generic variant leaves, up
    to NaN patterns, the elements [target[0 .. 2 * (num_points / 2))] being
    evaluated without contraction. *)
Theorem a_sse3_matches_generic (fp : contraction) (scalar num_points : Z) (st : state) :
  4 <= num_points < 536870912 ->
  matches_generic fp scalar st
    (mem (exec (volk_32fc_x2_s32f_square_dist_scalar_mult_32f_a_sse3 fp scalar num_points) st))
    num_points (2 * (num_points / 2)).
Proof.
  intros H b i. rewrite a_sse3_mem.
  destruct (a_sse3_counts_long num_points H) as [C1 C2].
  now apply sd_tail_matches.
Qed.

Lemma a_sse3_matches_generic_witness :
  4 <= 5 < 536870912 /\
  matches_generic FuseRe one fused_state
    (mem (exec (volk_32fc_x2_s32f_square_dist_scalar_mult_32f_a_sse3 FuseRe one 5)
            fused_state))
    5 (2 * (5 / 2)).
Proof.
  split; [lia|]. apply (a_sse3_matches_generic FuseRe one 5 fused_state). lia.
Defined.

(** X5. With fewer than four points the a_sse3 variant processes four points
    too many: it leaves in every buffer what the generic variant leaves for
    [num_points + 4] points, up to NaN patterns (the elements
    [target[0 .. 4 + 2 * (num_points / 2))] evaluated without contraction),
    so it overwrites [target[num_points .. num_points + 4)] from
    [points[num_points .. num_points + 4)]. *)
Theorem a_sse3_short_input (fp : contraction) (scalar num_points : Z) (st : state) :
  0 <= num_points < 4 ->
  matches_generic fp scalar st
    (mem (exec (volk_32fc_x2_s32f_square_dist_scalar_mult_32f_a_sse3 fp scalar num_points) st))
    (num_points + 4) (4 + 2 * (num_points / 2)).
Proof.
  intros H b i. rewrite a_sse3_mem.
  destruct (a_sse3_counts_short num_points H) as [C1 C2].
  now apply sd_tail_matches.
Qed.

Lemma a_sse3_short_input_witness :
  0 <= 1 < 4 /\
  matches_generic FuseRe one fused_state
    (mem (exec (volk_32fc_x2_s32f_square_dist_scalar_mult_32f_a_sse3 FuseRe one 1)
            fused_state))
    (1 + 4) (4 + 2 * (1 / 2)).
Proof.
  split; [lia|]. apply (a_sse3_short_input FuseRe one 1 fused_state). lia.
Defined.

Lemma index_min_first_min v num_points st :
  float_buffer (mem st Source) -> 1 <= num_points ->
  exists r, (r < clamp num_points)%nat /\
    first_min (mem st Source) (fun j => (j < clamp num_points)%nat) r /\
    index_min_result v num_points st = Z.of_nat r.
Proof.
  intros Hs Hn. unfold index_min_result.
  now apply index_min_post_result, index_min_spec.
Qed.

Lemma clamp_pos num_points : 1 <= num_points -> (0 < clamp num_points)%nat.
Proof. intro H. unfold clamp, USHRT_MAX. lia. Qed.

Lemma first_min_same_order src src' n r :
  (forall i j, (i < n)%nat -> (j < n)%nat ->
     F32.ltb (src i) (src j) = F32.ltb (src' i) (src' j) /\
     F32.eqb (src i) (src j) = F32.eqb (src' i) (src' j)) ->
  (0 < n)%nat -> (r < n)%nat ->
  first_min src (fun j => (j < n)%nat) r -> first_min src' (fun j => (j < n)%nat) r.
Proof.
  intros E Hn Hr (H1 & H2 & H3). split; [|split].
  - destruct H1 as [->|[H1 H1']]; [now left|right]. split; [assumption|].
    now rewrite <- (proj1 (E r 0%nat Hr Hn)).
  - intros j Hj. rewrite <- (proj1 (E j r Hj Hr)). now apply H2.
  - intros j Hj Hjr. rewrite <- (proj2 (E j r Hj Hr)). now apply H3.
Qed.

Lemma nan_first_float_buffer : float_buffer (mem nan_first Source).
Proof. apply source_state_float_buffer. vm_compute. reflexivity. Qed.

Lemma tie_example_prefix_float_buffer : float_buffer (mem tie_example_prefix Source).
Proof. apply source_state_float_buffer. vm_compute. reflexivity. Qed.

Lemma tie_example_scaled_float_buffer : float_buffer (mem tie_example_scaled Source).
Proof. apply source_state_float_buffer. vm_compute. reflexivity. Qed.

(** X6. Every index-of-minimum variant writes index 0 exactly when no
    element within the clamped length is less than [source[0]]. *)
Theorem index_zero_iff (v : index_min_variant) (st : state) (num_points : Z) :
  float_buffer (mem st Source) -> 1 <= num_points ->
  (index_min_result v num_points st = 0 <->
   forall j, (j < clamp num_points)%nat ->
     F32.ltb (mem st Source j) (mem st Source 0%nat) = false).
Proof.
  intros Hs Hn. destruct (index_min_first_min v num_points st Hs Hn) as (r & Hr & Hfm & ->).
  split.
  - intros E j Hj. assert (r = 0%nat) as -> by lia.
    destruct Hfm as (_ & H2 & _). now apply H2.
  - intro H. enough (r = 0%nat) by lia.
    apply (first_min_unique (mem st Source) (fun j => (j < clamp num_points)%nat)).
    + exact Hfm.
    + split; [now left|]. split; [exact H|]. intros j _ Hj. lia.
    + now apply clamp_pos.
Qed.

Lemma index_zero_iff_witness :
  float_buffer (mem tie_example Source) /\ 1 <= 4 /\
  (index_min_result IM_a_sse 4 tie_example = 0 <->
   forall j, (j < clamp 4)%nat ->
     F32.ltb (mem tie_example Source j) (mem tie_example Source 0%nat) = false).
Proof.
  split; [exact tie_example_float_buffer|]. split; [lia|].
  apply (index_zero_iff IM_a_sse tie_example 4); [exact tie_example_float_buffer|lia].
Defined.

(** X7. NaN: when [source[0]] is a NaN every variant writes index 0, whatever
    the other elements; and an index other than 0 never points at a NaN: the
    element it points at is less than [source[0]]. *)
Theorem nan_handling (v : index_min_variant) (st : state) (num_points : Z) :
  float_buffer (mem st Source) -> 1 <= num_points ->
  (F32.is_nan (mem st Source 0%nat) = true -> index_min_result v num_points st = 0) /\
  (index_min_result v num_points st <> 0 ->
   F32.is_nan (mem st Source (Z.to_nat (index_min_result v num_points st))) = false /\
   F32.ltb (mem st Source (Z.to_nat (index_min_result v num_points st)))
           (mem st Source 0%nat) = true).
Proof.
  intros Hs Hn. destruct (index_min_first_min v num_points st Hs Hn) as (r & Hr & Hfm & ->).
  split.
  - intro Hnan. enough (r = 0%nat) by lia.
    apply (first_min_unique (mem st Source) (fun j => (j < clamp num_points)%nat)).
    + exact Hfm.
    + split; [now left|]. split; [|intros j _ Hj; lia].
      intros j _. apply f32_ltb_false_iff. right. now left.
    + now apply clamp_pos.
  - intro Hr0. rewrite Nat2Z.id. destruct Hfm as ([->|[_ H1]] & _); [lia|].
    split; [|exact H1]. apply f32_ltb_iff in H1. tauto.
Qed.

Lemma nan_handling_witness :
  float_buffer (mem nan_first Source) /\ 1 <= 3 /\
  F32.is_nan (mem nan_first Source 0%nat) = true /\
  index_min_result IM_a_avx 3 nan_first = 0.
Proof.
  split; [exact nan_first_float_buffer|]. split; [lia|].
  split; [vm_compute; reflexivity|].
  apply (proj1 (nan_handling IM_a_avx nan_first 3 nan_first_float_buffer ltac:(lia))).
  vm_compute. reflexivity.
Defined.

(** X8. The index a variant writes depends on [source[0 .. min (num_points,
    USHRT_MAX))] only: on two stores that agree there, it writes the same
    index, whatever else the stores hold. *)
Theorem index_depends_on_prefix (v : index_min_variant) (st st' : state) (num_points : Z) :
  float_buffer (mem st Source) -> float_buffer (mem st' Source) -> 1 <= num_points ->
  (forall i, Z.of_nat i < Z.min num_points USHRT_MAX ->
     mem st Source i = mem st' Source i) ->
  index_min_result v num_points st = index_min_result v num_points st'.
Proof.
  intros Hs Hs' Hn Hag.
  destruct (index_min_first_min v num_points st Hs Hn) as (r & Hr & Hfm & ->).
  destruct (index_min_first_min v num_points st' Hs' Hn) as (r' & Hr' & Hfm' & ->).
  f_equal.
  apply (first_min_unique (mem st' Source) (fun j => (j < clamp num_points)%nat));
    [|exact Hfm'|now apply clamp_pos].
  apply (first_min_agree (mem st Source)); try assumption; [|now apply clamp_pos].
  intros j Hj. apply Hag. unfold clamp in Hj. lia.
Qed.

Lemma index_depends_on_prefix_witness :
  float_buffer (mem tie_example Source) /\ float_buffer (mem tie_example_prefix Source) /\
  1 <= 2 /\
  index_min_result IM_a_sse4_1 2 tie_example =
  index_min_result IM_a_sse4_1 2 tie_example_prefix.
Proof.
  split; [exact tie_example_float_buffer|]. split; [exact tie_example_prefix_float_buffer|].
  split; [lia|].
  apply (index_depends_on_prefix IM_a_sse4_1 tie_example tie_example_prefix 2);
    [exact tie_example_float_buffer|exact tie_example_prefix_float_buffer|lia|].
  intros i Hi. change (Z.min 2 USHRT_MAX) with 2 in Hi.
  destruct i as [|[|i]]; [reflexivity|reflexivity|lia].
Defined.

(** X9. The index depends only on how the elements compare: on two buffers
    whose elements within the clamped length compare alike under [<] and
    [==], pair by pair, every variant writes the same index. *)
Theorem index_depends_on_order_only (v : index_min_variant) (st st' : state)
  (num_points : Z) :
  float_buffer (mem st Source) -> float_buffer (mem st' Source) -> 1 <= num_points ->
  (forall i j, (i < clamp num_points)%nat -> (j < clamp num_points)%nat ->
     F32.ltb (mem st Source i) (mem st Source j) =
       F32.ltb (mem st' Source i) (mem st' Source j) /\
     F32.eqb (mem st Source i) (mem st Source j) =
       F32.eqb (mem st' Source i) (mem st' Source j)) ->
  index_min_result v num_points st = index_min_result v num_points st'.
Proof.
  intros Hs Hs' Hn Hord.
  destruct (index_min_first_min v num_points st Hs Hn) as (r & Hr & Hfm & ->).
  destruct (index_min_first_min v num_points st' Hs' Hn) as (r' & Hr' & Hfm' & ->).
  f_equal.
  apply (first_min_unique (mem st' Source) (fun j => (j < clamp num_points)%nat));
    [|exact Hfm'|now apply clamp_pos].
  apply (first_min_same_order (mem st Source)); try assumption. now apply clamp_pos.
Qed.

Lemma index_depends_on_order_only_witness :
  float_buffer (mem tie_example Source) /\ float_buffer (mem tie_example_scaled Source) /\
  1 <= 4 /\
  index_min_result IM_u_avx 4 tie_example = index_min_result IM_u_avx 4 tie_example_scaled.
Proof.
  split; [exact tie_example_float_buffer|]. split; [exact tie_example_scaled_float_buffer|].
  split; [lia|].
  apply (index_depends_on_order_only IM_u_avx tie_example tie_example_scaled 4);
    [exact tie_example_float_buffer|exact tie_example_scaled_float_buffer|lia|].
  intros i j Hi Hj. change (clamp 4) with 4%nat in Hi, Hj.
  destruct i as [|[|[|[|i]]]]; [| | | |lia];
    (destruct j as [|[|[|[|j]]]]; [| | | |lia]); vm_compute; split; reflexivity.
Defined.

Lemma tr_any {A} P (c : M A) Q : tr P c Q -> tr (fun _ => True) c (fun _ => True).
Proof.
  intros H st0 st E. split; [exact I|].
  apply (extends_trans _ st0 st); [exact E|].
  apply (extends_weaken P); [intros; exact I|].
  exact (proj2 (H st st (extends_refl P st))).
Qed.

Lemma tr_keeps {A} P (c : M A) Q st e :
  tr P c Q -> In e (trace st) -> In e (trace (snd (c st))).
Proof.
  intros H Hin. destruct (proj2 (H st st (extends_refl P st))) as (evs & E & _).
  rewrite E. apply in_or_app. now right.
Qed.

Lemma generic_in_bounds fp scalar N :
  0 <= N ->
  tr (sd_in_bounds N)
     (volk_32fc_x2_s32f_square_dist_scalar_mult_32f_generic fp scalar N) (fun _ => True).
Proof.
  intro HN. unfold volk_32fc_x2_s32f_square_dist_scalar_mult_32f_generic.
  eapply tr_bind; [apply tr_load_complex; cbn; lia|]. intros symbol _.
  apply tr_calculate_scaled_distances. intros k Hk. cbn [sd_in_bounds]. lia.
Qed.

Lemma a_avx_counts N :
  0 <= N < 4294967296 ->
  uint32 (N / 8 * 8) / 8 = N / 8 /\ uint32 (N - uint32 (N / 8 * 8)) = N mod 8.
Proof. intro H. unfold uint32. Z.div_mod_to_equations. lia. Qed.

Lemma a_avx_in_bounds fp scalar N :
  0 <= N < 4294967296 ->
  tr (sd_in_bounds N)
     (volk_32fc_x2_s32f_square_dist_scalar_mult_32f_a_avx fp scalar N) (fun _ => True).
Proof.
  intro HN. destruct (a_avx_counts N HN) as [C1 C2].
  unfold volk_32fc_x2_s32f_square_dist_scalar_mult_32f_a_avx. cbv zeta.
  rewrite C1, C2. set (P := sd_in_bounds N).
  assert (D : 8 * (N / 8) + N mod 8 = N) by (Z.div_mod_to_equations; lia).
  assert (D0 : 0 <= N / 8 /\ 0 <= N mod 8) by (Z.div_mod_to_equations; lia).
  eapply tr_bind.
  { apply (tr_for_loop0 P (fun i s => s = ((8 * i)%nat, (8 * i)%nat))).
    - reflexivity.
    - intros i s Hi ->. eapply tr_bind; [apply tr_load_complex; cbn; lia|].
      intros src _. eapply tr_bind.
      { apply tr_load_words. intros l Hl. cbn [P sd_in_bounds]. lia. }
      intros lo _. eapply tr_bind.
      { apply tr_load_words. intros l Hl. cbn [P sd_in_bounds].
        change (Z.to_nat (8 / 2)) with 4%nat. lia. }
      intros hi _. eapply tr_bind.
      { apply tr_store_words. intros l Hl. cbn in Hl. cbn [P sd_in_bounds]. lia. }
      intros _ _. apply tr_ret. change (Z.to_nat 8) with 8%nat. f_equal; lia. }
  intros s ->. eapply tr_bind; [apply tr_load_complex; cbn; lia|].
  intros symbol _.
  apply tr_calculate_scaled_distances. intros k Hk. cbn [P sd_in_bounds]. lia.
Qed.

Lemma avx2_counts N :
  0 <= N < 536870912 ->
  let num_bytes := uint32 (N * 8) in
  let bound := Z.shiftr num_bytes 6 in
  let leftovers0 := Z.land (Z.shiftr num_bytes 5) 1 in
  let leftovers1 := Z.land (Z.shiftr num_bytes 4) 1 in
  let leftovers2 := Z.land (Z.shiftr num_bytes 3) 1 in
  let leftovers_u := Z.land (Z.shiftr num_bytes 3) 3 in
  bound = N / 8 /\ 0 <= bound /\ 0 <= leftovers0 <= 1 /\ 0 <= leftovers1 <= 1 /\
  0 <= leftovers2 <= 1 /\ 0 <= leftovers_u /\
  8 * bound + 4 * leftovers0 + 2 * leftovers1 + leftovers2 = N /\
  8 * bound + 4 * leftovers0 + leftovers_u = N.
Proof.
  intro H. cbv zeta. unfold uint32. rewrite !land_1, land_3, !Z.shiftr_div_pow2 by lia.
  change (2 ^ 6) with 64. change (2 ^ 5) with 32. change (2 ^ 4) with 16.
  change (2 ^ 3) with 8.
  Z.div_mod_to_equations. lia.
Qed.

Lemma avx2_shape_in_bounds suffix scalar N :
  0 <= N < 536870912 ->
  (forall x0 t,
     Z.of_nat t = 8 * Z.shiftr (uint32 (N * 8)) 6
                  + 4 * Z.land (Z.shiftr (uint32 (N * 8)) 5) 1 ->
     tr (avx2_in_bounds N) (suffix (uint32 (N * 8)) x0 t t) (fun _ => True)) ->
  tr (avx2_in_bounds N) (avx2_shape suffix scalar N) (fun _ => True).
Proof.
  intros HN Hsuf. pose proof (avx2_counts N HN) as C. cbv zeta in C.
  unfold avx2_shape. cbv zeta.
  set (bound := Z.shiftr (uint32 (N * 8)) 6) in *.
  set (l0 := Z.land (Z.shiftr (uint32 (N * 8)) 5) 1) in *.
  destruct C as (Hb & Hb0 & Hl0 & Hl1 & Hl2 & Hlu & Hsa & Hsu).
  set (P := avx2_in_bounds N).
  assert (HP : forall w, Z.of_nat w < 16 * bound + 16 -> P (Rd Points w))
    by (intros w Hw; cbn [P avx2_in_bounds]; lia).
  eapply tr_bind.
  { apply tr_load_words. intros l Hl. apply HP. lia. }
  intros xmm2 _. eapply tr_bind.
  { apply tr_load_words. intros l Hl. cbn [P avx2_in_bounds]. lia. }
  intros xmm0 _. eapply tr_bind.
  { apply tr_load_words. intros l Hl. apply HP. lia. }
  intros xmm3 _. eapply tr_bind.
  { apply (tr_for_loop0 P (fun i s => fst (fst (fst s)) = (8 * i)%nat /\
                                       snd (fst (fst s)) = (8 * i)%nat)).
    - split; reflexivity.
    - intros i [[[t p] x2] x3] Hi [Ht Hp]. cbn [fst snd] in Ht, Hp. subst t p.
      unfold avx2_main_body. cbv zeta. eapply tr_bind.
      { apply tr_load_words. intros l Hl. apply HP. lia. }
      intros x2' _. eapply tr_bind.
      { apply tr_load_words. intros l Hl. apply HP. lia. }
      intros x3' _. eapply tr_bind.
      { apply tr_store_words. intros l Hl. cbn in Hl. cbn [P avx2_in_bounds]. lia. }
      intros _ _. apply tr_ret. cbn [fst snd]. split; lia. }
  intros [[[t p] x2] x3] [Ht Hp]. cbn [fst snd] in Ht, Hp. subst t p.
  eapply tr_bind.
  { apply (tr_for_loop0 P (fun i s => s = ((8 * Z.to_nat bound + 4 * i)%nat,
                                           (8 * Z.to_nat bound + 4 * i)%nat))).
    - f_equal; lia.
    - intros i s Hi ->. unfold avx2_left0_body. cbv zeta. eapply tr_bind.
      { apply tr_load_words. intros l Hl. apply HP. lia. }
      intros x _. eapply tr_bind.
      { apply tr_store_words. intros l Hl. cbn in Hl. cbn [P avx2_in_bounds]. lia. }
      intros _ _. apply tr_ret. f_equal; lia. }
  intros s ->. apply Hsuf. lia.
Qed.

Lemma a_avx2_in_bounds fp scalar N :
  0 <= N < 536870912 ->
  tr (avx2_in_bounds N)
     (volk_32fc_x2_s32f_square_dist_scalar_mult_32f_a_avx2 fp scalar N) (fun _ => True).
Proof.
  intro HN. rewrite a_avx2_shape. apply avx2_shape_in_bounds; [assumption|].
  intros x0 t Ht. pose proof (avx2_counts N HN) as C. cbv zeta in C.
  unfold a_avx2_suffix. cbv zeta.
  set (bound := Z.shiftr (uint32 (N * 8)) 6) in *.
  set (l0 := Z.land (Z.shiftr (uint32 (N * 8)) 5) 1) in *.
  set (l1 := Z.land (Z.shiftr (uint32 (N * 8)) 4) 1) in *.
  set (l2 := Z.land (Z.shiftr (uint32 (N * 8)) 3) 1) in *.
  destruct C as (Hb & Hb0 & Hl0 & Hl1 & Hl2 & Hlu & Hsa & Hsu).
  set (P := avx2_in_bounds N).
  eapply tr_bind.
  { apply (tr_for_loop0 P (fun i s => s = ((t + 2 * i)%nat, (t + 2 * i)%nat))).
    - f_equal; lia.
    - intros i s Hi ->. unfold avx2_left1_body. cbv zeta. eapply tr_bind.
      { apply tr_load_words. intros l Hl. cbn [P avx2_in_bounds]. lia. }
      intros x _. eapply tr_bind.
      { apply tr_store_words. intros l Hl. cbn in Hl. cbn [P avx2_in_bounds]. lia. }
      intros _ _. apply tr_ret. f_equal; lia. }
  intros s ->. eapply tr_bind; [apply tr_load_complex; cbn; lia|].
  intros symbol _.
  apply tr_calculate_scaled_distances. intros k Hk. cbn [P avx2_in_bounds]. lia.
Qed.

Lemma u_avx2_in_bounds fp scalar N :
  0 <= N < 536870912 ->
  tr (avx2_in_bounds N)
     (volk_32fc_x2_s32f_square_dist_scalar_mult_32f_u_avx2 fp scalar N) (fun _ => True).
Proof.
  intro HN. rewrite u_avx2_shape. apply avx2_shape_in_bounds; [assumption|].
  intros x0 t Ht. pose proof (avx2_counts N HN) as C. cbv zeta in C.
  unfold u_avx2_suffix. cbv zeta.
  set (bound := Z.shiftr (uint32 (N * 8)) 6) in *.
  set (l0 := Z.land (Z.shiftr (uint32 (N * 8)) 5) 1) in *.
  set (lu := Z.land (Z.shiftr (uint32 (N * 8)) 3) 3) in *.
  destruct C as (Hb & Hb0 & Hl0 & Hl1 & Hl2 & Hlu & Hsa & Hsu).
  set (P := avx2_in_bounds N).
  eapply tr_bind; [apply tr_load_complex; cbn; lia|].
  intros symbol _.
  apply tr_calculate_scaled_distances. intros k Hk. cbn [P avx2_in_bounds]. lia.
Qed.

Lemma in_load_words b p n l st :
  (l < n)%nat -> In (Rd b (p + l)%nat) (trace (snd (load_words b p n st))).
Proof.
  intro H. rewrite load_words_run. cbn [snd trace]. apply in_or_app. left.
  apply -> in_rev. apply in_map_iff. exists l. split; [reflexivity|]. apply in_seq. lia.
Qed.

Lemma a_avx2_suffix_any fp scalar nb x0 t p :
  tr (fun _ => True) (a_avx2_suffix fp scalar nb x0 t p) (fun _ => True).
Proof.
  unfold a_avx2_suffix. cbv zeta. eapply tr_bind.
  { apply (tr_for_loop0 _ (fun _ _ => True)); [exact I|].
    intros i [t' p'] _ _. unfold avx2_left1_body. cbv zeta. eapply tr_bind.
    { apply tr_load_words. intros; exact I. }
    intros x _. eapply tr_bind.
    { apply tr_store_words. intros; exact I. }
    intros _ _. apply tr_ret. exact I. }
  intros [t' p'] _. eapply tr_bind; [apply tr_load_complex; exact I|].
  intros symbol _. apply tr_calculate_scaled_distances. intros k Hk. repeat split.
Qed.

Lemma u_avx2_suffix_any fp scalar nb x0 t p :
  tr (fun _ => True) (u_avx2_suffix fp scalar nb x0 t p) (fun _ => True).
Proof.
  unfold u_avx2_suffix. cbv zeta.
  eapply tr_bind; [apply tr_load_complex; exact I|].
  intros symbol _. apply tr_calculate_scaled_distances. intros k Hk. repeat split.
Qed.

Lemma avx2_left0_any x1 x8 idx hi s :
  tr (fun _ => True) (for_loop 0 hi (avx2_left0_body x1 x8 idx) s) (fun _ => True).
Proof.
  apply (tr_for_loop0 _ (fun _ _ => True)); [exact I|].
  intros i [t' p'] _ _. unfold avx2_left0_body. cbv zeta. eapply tr_bind.
  { apply tr_load_words. intros; exact I. }
  intros x _. eapply tr_bind.
  { apply tr_store_words. intros; exact I. }
  intros _ _. apply tr_ret. exact I.
Qed.

Lemma avx2_main_overread x1 x8 idx i s st :
  overread_inv i s st ->
  overread_inv (Datatypes.S i) (fst (avx2_main_body x1 x8 idx i s st))
                               (snd (avx2_main_body x1 x8 idx i s st)).
Proof.
  destruct s as [[[t p] x2] x3]. intros (Hp & H1 & H2). cbn [fst snd] in Hp. subst p.
  unfold avx2_main_body. cbv zeta. unfold _mm256_load_ps, _mm256_store_ps.
  rewrite !bind_run. unfold ret. cbn [fst snd]. unfold overread_inv. cbn [fst snd].
  split; [lia|]. split.
  - eapply tr_keeps; [apply (tr_store_words (fun _ => True)); intros; exact I|].
    replace (16 * Datatypes.S i + 15)%nat with (2 * (8 * i + 8 + 4) + 7)%nat by lia.
    apply in_load_words. lia.
  - eapply tr_keeps; [apply (tr_store_words (fun _ => True)); intros; exact I|].
    eapply tr_keeps; [apply (tr_load_words (fun _ => True)); intros; exact I|].
    eapply tr_keeps; [apply (tr_load_words (fun _ => True)); intros; exact I|].
    exact H2.
Qed.

Lemma avx2_shape_overread suffix scalar N st :
  (forall nb x0 t p, tr (fun _ => True) (suffix nb x0 t p) (fun _ => True)) ->
  In (Rd Points (16 * Z.to_nat (Z.shiftr (uint32 (N * 8)) 6) + 15)%nat)
     (trace (exec (avx2_shape suffix scalar N) st)) /\
  In (Rd Src0 3%nat) (trace (exec (avx2_shape suffix scalar N) st)).
Proof.
  intro Hsuf. unfold exec, avx2_shape. cbv zeta.
  set (bound := Z.to_nat (Z.shiftr (uint32 (N * 8)) 6)).
  set (l0 := Z.to_nat (Z.land (Z.shiftr (uint32 (N * 8)) 5) 1)).
  unfold _mm256_load_ps, _mm_load_ps.
  rewrite bind_run. rewrite bind_run. rewrite bind_run. rewrite bind_run.
  match goal with
  | |- context [for_loop 0 bound ?body ?init ?s] =>
      assert (L : overread_inv bound (fst (for_loop 0 bound body init s))
                                     (snd (for_loop 0 bound body init s)))
  end.
  { apply for_loop_ind; [lia| |].
    - split; [reflexivity|]. split.
      + change (16 * 0 + 15)%nat with (2 * (0 + 4) + 7)%nat. apply in_load_words. lia.
      + eapply tr_keeps; [apply (tr_load_words (fun _ => True)); intros; exact I|].
        change 3%nat with (0 + 3)%nat. apply in_load_words. lia.
    - intros i s st' _ H. now apply avx2_main_overread. }
  match goal with
  | |- context [for_loop 0 bound ?body ?init ?s] =>
      set (R := for_loop 0 bound body init s) in *; clearbody R;
      destruct R as [[[[t p] x2] x3] st1]
  end.
  cbn [fst snd] in *. destruct L as (_ & H1 & H2).
  split; (eapply tr_keeps;
    [eapply tr_bind; [apply avx2_left0_any|intros [t' p'] _; apply Hsuf]|assumption]).
Qed.

(** X10. For every [num_points], the generic and the a_avx square-distance
    variants stay inside the caller's buffers: they read only
    [points[0..num_points)] and [src0[0]], and write only
    [target[0..num_points)]. *)
Theorem generic_and_a_avx_in_bounds (fp : contraction) (scalar num_points : Z) (st : state) :
  0 <= num_points < 2147483648 ->
  (exists evs,
     trace (exec (volk_32fc_x2_s32f_square_dist_scalar_mult_32f_generic fp scalar num_points) st)
       = evs ++ trace st /\ Forall (sd_in_bounds num_points) evs) /\
  (exists evs,
     trace (exec (volk_32fc_x2_s32f_square_dist_scalar_mult_32f_a_avx fp scalar num_points) st)
       = evs ++ trace st /\ Forall (sd_in_bounds num_points) evs).
Proof.
  intro H. split; eapply tr_exec.
  - apply generic_in_bounds. lia.
  - apply a_avx_in_bounds. lia.
Qed.

Lemma generic_and_a_avx_in_bounds_witness :
  0 <= 16 < 2147483648 /\
  (exists evs,
     trace (exec (volk_32fc_x2_s32f_square_dist_scalar_mult_32f_generic FuseIm scale 16) qam_state)
       = evs ++ trace qam_state /\ Forall (sd_in_bounds 16) evs) /\
  (exists evs,
     trace (exec (volk_32fc_x2_s32f_square_dist_scalar_mult_32f_a_avx FuseIm scale 16) qam_state)
       = evs ++ trace qam_state /\ Forall (sd_in_bounds 16) evs).
Proof.
  split; [lia|]. apply (generic_and_a_avx_in_bounds FuseIm scale 16 qam_state). lia.
Defined.

(** X11. While [num_points * 8] fits 32 bits, the AVX2 variants write only
    [target[0..num_points)], and read only the first two elements of [src0]
    and the elements of [points] below the next multiple of eight past
    [num_points], that is [points[0 .. 8 * (num_points / 8) + 8)]. *)
Theorem avx2_padded_bounds (fp : contraction) (scalar num_points : Z) (st : state) :
  0 <= num_points < 536870912 ->
  (exists evs,
     trace (exec (volk_32fc_x2_s32f_square_dist_scalar_mult_32f_a_avx2 fp scalar num_points) st)
       = evs ++ trace st /\ Forall (avx2_in_bounds num_points) evs) /\
  (exists evs,
     trace (exec (volk_32fc_x2_s32f_square_dist_scalar_mult_32f_u_avx2 fp scalar num_points) st)
       = evs ++ trace st /\ Forall (avx2_in_bounds num_points) evs).
Proof.
  intro H. split; eapply tr_exec.
  - now apply a_avx2_in_bounds.
  - now apply u_avx2_in_bounds.
Qed.

Lemma avx2_padded_bounds_witness :
  0 <= 16 < 536870912 /\
  (exists evs,
     trace (exec (volk_32fc_x2_s32f_square_dist_scalar_mult_32f_a_avx2 FuseIm scale 16) qam_state)
       = evs ++ trace qam_state /\ Forall (avx2_in_bounds 16) evs) /\
  (exists evs,
     trace (exec (volk_32fc_x2_s32f_square_dist_scalar_mult_32f_u_avx2 FuseIm scale 16) qam_state)
       = evs ++ trace qam_state /\ Forall (avx2_in_bounds 16) evs).
Proof.
  split; [lia|]. apply (avx2_padded_bounds FuseIm scale 16 qam_state). lia.
Defined.

(** X12. The AVX2 variants always read past the caller's elements: whatever
    [num_points] is, a_avx2 and u_avx2 read the word [16 * (num_points / 8) +
    15] of [points], which lies at or beyond the end of
    [points[0..num_points)], and the word 3 of [src0], which lies beyond its
    single element. *)
Theorem avx2_reads_past_end (fp : contraction) (scalar num_points : Z) (st : state) :
  0 <= num_points < 536870912 ->
  let w := Z.to_nat (16 * (num_points / 8) + 15) in
  let a := exec (volk_32fc_x2_s32f_square_dist_scalar_mult_32f_a_avx2 fp scalar num_points) st in
  let u := exec (volk_32fc_x2_s32f_square_dist_scalar_mult_32f_u_avx2 fp scalar num_points) st in
  2 * num_points <= Z.of_nat w /\
  In (Rd Points w) (trace a) /\ In (Rd Src0 3%nat) (trace a) /\
  In (Rd Points w) (trace u) /\ In (Rd Src0 3%nat) (trace u).
Proof.
  intro H. cbv zeta.
  destruct (avx2_counts num_points H) as (Hb & _). cbv zeta in Hb.
  assert (E : Z.to_nat (16 * (num_points / 8) + 15)
              = (16 * Z.to_nat (Z.shiftr (uint32 (num_points * 8)) 6) + 15)%nat).
  { rewrite Hb. assert (0 <= num_points / 8) by (Z.div_mod_to_equations; lia). lia. }
  split; [Z.div_mod_to_equations; lia|]. rewrite E.
  rewrite a_avx2_shape, u_avx2_shape.
  destruct (avx2_shape_overread (a_avx2_suffix fp scalar) scalar num_points st
              (a_avx2_suffix_any fp scalar)) as [A1 A2].
  destruct (avx2_shape_overread (u_avx2_suffix fp scalar) scalar num_points st
              (u_avx2_suffix_any fp scalar)) as [U1 U2].
  split; [exact A1|]. split; [exact A2|]. split; [exact U1|exact U2].
Qed.

Lemma avx2_reads_past_end_witness :
  0 <= 16 < 536870912 /\
  2 * 16 <= Z.of_nat (Z.to_nat (16 * (16 / 8) + 15)) /\
  In (Rd Points (Z.to_nat (16 * (16 / 8) + 15)))
     (trace (exec (volk_32fc_x2_s32f_square_dist_scalar_mult_32f_a_avx2 FuseIm scale 16) qam_state)) /\
  In (Rd Src0 3%nat)
     (trace (exec (volk_32fc_x2_s32f_square_dist_scalar_mult_32f_a_avx2 FuseIm scale 16) qam_state)).
Proof.
  split; [lia|].
  pose proof (avx2_reads_past_end FuseIm scale 16 qam_state ltac:(lia)) as H. cbv zeta in H.
  split; [exact (proj1 H)|]. split; [exact (proj1 (proj2 H))|exact (proj1 (proj2 (proj2 H)))].
Defined.

(** X13. The vector variants of the index-of-minimum kernel count in floats:
    every index below 65536 is a float exactly, so [(uint16_t)(float)i = i];
    advancing a float index by [8.0f] (AVX) or [4.0f] (SSE) is exact; and
    float indexes order as the integers do. *)
Theorem float_index_exact (i : Z) :
  0 <= i < 65536 ->
  F32.to_u16 (F32.of_Z i) = i /\
  F32.add (F32.of_Z (i - 8)) (F32.of_Z 8) = F32.of_Z i /\
  F32.add (F32.of_Z (i - 4)) (F32.of_Z 4) = F32.of_Z i /\
  F32.ltb (F32.of_Z i) (F32.of_Z (i + 1)) = true.
Proof.
  intro H.
  pose proof (check_range_sound index_float_ok _ 0 index_floats_checked i ltac:(lia)) as C.
  unfold index_float_ok in C. cbv zeta in C.
  repeat (apply andb_true_iff in C; destruct C as [C ?]).
  repeat match goal with
         | X : (_ =? _) = true |- _ => apply Z.eqb_eq in X
         | X : (_ <? _) = true |- _ => apply Z.ltb_lt in X
         | X : (_ <=? _) = true |- _ => apply Z.leb_le in X
         | X : negb _ = true |- _ => apply negb_true_iff in X
         end.
  split; [|split; [assumption|split; [assumption|]]].
  - unfold F32.to_u16. match goal with X : F32.trunc _ = i |- _ => rewrite X end.
    apply Z.mod_small. lia.
  - apply f32_ltb_iff. split; [assumption|]. split; [|assumption].
    destruct (F32.is_nan (F32.of_Z (i + 1))) eqn:N; [|reflexivity].
    exfalso. destruct (Z.eq_dec i 65535) as [->|Hne].
    + vm_compute in N. discriminate.
    + pose proof (check_range_sound index_float_ok _ 0 index_floats_checked (i + 1)
                    ltac:(lia)) as C'.
      unfold index_float_ok in C'. cbv zeta in C'.
      repeat (apply andb_true_iff in C'; destruct C' as [C' ?]).
      match goal with
      | X : negb (F32.is_nan (F32.of_Z (i + 1))) = true |- _ => rewrite N in X; discriminate
      end.
Qed.

Lemma float_index_exact_witness :
  0 <= 65535 < 65536 /\ F32.to_u16 (F32.of_Z 65535) = 65535.
Proof.
  split; [lia|]. exact (proj1 (float_index_exact 65535 ltac:(lia))).
Defined.

Lemma clamp_small num_points :
  0 <= num_points <= USHRT_MAX -> clamp num_points = Z.to_nat num_points.
Proof. intro H. unfold clamp. f_equal. lia. Qed.

(** X14. One more point: below the clamp, the index a variant writes for
    [num_points + 1] points is the index it writes for [num_points] points,
    unless the new element [source[num_points]] is less than the element at
    that index, in which case it is [num_points]. *)
Theorem index_min_extend (v : index_min_variant) (st : state) (num_points : Z) :
  float_buffer (mem st Source) -> 1 <= num_points < USHRT_MAX ->
  index_min_result v (num_points + 1) st =
    if F32.ltb (mem st Source (Z.to_nat num_points))
               (mem st Source (Z.to_nat (index_min_result v num_points st)))
    then num_points
    else index_min_result v num_points st.
Proof.
  intros Hs Hn.
  destruct (index_min_first_min v num_points st Hs ltac:(lia)) as (r & Hr & Hfm & ->).
  destruct (index_min_first_min v (num_points + 1) st Hs ltac:(lia)) as (r' & Hr' & Hfm' & ->).
  rewrite Nat2Z.id. rewrite clamp_small in * by lia.
  pose proof (first_min_step (mem st Source) _ r (Z.to_nat num_points) Hfm
                ltac:(intros j Hj; exact Hj)) as S.
  assert (E : r' = if F32.ltb (mem st Source (Z.to_nat num_points)) (mem st Source r)
                   then Z.to_nat num_points else r).
  { apply (first_min_unique (mem st Source) (fun j => (j < Z.to_nat (num_points + 1))%nat));
      [exact Hfm'| |lia].
    eapply first_min_ext; [|exact S]. intro j. cbv beta. lia. }
  rewrite E. destruct (F32.ltb _ _); lia.
Qed.

Lemma index_min_extend_witness :
  float_buffer (mem tie_example Source) /\ 1 <= 1 < USHRT_MAX /\
  index_min_result IM_a_sse 2 tie_example =
    if F32.ltb (mem tie_example Source (Z.to_nat 1))
               (mem tie_example Source (Z.to_nat (index_min_result IM_a_sse 1 tie_example)))
    then 1
    else index_min_result IM_a_sse 1 tie_example.
Proof.
  split; [exact tie_example_float_buffer|]. split; [unfold USHRT_MAX; lia|].
  apply (index_min_extend IM_a_sse tie_example 1);
    [exact tie_example_float_buffer|unfold USHRT_MAX; lia].
Defined.
